(** * mlpack / FASTlib: kd-tree midpoint builder and triple-tree n-body classes

    A shallow embedding of

    - [fastlib/u/garryb/nbr/kdtree.h] (class [KdTreeMidpointBuilder]), and
    - [physpack/nbody_simulator/nbody_simulator_tripletree.h]
      (classes [NbodySimulatorPostponed], [NbodySimulatorDelta],
      [NbodySimulatorResult], [NbodySimulatorGlobal], [NbodySimulatorSummary]).

    Conventions of the embedding.

    - [index_t] and [int] are [Z]; the arrays are lists read through [zth].
      The indices that the builder computes on a range inside the array stay
      between -1 and the size of the array, so the width of [index_t] plays
      no role there.
    - A run that indexes an array outside its range has the outcome
      [OutOfRange].  The source gives such an access no meaning
      ([std::vector::operator[]] does not check its index, [CacheArray] is
      not under src/): the embedding follows the run up to the access and
      says nothing of what the program does after it.
    - A [double] that is a number is a rational, [Q], and doubles are
      compared as rationals; NaN and the infinities are left out, and
      [std::numeric_limits<double>::max()] is [DBL_MAX].  The results of the
      arithmetic on doubles are rounded by the machine.  Where the builder,
      [NbodySimulatorResult::PostProcess] and the two [ApplyPostponed] of
      [NbodySimulatorPostponed] and [NbodySimulatorResult] compute with
      doubles, the operation is a parameter: the width and the midpoint of
      a range ([Range::width()], [Range::mid()]) and the sum of two doubles.
      [width], [mid] and [Qplus] are their exact values, [width64], [mid64]
      and [add64] their values in binary64.  The remaining sums of the
      n-body classes are exact; they are only compared with one another.
    - Unbounded loops ([for (;;)], [while (1)]) and the recursion of [Build_]
      take a [fuel]; running out of it is the outcome [OutOfFuel].
    - A failing [DEBUG_ASSERT] is the outcome [AssertFail]. *)

From Stdlib Require Import List ZArith QArith Qminmax Lia Lqa Bool Permutation.
From Stdlib Require Import Floats.SpecFloat.
Import ListNotations.

Open Scope Z_scope.

(** ** Outcomes of a run *)

Inductive outcome (A : Type) : Type :=
| Ret (a : A)
| OutOfRange
| AssertFail
| OutOfFuel.

Arguments Ret {A} a.
Arguments OutOfRange {A}.
Arguments AssertFail {A}.
Arguments OutOfFuel {A}.

Definition bind {A B : Type} (m : outcome A) (k : A -> outcome B) : outcome B :=
  match m with
  | Ret a => k a
  | OutOfRange => OutOfRange
  | AssertFail => AssertFail
  | OutOfFuel => OutOfFuel
  end.

Notation "x <- m ;; k" := (bind m (fun x => k))
  (at level 61, m at next level, right associativity).
Notation "' p <- m ;; k" := (bind m (fun x => match x with p => k end))
  (at level 61, p pattern, m at next level, right associativity).

Definition DEBUG_ASSERT (c : bool) : outcome unit :=
  if c then Ret tt else AssertFail.

(** ** Arrays indexed by [index_t] *)

(** The element at index [i], if the array has one. *)
Definition zth {A : Type} (l : list A) (i : Z) : option A :=
  if i <? 0 then None else nth_error l (Z.to_nat i).

(** The array with [x] at index [n]. *)
Fixpoint upd {A : Type} (l : list A) (n : nat) (x : A) : list A :=
  match l, n with
  | [], _ => []
  | _ :: l', O => x :: l'
  | a :: l', S n' => a :: upd l' n' x
  end.

Definition zupd {A : Type} (l : list A) (i : Z) (x : A) : list A :=
  if i <? 0 then l else upd l (Z.to_nat i) x.

(** Modelled from the spec: the cache arrays ([CacheArray]) are not under
    src/; the spec has them as contiguous storage addressed by integer
    indices.  [StartRead], [StartWrite] and [operator[]] give the element at
    an index of the array.  There is none outside it: [OutOfRange] records
    that the run has made such an access, which the source leaves
    undefined. *)
Definition read {A : Type} (l : list A) (i : Z) : outcome A :=
  match zth l i with
  | Some x => Ret x
  | None => OutOfRange
  end.

(** Modelled from the spec: [CacheArray::Swap] and [Vector::SwapValues] are
    not under src/; the point and its payload at [i] change places with those
    at [j]. *)
Definition swap {A : Type} (l : list A) (i j : Z) : outcome (list A) :=
  a <- read l i ;;
  b <- read l j ;;
  Ret (zupd (zupd l i b) j a).

(** The elements at the indices [first .. first + count - 1]. *)
Definition segment {A : Type} (first count : Z) (l : list A) : list A :=
  firstn (Z.to_nat count) (skipn (Z.to_nat first) l).

(** ** [double] *)

Definition double : Type := Q.

(** [std::numeric_limits<double>::max()], the largest finite [double]. *)
Definition DBL_MAX : double := inject_Z (2 ^ 1024 - 2 ^ 971).

(** [a < b] and [a != b] on [double]. *)
Definition Qlt_b (a b : double) : bool := negb (Qle_bool b a).
Definition Qneq_b (a b : double) : bool := negb (Qeq_bool a b).

Arguments Qlt_b (a b)%_Q.
Arguments Qneq_b (a b)%_Q.

(** ** [Vector] *)

Definition Vector : Type := list double.

(** [v->get(d)]. *)
Definition Vector_get (v : Vector) (d : Z) : outcome double := read v d.

(** ** Ranges and bounds *)

(** Modelled from the spec: [spbounds.h] and [core::math::Range] are not
    under src/.  A range is a closed interval [lo, hi]; union ([|=]) never
    shrinks it; midpoint and width are derived, not stored. *)
Record DRange : Type := mkRange { lo : double; hi : double }.

Definition DRange_Init (l h : double) : DRange := mkRange l h.

Arguments mkRange (lo hi)%_Q.
Arguments DRange_Init (l h)%_Q.

(** Modelled from the spec: the range before any data is seen is the "worst
    possible" sentinel; it is the one that
    [NbodySimulatorSummary::StartReaccumulate] writes, [lo = DBL_MAX] and
    [hi = -DBL_MAX]. *)
Definition DRange_InitEmptySet : DRange := mkRange DBL_MAX (- DBL_MAX)%Q.

(** Modelled from the spec: [width()], derived from the two ends.  This is
    the exact difference; the machine rounds it. *)
Definition width (r : DRange) : double := (hi r - lo r)%Q.

(** Modelled from the spec: [mid()], the midpoint of the two ends.  This is
    the exact midpoint; the machine rounds it. *)
Definition mid (r : DRange) : double := ((hi r + lo r) / 2)%Q.

(** Modelled from the spec: [range |= d] for a coordinate [d], the least
    range that contains [range] and [d]. *)
Definition DRange_add (r : DRange) (d : double) : DRange :=
  mkRange (if Qlt_b d (lo r) then d else lo r)
          (if Qlt_b (hi r) d then d else hi r).

(** Modelled from the spec: [range |= other] for a range, the set union
    widened to an interval. *)
Definition DRange_union (r o : DRange) : DRange :=
  mkRange (if Qlt_b (lo o) (lo r) then lo o else lo r)
          (if Qlt_b (hi r) (hi o) then hi o else hi r).

(** Modelled from the spec: [range + other] and [range += other], the sum
    of two intervals end by end. *)
Definition DRange_plus (r o : DRange) : DRange :=
  mkRange (lo r + lo o)%Q (hi r + hi o)%Q.

(** The same sum with the addition [double_add] of the machine. *)
Definition DRange_plus_with (double_add : double -> double -> double) (r o : DRange)
  : DRange :=
  mkRange (double_add (lo r) (lo o)) (double_add (hi r) (hi o)).

(** [x] lies in the closed interval [r]. *)
Definition in_range (r : DRange) (x : double) : Prop :=
  (lo r <= x)%Q /\ (x <= hi r)%Q.

(** Modelled from the spec: a bound is one range per dimension. *)
Definition Bound : Type := list DRange.

(** Modelled from the spec: [bound.Init(dim)], [dim] empty ranges. *)
Definition Bound_Init (dim : Z) : Bound :=
  repeat DRange_InitEmptySet (Z.to_nat dim).

(** Modelled from the spec: [bound |= v] for a point [v], dimension by
    dimension. *)
Fixpoint Bound_add (b : Bound) (v : Vector) : Bound :=
  match b, v with
  | r :: b', x :: v' => DRange_add r x :: Bound_add b' v'
  | _, _ => b
  end.

(** [bound.get(d)]. *)
Definition Bound_get (b : Bound) (d : Z) : outcome DRange := read b d.

(** ** The arithmetic of binary64

    The sum and the difference of two doubles and the midpoint of a range
    as the machine computes them, rounded to the nearest double with ties to
    even, through the specification of IEEE 754 arithmetic of the Standard
    Library with a precision of 53 bits.  A double is handed over in lowest
    terms, as its numerator and the exponent of its denominator, which is a
    power of two. *)

Definition SF_of_double (q : double) : spec_float :=
  let q' := Qred q in
  let e := Z.log2 (Z.pos (Qden q')) in
  if Z.pos (Qden q') =? 2 ^ e then
    match Qnum q' with
    | 0 => S754_zero false
    | Z.pos m => S754_finite false m (- e)
    | Z.neg m => S754_finite true m (- e)
    end
  else S754_nan.

(** The number that a finite double is.  An infinity is taken beyond
    [DBL_MAX], at [2 ^ 1024]; NaN is left out. *)
Definition double_of_SF (f : spec_float) : double :=
  match f with
  | S754_zero _ => 0%Q
  | S754_finite s m e =>
      let n := cond_Zopp s (Z.pos m) in
      if 0 <=? e then inject_Z (n * 2 ^ e) else Qred (Qmake n (Z.to_pos (2 ^ (- e))))
  | S754_infinity s => inject_Z (cond_Zopp s (2 ^ 1024))
  | S754_nan => 0%Q
  end.

Definition add64 (a b : double) : double :=
  double_of_SF (SFadd 53 1024 (SF_of_double a) (SF_of_double b)).

Definition sub64 (a b : double) : double :=
  double_of_SF (SFsub 53 1024 (SF_of_double a) (SF_of_double b)).

Arguments add64 (a b)%_Q.
Arguments sub64 (a b)%_Q.

(** [width()] and [mid()] in binary64: [hi - lo] and [(hi + lo) / 2].  The
    sum of the midpoint is divided as the machine has it, so that a sum that
    overflows stays infinite. *)
Definition width64 (r : DRange) : double := sub64 (hi r) (lo r).

Definition mid64 (r : DRange) : double :=
  double_of_SF
    (SFdiv 53 1024 (SFadd 53 1024 (SF_of_double (hi r)) (SF_of_double (lo r)))
       (SF_of_double 2%Q)).

(** * The kd-tree builder ([kdtree.h])

    The file is a draft: as it stands it is not accepted by a C++ compiler
    (the second [while (1)] of [Partition_] lacks its opening brace,
    [*left_v.SwapValues(right_v)] and the [node] of [Build()] do not type).
    The embedding follows the block structure that the closing braces and
    the indentation give.  [InitBuild], which opens the arrays and reads
    [dim_] and [leaf_size_], is not embedded: the builder record holds what
    it leaves, and [Build] starts from an empty node array. *)

Module KdTree.

(** Modelled from the spec: [spnode.h] is not under src/.  The two
    children of a node are optional, absent for a leaf.  A link is [Unset]
    until [set_leaf] or [set_child] writes it. *)
Inductive Link : Type :=
| Unset
| NoChild
| Child (node_i : Z).

(** The statistic of a node is a parameter of the tree ([TNode::Stat],
    [TParam], [TPointInfo]); the builder only calls these four methods. *)
Class Statistic (Param PointInfo Stat : Type) : Type := {
  stat_default : Stat;
  stat_Init : Param -> Stat -> Stat;
  stat_Accumulate_node : Param -> Stat -> Bound -> Z -> Stat -> Stat;
  stat_Accumulate_point : Param -> Vector -> PointInfo -> Stat -> Stat;
  stat_Postprocess : Param -> Bound -> Z -> Stat -> Stat
}.

Section Builder.

Context {Param PointInfo Stat : Type} `{Statistic Param PointInfo Stat}.

(** [BIG_BAD_NUMBER] is declared in [base/common.h], which is not under
    src/. *)
Variable BIG_BAD_NUMBER : Z.

(** [width()] and [mid()] are methods of the range class of [spbounds.h],
    which is not under src/; they return doubles that the machine has
    rounded. *)
Variable range_width : DRange -> double.
Variable range_mid : DRange -> double.

(** Modelled from the spec: [spnode.h] is not under src/.  A node owns the
    index range [begin_, begin_ + count_), a bound, two links and a
    statistic. *)
Record Node : Type := mkNode {
  begin_ : Z;
  count_ : Z;
  bound_ : Bound;
  child0_ : Link;
  child1_ : Link;
  stat_ : Stat
}.

(** [node->end()]. *)
Definition end_ (n : Node) : Z := begin_ n + count_ n.

(** Modelled from the spec: [node->Init(begin, count)] gives the node its
    range; the bound, which [Partition_] has filled by then, stays. *)
Definition Node_Init (b c : Z) (n : Node) : Node :=
  mkNode b c (bound_ n) (child0_ n) (child1_ n) (stat_ n).

(** A write to [node->bound()]. *)
Definition set_bound (bd : Bound) (n : Node) : Node :=
  mkNode (begin_ n) (count_ n) bd (child0_ n) (child1_ n) (stat_ n).

(** A write to [node->stat()]. *)
Definition set_stat (s : Stat) (n : Node) : Node :=
  mkNode (begin_ n) (count_ n) (bound_ n) (child0_ n) (child1_ n) s.

(** Modelled from the spec: [node->set_leaf()], both children absent. *)
Definition set_leaf (n : Node) : Node :=
  mkNode (begin_ n) (count_ n) (bound_ n) NoChild NoChild (stat_ n).

(** Modelled from the spec: [node->set_child(i, c)], child [i] is the node
    at index [c]. *)
Definition set_child (i : Z) (c : Z) (n : Node) : Node :=
  if i =? 0 then mkNode (begin_ n) (count_ n) (bound_ n) (Child c) (child1_ n) (stat_ n)
  else mkNode (begin_ n) (count_ n) (bound_ n) (child0_ n) (Child c) (stat_ n).

(** Modelled from the spec: what [nodes_.AddBack()] and
    [allocator_.Alloc()] append.  The range, the bound and the statistic of
    the new node are written before they are read; its links are [Unset]. *)
Definition fresh_node : Node := mkNode 0 0 [] Unset Unset stat_default.

(** The members of [KdTreeMidpointBuilder]. *)
Record Builder : Type := mkBuilder {
  param_ : Param;
  points_ : list Vector;
  point_infos_ : list PointInfo;
  nodes_ : list Node;
  leaf_size_ : Z;
  dim_ : Z
}.

(** The builder with other points and payloads, and with other nodes. *)
Definition set_points (p : list Vector) (q : list PointInfo) (b : Builder) : Builder :=
  mkBuilder (param_ b) p q (nodes_ b) (leaf_size_ b) (dim_ b).

Definition set_nodes (ns : list Node) (b : Builder) : Builder :=
  mkBuilder (param_ b) (points_ b) (point_infos_ b) ns (leaf_size_ b) (dim_ b).

(** A write through a node pointer: [nodes_[node_i]] becomes [f] of it. *)
Definition modify_node (node_i : Z) (f : Node -> Node) (b : Builder) : outcome Builder :=
  n <- read (nodes_ b) node_i ;;
  Ret (set_nodes (zupd (nodes_ b) node_i (f n)) b).

(** Modelled from the spec: [allocator_.Alloc()] and [nodes_.AddBack()]
    append a node to the arena; its index is the value of [Alloc]. *)
Definition Alloc (b : Builder) : Z * Builder :=
  (Z.of_nat (length (nodes_ b)), set_nodes (nodes_ b ++ [fresh_node]) b).

(** ** [FindBoundingBox_] *)

Fixpoint FindBoundingBox_loop (points : list Vector) (n : nat) (i : Z) (bound : Bound)
  : outcome Bound :=
  match n with
  | O => Ret bound
  | S n' =>
      v <- read points i ;;
      FindBoundingBox_loop points n' (i + 1) (Bound_add bound v)
  end.

Definition FindBoundingBox_ (b : Builder) (first count : Z) (bound : Bound) : outcome Bound :=
  FindBoundingBox_loop (points_ b) (Z.to_nat count) first bound.

(** ** [Partition_] *)

(** The state of the scan: the two arrays, the cursors and the two bounds. *)
Record Scan : Type := mkScan {
  s_points : list Vector;
  s_infos : list PointInfo;
  s_left : Z;
  s_right : Z;
  s_left_bound : Bound;
  s_right_bound : Bound
}.

(** The first inner loop: the left cursor advances over the points below
    the split value.  The point at [left] is read before [left > right] is
    tested. *)
Fixpoint left_scan (fuel : nat) (split_dim : Z) (splitvalue : double) (s : Scan)
  : outcome Scan :=
  match fuel with
  | O => OutOfFuel
  | S fuel' =>
      left_v <- read (s_points s) (s_left s) ;;
      x <- Vector_get left_v split_dim ;;
      if Qle_bool splitvalue x || (s_left s >? s_right s) then Ret s
      else left_scan fuel' split_dim splitvalue
             (mkScan (s_points s) (s_infos s) (s_left s + 1) (s_right s)
                     (Bound_add (s_left_bound s) left_v) (s_right_bound s))
  end.

(** The second inner loop: the right cursor retreats over the points at or
    above the split value. *)
Fixpoint right_scan (fuel : nat) (split_dim : Z) (splitvalue : double) (s : Scan)
  : outcome Scan :=
  match fuel with
  | O => OutOfFuel
  | S fuel' =>
      right_v <- read (s_points s) (s_right s) ;;
      x <- Vector_get right_v split_dim ;;
      if Qlt_b x splitvalue || (s_left s >? s_right s) then Ret s
      else right_scan fuel' split_dim splitvalue
             (mkScan (s_points s) (s_infos s) (s_left s) (s_right s - 1)
                     (s_left_bound s) (Bound_add (s_right_bound s) right_v))
  end.

(** The body of the [for (;;)] loop after the two scans: exchange the two
    points and their payloads, account for them in the bounds, and move the
    right cursor. *)
Definition exchange (s : Scan) : outcome Scan :=
  points <- swap (s_points s) (s_left s) (s_right s) ;;
  infos <- swap (s_infos s) (s_left s) (s_right s) ;;
  left_v <- read points (s_left s) ;;
  right_v <- read points (s_right s) ;;
  _ <- DEBUG_ASSERT (s_left s <=? s_right s) ;;
  Ret (mkScan points infos (s_left s) (s_right s - 1)
              (Bound_add (s_left_bound s) left_v)
              (Bound_add (s_right_bound s) right_v)).

(** The [for (;;)] loop. *)
Fixpoint partition_loop (fuel : nat) (split_dim : Z) (splitvalue : double) (s : Scan)
  : outcome Scan :=
  match fuel with
  | O => OutOfFuel
  | S fuel' =>
      s1 <- left_scan fuel split_dim splitvalue s ;;
      s2 <- right_scan fuel split_dim splitvalue s1 ;;
      if s_left s2 >? s_right s2 then Ret s2
      else
        s3 <- exchange s2 ;;
        partition_loop fuel' split_dim splitvalue s3
  end.

(** What [Partition_] returns and leaves behind. *)
Record Partitioned : Type := mkPartitioned {
  split_col : Z;
  p_builder : Builder;
  p_left_bound : Bound;
  p_right_bound : Bound
}.

(** [Partition_].  The source takes the two bounds as pointers,
    [&left->bound()] and [&right->bound()], into the node array and updates
    them in place; here they are taken and returned as values, and
    [split_node] writes them back to the two nodes.  The node array of
    [p_builder] is therefore the one from before the call and says nothing of
    the bounds of the two children. *)
Definition Partition_ (fuel : nat) (b : Builder) (split_dim : Z) (splitvalue : double)
    (first count : Z) (left_bound right_bound : Bound) : outcome Partitioned :=
  s <- partition_loop fuel split_dim splitvalue
         (mkScan (points_ b) (point_infos_ b) first (first + count - 1)
                 left_bound right_bound) ;;
  _ <- DEBUG_ASSERT (s_left s =? s_right s + 1) ;;
  Ret (mkPartitioned (s_left s) (set_points (s_points s) (s_infos s) b)
         (s_left_bound s) (s_right_bound s)).

(** ** [Build_] *)

(** The short loop that finds the widest dimension. *)
Fixpoint widest (n : nat) (d : Z) (bound : Bound) (max_width : double) (split_dim : Z)
  : outcome (double * Z) :=
  match n with
  | O => Ret (max_width, split_dim)
  | S n' =>
      r <- Bound_get bound d ;;
      let w := range_width r in
      if Qlt_b max_width w then widest n' (d + 1) bound w d
      else widest n' (d + 1) bound max_width split_dim
  end.

(** The loop of the leaf branch over the points of the node. *)
Fixpoint leaf_stat_loop (n : nat) (i : Z) (b : Builder) (st : Stat) : outcome Stat :=
  match n with
  | O => Ret st
  | S n' =>
      v <- read (points_ b) i ;;
      info <- read (point_infos_ b) i ;;
      leaf_stat_loop n' (i + 1) b (stat_Accumulate_point (param_ b) v info st)
  end.

(** The split branch up to the assertion: allocate the two children, scan,
    and give the children their ranges.  The bounds that [Partition_]
    updates through [&left->bound()] and [&right->bound()] are written back
    to the two nodes; the [DEBUG_MSG] only prints. *)
Definition split_node (fuel : nat) (b : Builder) (node : Node) (split_dim : Z)
    (split_val : double) : outcome (Z * Z * Builder) :=
  let '(left_i, b) := Alloc b in
  let '(right_i, b) := Alloc b in
  b <- modify_node left_i (set_bound (Bound_Init (dim_ b))) b ;;
  b <- modify_node right_i (set_bound (Bound_Init (dim_ b))) b ;;
  lnode <- read (nodes_ b) left_i ;;
  rnode <- read (nodes_ b) right_i ;;
  p <- Partition_ fuel b split_dim split_val (begin_ node) (count_ node)
         (bound_ lnode) (bound_ rnode) ;;
  let b := p_builder p in
  b <- modify_node left_i (set_bound (p_left_bound p)) b ;;
  b <- modify_node right_i (set_bound (p_right_bound p)) b ;;
  b <- modify_node left_i (Node_Init (begin_ node) (split_col p - begin_ node)) b ;;
  b <- modify_node right_i (Node_Init (split_col p) (end_ node - split_col p)) b ;;
  lnode <- read (nodes_ b) left_i ;;
  rnode <- read (nodes_ b) right_i ;;
  _ <- DEBUG_ASSERT (negb (count_ lnode =? 0) && negb (count_ rnode =? 0)) ;;
  Ret (left_i, right_i, b).

(** The end of the split branch, after the two recursive calls. *)
Definition join_node (b : Builder) (node_i left_i right_i : Z) : outcome Builder :=
  b <- modify_node node_i (set_child 0 left_i) b ;;
  b <- modify_node node_i (set_child 1 right_i) b ;;
  lnode <- read (nodes_ b) left_i ;;
  rnode <- read (nodes_ b) right_i ;;
  b <- modify_node node_i (fun n => set_stat
         (stat_Accumulate_node (param_ b) (stat_ lnode) (bound_ lnode) (count_ lnode)
            (stat_ n)) n) b ;;
  b <- modify_node node_i (fun n => set_stat
         (stat_Accumulate_node (param_ b) (stat_ rnode) (bound_ rnode) (count_ rnode)
            (stat_ n)) n) b ;;
  modify_node node_i (fun n => set_stat
         (stat_Postprocess (param_ b) (bound_ n) (count_ n) (stat_ n)) n) b.

(** The leaf branch. *)
Definition make_leaf (b : Builder) (node_i : Z) : outcome Builder :=
  b <- modify_node node_i set_leaf b ;;
  node <- read (nodes_ b) node_i ;;
  st <- leaf_stat_loop (Z.to_nat (end_ node - begin_ node)) (begin_ node) b (stat_ node) ;;
  b <- modify_node node_i (set_stat st) b ;;
  modify_node node_i (fun n => set_stat
         (stat_Postprocess (param_ b) (bound_ n) (count_ n) (stat_ n)) n) b.

(** [Build_(node_i)].  The local [leaf] is declared without an initialiser
    and the only assignment to it is [leaf = false]; where the source reads
    it unassigned its value is [uninit node_i]. *)
Fixpoint Build_ (uninit : Z -> bool) (fuel : nat) (b : Builder) (node_i : Z)
  : outcome Builder :=
  match fuel with
  | O => OutOfFuel
  | S fuel' =>
      node <- read (nodes_ b) node_i ;;
      let leaf := uninit node_i in
      b <- modify_node node_i (fun n => set_stat (stat_Init (param_ b) (stat_ n)) n) b ;;
      r <- (if count_ node >? leaf_size_ b then
              '(max_width, split_dim) <-
                 widest (Z.to_nat (dim_ b)) 0 (bound_ node) (-1)%Q BIG_BAD_NUMBER ;;
              rg <- Bound_get (bound_ node) split_dim ;;
              let split_val := range_mid rg in
              if Qneq_b max_width 0 then
                '(left_i, right_i, b) <- split_node fuel b node split_dim split_val ;;
                b <- Build_ uninit fuel' b left_i ;;
                b <- Build_ uninit fuel' b right_i ;;
                b <- join_node b node_i left_i right_i ;;
                Ret (b, false)
              else Ret (b, leaf)
            else Ret (b, leaf)) ;;
      if snd r then make_leaf (fst r) node_i else Ret (fst r)
  end.

(** [Build()]: the root node covers all the points, its bound is their
    bounding box. *)
Definition Build (uninit : Z -> bool) (fuel : nat) (b : Builder) : outcome Builder :=
  let node_i := 0 in
  let '(_, b) := Alloc b in
  b <- modify_node node_i (Node_Init 0 (Z.of_nat (length (points_ b)))) b ;;
  b <- modify_node node_i (set_bound (Bound_Init (dim_ b))) b ;;
  node <- read (nodes_ b) node_i ;;
  bound <- FindBoundingBox_ b node_i (Z.of_nat (length (points_ b))) (bound_ node) ;;
  b <- modify_node node_i (set_bound bound) b ;;
  Build_ uninit fuel b 0.

End Builder.

Arguments Node : clear implicits.
Arguments Scan : clear implicits.
Arguments Builder : clear implicits.
Arguments Partitioned : clear implicits.

End KdTree.

(** * The triple-tree n-body classes ([nbody_simulator_tripletree.h])

    [core::math::Range] is the [DRange] above; a [std::vector] is a list
    read and written through [read] and [write]. *)

Definition write {A : Type} (l : list A) (i : Z) (x : A) : outcome (list A) :=
  _ <- read l i ;;
  Ret (zupd l i x).

Module NbodySimulatorPostponed.

Record t : Type := mk {
  negative_potential_ : DRange;
  positive_potential_ : DRange;
  pruned_ : double;
  used_error_ : double
}.

Definition SetZero (_ : t) : t :=
  mk (DRange_Init 0 0) (DRange_Init 0 0) 0%Q 0%Q.

Definition Init (self : t) : t := SetZero self.

Definition Init_num_tuples (num_tuples : double) (_ : t) : t :=
  mk (DRange_Init 0 0) (DRange_Init 0 0) num_tuples 0%Q.

(** [ApplyPostponed(other_postponed)], with [double_add] for the sum of two
    doubles. *)
Definition ApplyPostponed (double_add : double -> double -> double)
    (other_postponed : t) (self : t) : t :=
  mk (DRange_plus_with double_add (negative_potential_ self)
        (negative_potential_ other_postponed))
     (DRange_plus_with double_add (positive_potential_ self)
        (positive_potential_ other_postponed))
     (double_add (pruned_ self) (pruned_ other_postponed))
     (double_add (used_error_ self) (used_error_ other_postponed)).

End NbodySimulatorPostponed.

Module NbodySimulatorDelta.

Record t : Type := mk {
  negative_potential_ : list DRange;
  positive_potential_ : list DRange;
  pruned_ : list double;
  used_error_ : list double
}.

(** [SetZero] runs over the indices of [negative_potential_]. *)
Fixpoint SetZero_loop (n : nat) (i : Z) (d : t) : outcome t :=
  match n with
  | O => Ret d
  | S n' =>
      np <- write (negative_potential_ d) i (DRange_Init 0 0) ;;
      pp <- write (positive_potential_ d) i (DRange_Init 0 0) ;;
      pr <- write (pruned_ d) i 0%Q ;;
      ue <- write (used_error_ d) i 0%Q ;;
      SetZero_loop n' (i + 1) (mk np pp pr ue)
  end.

Definition SetZero (d : t) : outcome t :=
  SetZero_loop (length (negative_potential_ d)) 0 d.

(** The constructor: four vectors of size 3, all zero. *)
Definition new : t :=
  mk (repeat (DRange_Init 0 0) 3) (repeat (DRange_Init 0 0) 3)
     (repeat 0%Q 3) (repeat 0%Q 3).

(** [DeterministicCompute]: the body is empty. *)
Definition DeterministicCompute {Metric GlobalType TripleRangeDistanceSq : Type}
    (metric : Metric) (global : GlobalType)
    (triple_range_distance_sq : TripleRangeDistanceSq) (self : t) : t :=
  self.

End NbodySimulatorDelta.

(** [NbodySimulatorPostponed::ApplyDelta], which reads a Delta. *)
Definition Postponed_ApplyDelta {ResultType : Type} (delta_in : NbodySimulatorDelta.t)
    (node_index : Z) (query_results : ResultType) (self : NbodySimulatorPostponed.t)
  : outcome NbodySimulatorPostponed.t :=
  dn <- read (NbodySimulatorDelta.negative_potential_ delta_in) node_index ;;
  dp <- read (NbodySimulatorDelta.positive_potential_ delta_in) node_index ;;
  dpr <- read (NbodySimulatorDelta.pruned_ delta_in) node_index ;;
  due <- read (NbodySimulatorDelta.used_error_ delta_in) node_index ;;
  Ret (NbodySimulatorPostponed.mk
         (DRange_plus (NbodySimulatorPostponed.negative_potential_ self) dn)
         (DRange_plus (NbodySimulatorPostponed.positive_potential_ self) dp)
         (NbodySimulatorPostponed.pruned_ self + dpr)%Q
         (NbodySimulatorPostponed.used_error_ self + due)%Q).

Module NbodySimulatorResult.

Record t : Type := mk {
  negative_potential_ : list DRange;
  positive_potential_ : list DRange;
  potential_e_ : list double;
  pruned_ : list double;
  used_error_ : list double
}.

(** [PostProcess].  [range_mid] is [Range::mid()], which is not under src/,
    and [double_add] the sum of two doubles; both round. *)
Definition PostProcess {Metric GlobalType : Type} (range_mid : DRange -> double)
    (double_add : double -> double -> double) (metric : Metric) (q_index : Z)
    (global : GlobalType) (self : t) : outcome t :=
  n <- read (negative_potential_ self) q_index ;;
  p <- read (positive_potential_ self) q_index ;;
  pe <- write (potential_e_ self) q_index (double_add (range_mid n) (range_mid p)) ;;
  Ret (mk (negative_potential_ self) (positive_potential_ self) pe
          (pruned_ self) (used_error_ self)).

(** [Init(num_points)]: the five vectors are resized and zeroed. *)
Definition Init (num_points : Z) (_ : t) : t :=
  let n := Z.to_nat num_points in
  mk (repeat (DRange_Init 0 0) n) (repeat (DRange_Init 0 0) n)
     (repeat 0%Q n) (repeat 0%Q n) (repeat 0%Q n).

(** [ApplyPostponed(q_index, postponed_in)].  [double_add] is the sum of two
    doubles, which rounds; [+=] on a range adds end by end. *)
Definition ApplyPostponed (double_add : double -> double -> double) (q_index : Z)
    (postponed_in : NbodySimulatorPostponed.t) (self : t) : outcome t :=
  n <- read (negative_potential_ self) q_index ;;
  np <- write (negative_potential_ self) q_index
          (DRange_plus_with double_add n
             (NbodySimulatorPostponed.negative_potential_ postponed_in)) ;;
  p <- read (positive_potential_ self) q_index ;;
  pp <- write (positive_potential_ self) q_index
          (DRange_plus_with double_add p
             (NbodySimulatorPostponed.positive_potential_ postponed_in)) ;;
  pr <- read (pruned_ self) q_index ;;
  prs <- write (pruned_ self) q_index
           (double_add pr (NbodySimulatorPostponed.pruned_ postponed_in)) ;;
  ue <- read (used_error_ self) q_index ;;
  ues <- write (used_error_ self) q_index
           (double_add ue (NbodySimulatorPostponed.used_error_ postponed_in)) ;;
  Ret (mk np pp (potential_e_ self) prs ues).

End NbodySimulatorResult.

Module NbodySimulatorGlobal.

(** [core::table::Table], [core::gnp::TripleDistanceSq] and [AxilrodTeller]
    are not under src/: the table and the distances are type parameters and
    the potential is its method [EvalUnnormOnSq]. *)
Record t (Table TripleDistanceSq : Type) : Type := mk {
  relative_error_ : double;
  probability_ : double;
  table_ : Table;
  potential_ : TripleDistanceSq -> double
}.

Arguments relative_error_ {Table TripleDistanceSq} _.
Arguments probability_ {Table TripleDistanceSq} _.
Arguments table_ {Table TripleDistanceSq} _.
Arguments potential_ {Table TripleDistanceSq} _ _.

Definition ApplyContribution {Table TripleDistanceSq : Type}
    (self : t Table TripleDistanceSq) (range_in : TripleDistanceSq)
    (postponeds : list NbodySimulatorPostponed.t) : list NbodySimulatorPostponed.t :=
  let potential_value := potential_ self range_in in
  map (fun _ =>
         if Qlt_b potential_value 0 then
           NbodySimulatorPostponed.mk (DRange_Init potential_value potential_value)
             (DRange_Init 0 0) 0%Q 0%Q
         else
           NbodySimulatorPostponed.mk (DRange_Init 0 0)
             (DRange_Init potential_value potential_value) 0%Q 0%Q)
      postponeds.

End NbodySimulatorGlobal.

Module NbodySimulatorSummary.

Record t : Type := mk {
  negative_potential_ : DRange;
  positive_potential_ : DRange;
  pruned_ : double;
  used_error_ : double
}.

(** [CanSummarize]: the body is [return false;]. *)
Definition CanSummarize {GlobalType DeltaType TreeType ResultType : Type}
    (self : t) (global : GlobalType) (delta : DeltaType) (qnode rnode : TreeType)
    (query_results : ResultType) : bool :=
  false.

Definition SetZero (_ : t) : t :=
  mk (DRange_Init 0 0) (DRange_Init 0 0) 0%Q 0%Q.

Definition Init (self : t) : t := SetZero self.

Definition StartReaccumulate (_ : t) : t :=
  mk (DRange_Init DBL_MAX (- DBL_MAX)%Q) (DRange_Init DBL_MAX (- DBL_MAX)%Q) DBL_MAX 0%Q.

(** [std::min] and [std::max]. *)
Definition std_min (a b : double) : double := if Qlt_b b a then b else a.
Definition std_max (a b : double) : double := if Qlt_b a b then b else a.

(** [Accumulate(results, q_index)]. *)
Definition Accumulate_result (results : NbodySimulatorResult.t) (q_index : Z) (self : t)
  : outcome t :=
  n <- read (NbodySimulatorResult.negative_potential_ results) q_index ;;
  p <- read (NbodySimulatorResult.positive_potential_ results) q_index ;;
  pr <- read (NbodySimulatorResult.pruned_ results) q_index ;;
  ue <- read (NbodySimulatorResult.used_error_ results) q_index ;;
  Ret (mk (DRange_union (negative_potential_ self) n)
          (DRange_union (positive_potential_ self) p)
          (std_min (pruned_ self) pr)
          (std_max (used_error_ self) ue)).

(** [Accumulate(summary_in)]. *)
Definition Accumulate_summary (summary_in : t) (self : t) : t :=
  mk (DRange_union (negative_potential_ self) (negative_potential_ summary_in))
     (DRange_union (positive_potential_ self) (positive_potential_ summary_in))
     (std_min (pruned_ self) (pruned_ summary_in))
     (std_max (used_error_ self) (used_error_ summary_in)).

(** [Accumulate(summary_in, postponed_in)]: the negative range is joined
    with [|=], the positive range is assigned with [=]. *)
Definition Accumulate (summary_in : t) (postponed_in : NbodySimulatorPostponed.t)
    (self : t) : t :=
  mk (DRange_union (negative_potential_ self)
        (DRange_plus (negative_potential_ summary_in)
           (NbodySimulatorPostponed.negative_potential_ postponed_in)))
     (DRange_plus (positive_potential_ summary_in)
        (NbodySimulatorPostponed.positive_potential_ postponed_in))
     (std_min (pruned_ self)
        (pruned_ summary_in + NbodySimulatorPostponed.pruned_ postponed_in)%Q)
     (std_max (used_error_ self)
        (used_error_ summary_in + NbodySimulatorPostponed.used_error_ postponed_in)%Q).

Definition ApplyDelta (delta_in : NbodySimulatorDelta.t) (node_index : Z) (self : t)
  : outcome t :=
  dn <- read (NbodySimulatorDelta.negative_potential_ delta_in) node_index ;;
  dp <- read (NbodySimulatorDelta.positive_potential_ delta_in) node_index ;;
  Ret (mk (DRange_plus (negative_potential_ self) dn)
          (DRange_plus (positive_potential_ self) dp)
          (pruned_ self) (used_error_ self)).

Definition ApplyPostponed (postponed_in : NbodySimulatorPostponed.t) (self : t) : t :=
  mk (DRange_plus (negative_potential_ self)
        (NbodySimulatorPostponed.negative_potential_ postponed_in))
     (DRange_plus (positive_potential_ self)
        (NbodySimulatorPostponed.positive_potential_ postponed_in))
     (pruned_ self + NbodySimulatorPostponed.pruned_ postponed_in)%Q
     (used_error_ self + NbodySimulatorPostponed.used_error_ postponed_in)%Q.

End NbodySimulatorSummary.

(** * Facts about the arrays *)

Lemma upd_length {A : Type} (l : list A) (n : nat) (x : A) :
  length (upd l n x) = length l.
Proof.
  revert n; induction l as [|a l IH]; intros [|n]; simpl; auto.
Qed.

Lemma nth_error_upd_same {A : Type} (l : list A) (n : nat) (x : A) :
  (n < length l)%nat -> nth_error (upd l n x) n = Some x.
Proof.
  revert n; induction l as [|a l IH]; intros [|n] Hn; simpl in *; try lia; auto.
  apply IH; lia.
Qed.

Lemma nth_error_upd_other {A : Type} (l : list A) (n m : nat) (x : A) :
  n <> m -> nth_error (upd l n x) m = nth_error l m.
Proof.
  revert n m; induction l as [|a l IH]; intros [|n] [|m] Hnm; simpl; auto;
    try lia.
Qed.

Lemma zth_Some_range {A : Type} (l : list A) (i : Z) (x : A) :
  zth l i = Some x -> 0 <= i < Z.of_nat (length l).
Proof.
  unfold zth. destruct (Z.ltb_spec i 0); [discriminate|].
  intros E. assert (Hn : nth_error l (Z.to_nat i) <> None) by congruence.
  apply nth_error_Some in Hn. lia.
Qed.

Lemma zth_in_range {A : Type} (l : list A) (i : Z) :
  0 <= i < Z.of_nat (length l) -> exists x, zth l i = Some x.
Proof.
  intros Hi. unfold zth. destruct (Z.ltb_spec i 0); [lia|].
  destruct (nth_error l (Z.to_nat i)) eqn:E; [eauto|].
  apply nth_error_None in E. lia.
Qed.

Lemma zth_None {A : Type} (l : list A) (i : Z) :
  i < 0 \/ Z.of_nat (length l) <= i -> zth l i = None.
Proof.
  intros Hi. unfold zth. destruct (Z.ltb_spec i 0); [reflexivity|].
  apply nth_error_None. lia.
Qed.

Lemma zupd_length {A : Type} (l : list A) (i : Z) (x : A) :
  length (zupd l i x) = length l.
Proof.
  unfold zupd. destruct (i <? 0); [reflexivity | apply upd_length].
Qed.

Lemma zth_zupd_same {A : Type} (l : list A) (i : Z) (x : A) :
  0 <= i < Z.of_nat (length l) -> zth (zupd l i x) i = Some x.
Proof.
  intros Hi. unfold zth, zupd. destruct (Z.ltb_spec i 0); [lia|].
  apply nth_error_upd_same. lia.
Qed.

Lemma zth_zupd_other {A : Type} (l : list A) (i j : Z) (x : A) :
  i <> j -> zth (zupd l i x) j = zth l j.
Proof.
  intros Hij. unfold zth, zupd.
  destruct (Z.ltb_spec j 0); [reflexivity|].
  destruct (Z.ltb_spec i 0); [reflexivity|].
  apply nth_error_upd_other. lia.
Qed.

Lemma read_Ret {A : Type} (l : list A) (i : Z) (x : A) :
  read l i = Ret x <-> zth l i = Some x.
Proof.
  unfold read. destruct (zth l i); split; intros E; inversion E; reflexivity.
Qed.

Lemma read_in_range {A : Type} (l : list A) (i : Z) :
  0 <= i < Z.of_nat (length l) -> exists x, read l i = Ret x /\ zth l i = Some x.
Proof.
  intros Hi. destruct (zth_in_range l i Hi) as [x Hx].
  exists x. split; [apply read_Ret|]; assumption.
Qed.

(** * The n-body classes: what the code does *)

(** What C2 asks of a Delta: at every index the sum of its negative and
    positive ranges contains the contribution [potential_ global t] of the
    point triple with squared distances [t]. *)
Definition bounds_contribution {Table TripleDistanceSq : Type}
    (global : NbodySimulatorGlobal.t Table TripleDistanceSq) (t : TripleDistanceSq)
    (delta : NbodySimulatorDelta.t) : Prop :=
  forall (i : Z) (n p : DRange),
    read (NbodySimulatorDelta.negative_potential_ delta) i = Ret n ->
    read (NbodySimulatorDelta.positive_potential_ delta) i = Ret p ->
    in_range (DRange_plus n p) (NbodySimulatorGlobal.potential_ global t).

(** C1 (as stated, refuted): no summary, global context, delta, pair of
    nodes and result state makes [CanSummarize] return true. *)
Lemma CanSummarize_true_for_no_input :
  ~ exists (GlobalType DeltaType TreeType ResultType : Type)
      (self : NbodySimulatorSummary.t) (global : GlobalType) (delta : DeltaType)
      (qnode rnode : TreeType) (query_results : ResultType),
      NbodySimulatorSummary.CanSummarize self global delta qnode rnode query_results = true.
Proof.
  intros (G & D & T & R & self & g & d & q & r & res & E).
  unfold NbodySimulatorSummary.CanSummarize in E. discriminate E.
Qed.

(** C1 (amended): [NbodySimulatorSummary::CanSummarize] returns false for
    every summary, global context, delta, pair of tree nodes and query-result
    state, so on its account the traversal never prunes. *)
Theorem CanSummarize_always_false :
  forall (GlobalType DeltaType TreeType ResultType : Type)
    (self : NbodySimulatorSummary.t) (global : GlobalType) (delta : DeltaType)
    (qnode rnode : TreeType) (query_results : ResultType),
    NbodySimulatorSummary.CanSummarize self global delta qnode rnode query_results = false.
Proof.
  intros. reflexivity.
Qed.

(** C2 (as stated, refuted): with a potential of value 1, the Delta that
    [DeterministicCompute] leaves behind on a newly constructed Delta does not
    contain the contribution of the point triple. *)
Lemma DeterministicCompute_misses_unit_potential :
  let global := NbodySimulatorGlobal.mk unit unit 0%Q 0%Q tt (fun _ => 1%Q) in
  ~ bounds_contribution global tt
      (NbodySimulatorDelta.DeterministicCompute tt global tt NbodySimulatorDelta.new).
Proof.
  intros global Hb.
  destruct (Hb 0 (DRange_Init 0 0) (DRange_Init 0 0) eq_refl eq_refl) as [_ Hhi].
  vm_compute in Hhi. apply Hhi. reflexivity.
Qed.

(** C2 (amended): [NbodySimulatorDelta::DeterministicCompute] leaves the
    Delta as it was, whatever the metric, the global context and the node
    bounds; on a newly constructed Delta every negative and positive range is
    still [0, 0], which contains the contribution of a point triple exactly
    when that contribution is zero. *)
Theorem DeterministicCompute_leaves_delta :
  forall (Metric Table TripleDistanceSq TripleRangeDistanceSq : Type) (metric : Metric)
    (global : NbodySimulatorGlobal.t Table TripleDistanceSq)
    (triple_range_distance_sq : TripleRangeDistanceSq),
    (forall delta : NbodySimulatorDelta.t,
        NbodySimulatorDelta.DeterministicCompute metric global
          triple_range_distance_sq delta = delta) /\
    (forall t : TripleDistanceSq,
        bounds_contribution global t
          (NbodySimulatorDelta.DeterministicCompute metric global
             triple_range_distance_sq NbodySimulatorDelta.new)
        <-> (NbodySimulatorGlobal.potential_ global t == 0)%Q).
Proof.
  intros Metric Table TDS TRD metric global trd. split; [reflexivity|].
  intros t. unfold NbodySimulatorDelta.DeterministicCompute. split.
  - intros Hb.
    destruct (Hb 0 (DRange_Init 0 0) (DRange_Init 0 0) eq_refl eq_refl) as [Hlo Hhi].
    simpl in Hlo, Hhi. lra.
  - intros Hz i n p Hn Hp.
    assert (Hrange : forall r, read (repeat (DRange_Init 0 0) 3) i = Ret r ->
                               r = DRange_Init 0 0).
    { intros r Hr. apply read_Ret in Hr. pose proof (zth_Some_range _ _ _ Hr) as Hi.
      simpl in Hi. unfold zth in Hr. destruct (Z.ltb_spec i 0); [lia|].
      assert (Hc : (Z.to_nat i = 0 \/ Z.to_nat i = 1 \/ Z.to_nat i = 2)%nat) by lia.
      destruct Hc as [E | [E | E]]; rewrite E in Hr; simpl in Hr; congruence. }
    simpl in Hn, Hp. apply Hrange in Hn, Hp. subst n p.
    unfold in_range. simpl. lra.
Qed.

(** What [Accumulate(summary_in, postponed_in)] writes, field by field: the
    negative range is the union of its prior value with the sum, the positive
    range is the sum alone. *)
Lemma Accumulate_ranges :
  forall (self summary_in : NbodySimulatorSummary.t)
    (postponed_in : NbodySimulatorPostponed.t),
    NbodySimulatorSummary.negative_potential_
      (NbodySimulatorSummary.Accumulate summary_in postponed_in self)
    = DRange_union (NbodySimulatorSummary.negative_potential_ self)
        (DRange_plus (NbodySimulatorSummary.negative_potential_ summary_in)
           (NbodySimulatorPostponed.negative_potential_ postponed_in)) /\
    NbodySimulatorSummary.positive_potential_
      (NbodySimulatorSummary.Accumulate summary_in postponed_in self)
    = DRange_plus (NbodySimulatorSummary.positive_potential_ summary_in)
        (NbodySimulatorPostponed.positive_potential_ postponed_in).
Proof.
  intros. split; reflexivity.
Qed.

(** Two children with potentials in [-2,-1], [1,2] and in [-6,-5], [5,6],
    and a zero Postponed. *)
Definition child_a : NbodySimulatorSummary.t :=
  NbodySimulatorSummary.mk (DRange_Init (-2) (-1)) (DRange_Init 1 2) 0%Q 0%Q.
Definition child_b : NbodySimulatorSummary.t :=
  NbodySimulatorSummary.mk (DRange_Init (-6) (-5)) (DRange_Init 5 6) 0%Q 0%Q.
Definition no_postponed : NbodySimulatorPostponed.t :=
  NbodySimulatorPostponed.mk (DRange_Init 0 0) (DRange_Init 0 0) 0%Q 0%Q.

(** The parent's Summary after [StartReaccumulate] and the first child. *)
Definition after_child_a : NbodySimulatorSummary.t :=
  NbodySimulatorSummary.Accumulate child_a no_postponed
    (NbodySimulatorSummary.StartReaccumulate child_a).

Definition Qpair (r : DRange) : (Z * positive) * (Z * positive) :=
  ((Qnum (lo r), Qden (lo r)), (Qnum (hi r), Qden (hi r))).

(** C6 (the code at the failing input): re-accumulating the second child
    onto a parent that holds [-2,-1] and [1,2] from the first one gives the
    negative range [-6,-1], the union, but the positive range [5,6], the
    second child's alone; the union would be [1,6]. *)
Theorem Accumulate_overwrites_positive :
  Qpair (NbodySimulatorSummary.negative_potential_ after_child_a) = ((-2, 1%positive), (-1, 1%positive)) /\
  Qpair (NbodySimulatorSummary.positive_potential_ after_child_a) = ((1, 1%positive), (2, 1%positive)) /\
  Qpair (NbodySimulatorSummary.negative_potential_
           (NbodySimulatorSummary.Accumulate child_b no_postponed after_child_a))
  = ((-6, 1%positive), (-1, 1%positive)) /\
  Qpair (NbodySimulatorSummary.positive_potential_
           (NbodySimulatorSummary.Accumulate child_b no_postponed after_child_a))
  = ((5, 1%positive), (6, 1%positive)) /\
  Qpair (DRange_union (NbodySimulatorSummary.positive_potential_ after_child_a)
           (DRange_plus (NbodySimulatorSummary.positive_potential_ child_b)
              (NbodySimulatorPostponed.positive_potential_ no_postponed)))
  = ((1, 1%positive), (6, 1%positive)).
Proof.
  repeat split; vm_compute; reflexivity.
Qed.

(** C10: for a query index inside the three vectors it touches,
    [PostProcess] returns, writes at [potential_e_[q_index]] the sum, as a
    double, of the midpoints, as doubles, of the negative and of the positive
    range of the query point, and changes nothing else; whatever values the
    machine gives to a midpoint and to a sum. *)
Theorem PostProcess_sets_midpoints :
  forall (Metric GlobalType : Type) (range_mid : DRange -> double)
    (double_add : double -> double -> double) (metric : Metric) (global : GlobalType)
    (self : NbodySimulatorResult.t) (q_index : Z),
    0 <= q_index < Z.of_nat (length (NbodySimulatorResult.negative_potential_ self)) ->
    0 <= q_index < Z.of_nat (length (NbodySimulatorResult.positive_potential_ self)) ->
    0 <= q_index < Z.of_nat (length (NbodySimulatorResult.potential_e_ self)) ->
    exists (n p : DRange) (after : NbodySimulatorResult.t),
      NbodySimulatorResult.PostProcess range_mid double_add metric q_index global self
      = Ret after /\
      zth (NbodySimulatorResult.negative_potential_ self) q_index = Some n /\
      zth (NbodySimulatorResult.positive_potential_ self) q_index = Some p /\
      zth (NbodySimulatorResult.potential_e_ after) q_index
      = Some (double_add (range_mid n) (range_mid p)) /\
      (forall j, j <> q_index ->
         zth (NbodySimulatorResult.potential_e_ after) j
         = zth (NbodySimulatorResult.potential_e_ self) j) /\
      length (NbodySimulatorResult.potential_e_ after)
      = length (NbodySimulatorResult.potential_e_ self) /\
      NbodySimulatorResult.negative_potential_ after
      = NbodySimulatorResult.negative_potential_ self /\
      NbodySimulatorResult.positive_potential_ after
      = NbodySimulatorResult.positive_potential_ self /\
      NbodySimulatorResult.pruned_ after = NbodySimulatorResult.pruned_ self /\
      NbodySimulatorResult.used_error_ after = NbodySimulatorResult.used_error_ self.
Proof.
  intros Metric GlobalType range_mid double_add metric global self q Hn Hp He.
  destruct (read_in_range _ _ Hn) as (n & Rn & Zn).
  destruct (read_in_range _ _ Hp) as (p & Rp & Zp).
  destruct (read_in_range _ _ He) as (e & Re & Ze).
  exists n, p. eexists. unfold NbodySimulatorResult.PostProcess, write.
  rewrite Rn, Rp, Re. simpl. split; [reflexivity|]. simpl.
  repeat split; auto.
  - apply zth_zupd_same; assumption.
  - intros j Hj. apply zth_zupd_other. congruence.
  - apply zupd_length.
Qed.

(** A Result for two query points. *)
Definition two_results : NbodySimulatorResult.t :=
  NbodySimulatorResult.mk [DRange_Init (-4) (-2); DRange_Init (-1) 0]
    [DRange_Init 1 3; DRange_Init 0 6] [0%Q; 0%Q] [7%Q; 8%Q] [0%Q; 0%Q].

Lemma PostProcess_sets_midpoints_witness :
  exists (n p : DRange) (after : NbodySimulatorResult.t),
    NbodySimulatorResult.PostProcess mid64 add64 tt 1 tt two_results = Ret after /\
    zth (NbodySimulatorResult.negative_potential_ two_results) 1 = Some n /\
    zth (NbodySimulatorResult.positive_potential_ two_results) 1 = Some p /\
    zth (NbodySimulatorResult.potential_e_ after) 1 = Some (add64 (mid64 n) (mid64 p)) /\
    (forall j, j <> 1 ->
       zth (NbodySimulatorResult.potential_e_ after) j
       = zth (NbodySimulatorResult.potential_e_ two_results) j) /\
    length (NbodySimulatorResult.potential_e_ after)
    = length (NbodySimulatorResult.potential_e_ two_results) /\
    NbodySimulatorResult.negative_potential_ after
    = NbodySimulatorResult.negative_potential_ two_results /\
    NbodySimulatorResult.positive_potential_ after
    = NbodySimulatorResult.positive_potential_ two_results /\
    NbodySimulatorResult.pruned_ after = NbodySimulatorResult.pruned_ two_results /\
    NbodySimulatorResult.used_error_ after = NbodySimulatorResult.used_error_ two_results.
Proof.
  apply (PostProcess_sets_midpoints unit unit mid64 add64 tt tt two_results 1);
    simpl; lia.
Defined.
(** * The kd-tree builder: what the code does *)

Import KdTree.

(** ** Bounds *)

(** [v] lies within [b] in every dimension that both have. *)
Definition Bound_contains (b : Bound) (v : Vector) : Prop :=
  forall (d : nat) (r : DRange) (x : double),
    nth_error b d = Some r -> nth_error v d = Some x -> in_range r x.

(** [b'] is [b] after [|=] with finitely many points, each satisfying [S]. *)
Inductive accumulated (S : Vector -> Prop) : Bound -> Bound -> Prop :=
| acc_nil (b : Bound) : accumulated S b b
| acc_cons (b b' : Bound) (v : Vector) :
    S v -> accumulated S (Bound_add b v) b' -> accumulated S b b'.

(** Every end of every range of [b] is the sentinel of the empty range or
    is reached by a point satisfying [P]. *)
Definition generated (P : Vector -> Prop) (b : Bound) : Prop :=
  forall (d : nat) (r : DRange),
    nth_error b d = Some r ->
    (lo r = DBL_MAX \/ exists v x, P v /\ nth_error v d = Some x /\ (x <= lo r)%Q) /\
    (hi r = (- DBL_MAX)%Q \/ exists v x, P v /\ nth_error v d = Some x /\ (hi r <= x)%Q).

Lemma Qlt_b_true (a b : double) : Qlt_b a b = true <-> (a < b)%Q.
Proof.
  unfold Qlt_b. rewrite negb_true_iff. split.
  - intros E. apply Qnot_le_lt. intros Hle. apply Qle_bool_iff in Hle. congruence.
  - intros Hlt. destruct (Qle_bool b a) eqn:E; [|reflexivity].
    apply Qle_bool_iff in E. lra.
Qed.

Lemma Qlt_b_false (a b : double) : Qlt_b a b = false <-> (b <= a)%Q.
Proof.
  unfold Qlt_b. rewrite negb_false_iff. apply Qle_bool_iff.
Qed.

Lemma Qle_bool_false (a b : double) : Qle_bool a b = false <-> (b < a)%Q.
Proof.
  rewrite <- Qlt_b_true. unfold Qlt_b. rewrite negb_true_iff. reflexivity.
Qed.

Lemma DRange_add_in (r : DRange) (x : double) : in_range (DRange_add r x) x.
Proof.
  unfold in_range, DRange_add; simpl. split.
  - destruct (Qlt_b x (lo r)) eqn:E; [lra|]. apply Qlt_b_false in E. exact E.
  - destruct (Qlt_b (hi r) x) eqn:E; [lra|]. apply Qlt_b_false in E. exact E.
Qed.

Lemma DRange_add_mono (r : DRange) (x y : double) :
  in_range r y -> in_range (DRange_add r x) y.
Proof.
  unfold in_range, DRange_add; simpl. intros [Hl Hh]. split.
  - destruct (Qlt_b x (lo r)) eqn:E; [|exact Hl]. apply Qlt_b_true in E. lra.
  - destruct (Qlt_b (hi r) x) eqn:E; [|exact Hh]. apply Qlt_b_true in E. lra.
Qed.

Lemma Bound_add_length (b : Bound) (v : Vector) : length (Bound_add b v) = length b.
Proof.
  revert v; induction b as [|r b IH]; intros [|x v]; simpl; auto.
Qed.

Lemma Bound_add_nth (b : Bound) (v : Vector) (d : nat) (r : DRange) :
  nth_error (Bound_add b v) d = Some r ->
  exists r0, nth_error b d = Some r0 /\
    (r = r0 /\ nth_error v d = None \/ exists x, nth_error v d = Some x /\ r = DRange_add r0 x).
Proof.
  revert v d; induction b as [|r0 b IH]; intros [|x v] d E; simpl in E.
  - destruct d; discriminate.
  - destruct d; discriminate.
  - exists r. split; [exact E|]. left. split; [reflexivity|]. destruct d; reflexivity.
  - destruct d as [|d]; simpl in *.
    + inversion E; subst. exists r0. split; [reflexivity|]. right. eauto.
    + apply IH in E. exact E.
Qed.

Lemma Bound_add_contains (b : Bound) (v : Vector) : Bound_contains (Bound_add b v) v.
Proof.
  intros d r x Hr Hx. apply Bound_add_nth in Hr.
  destruct Hr as (r0 & _ & [[_ Hn] | (y & Hy & ->)]); [congruence|].
  assert (y = x) by congruence. subst y. apply DRange_add_in.
Qed.

Lemma Bound_add_mono (b : Bound) (v u : Vector) :
  Bound_contains b u -> Bound_contains (Bound_add b v) u.
Proof.
  intros Hc d r x Hr Hx. apply Bound_add_nth in Hr.
  destruct Hr as (r0 & Hr0 & [[-> _] | (y & Hy & ->)]).
  - eapply Hc; eauto.
  - apply DRange_add_mono. eapply Hc; eauto.
Qed.

Lemma accumulated_length (S : Vector -> Prop) (b b' : Bound) :
  accumulated S b b' -> length b' = length b.
Proof.
  induction 1 as [|b b' v _ _ IH]; [reflexivity|].
  rewrite IH. apply Bound_add_length.
Qed.

Lemma accumulated_mono (S : Vector -> Prop) (b b' : Bound) (u : Vector) :
  accumulated S b b' -> Bound_contains b u -> Bound_contains b' u.
Proof.
  induction 1 as [|b b' v _ _ IH]; intros Hc; [exact Hc|].
  apply IH. apply Bound_add_mono. exact Hc.
Qed.

Lemma accumulated_weaken (S T : Vector -> Prop) (b b' : Bound) :
  (forall v, S v -> T v) -> accumulated S b b' -> accumulated T b b'.
Proof.
  intros HST. induction 1 as [|b b' v Hv _ IH]; [constructor|].
  econstructor; [apply HST; exact Hv | exact IH].
Qed.

Lemma accumulated_trans (S : Vector -> Prop) (b1 b2 b3 : Bound) :
  accumulated S b1 b2 -> accumulated S b2 b3 -> accumulated S b1 b3.
Proof.
  induction 1 as [|b b' v Hv _ IH]; intros H23; [exact H23|].
  econstructor; [exact Hv | apply IH; exact H23].
Qed.

Lemma accumulated_one (S : Vector -> Prop) (b : Bound) (v : Vector) :
  S v -> accumulated S b (Bound_add b v).
Proof.
  intros Hv. econstructor; [exact Hv | constructor].
Qed.

Lemma generated_add (P : Vector -> Prop) (b : Bound) (v : Vector) :
  P v -> generated P b -> generated P (Bound_add b v).
Proof.
  intros Hv Hg d r Hr. apply Bound_add_nth in Hr.
  destruct Hr as (r0 & Hr0 & [[-> _] | (x & Hx & ->)]); [apply Hg; exact Hr0|].
  destruct (Hg d r0 Hr0) as [Hlo Hhi]. unfold DRange_add; simpl. split.
  - destruct (Qlt_b x (lo r0)); [|exact Hlo].
    right. exists v, x. repeat split; auto. lra.
  - destruct (Qlt_b (hi r0) x); [|exact Hhi].
    right. exists v, x. repeat split; auto. lra.
Qed.

Lemma generated_accumulated (P : Vector -> Prop) (b b' : Bound) :
  accumulated P b b' -> generated P b -> generated P b'.
Proof.
  induction 1 as [|b b' v Hv _ IH]; intros Hg; [exact Hg|].
  apply IH. apply generated_add; assumption.
Qed.

Lemma generated_weaken (P Q : Vector -> Prop) (b : Bound) :
  (forall v, P v -> Q v) -> generated P b -> generated Q b.
Proof.
  intros HPQ Hg d r Hr. destruct (Hg d r Hr) as [Hlo Hhi]. split.
  - destruct Hlo as [E | (v & x & Hv & Hx & Hle)]; [left; exact E|].
    right. exists v, x. auto.
  - destruct Hhi as [E | (v & x & Hv & Hx & Hle)]; [left; exact E|].
    right. exists v, x. auto.
Qed.

Lemma generated_Init (P : Vector -> Prop) (dim : Z) : generated P (Bound_Init dim).
Proof.
  intros d r Hr. unfold Bound_Init in Hr.
  apply nth_error_In, repeat_spec in Hr. subst r. split; left; reflexivity.
Qed.

Lemma Bound_Init_length (dim : Z) : 0 <= dim -> Z.of_nat (length (Bound_Init dim)) = dim.
Proof.
  intros Hd. unfold Bound_Init. rewrite repeat_length. lia.
Qed.

(** ** Exchanging two elements *)

Lemma upd_later_Permutation {A : Type} (l : list A) (n : nat) (a b : A) :
  nth_error l n = Some b -> Permutation (a :: l) (b :: upd l n a).
Proof.
  revert n; induction l as [|c l IH]; intros [|n] E; simpl in *; try discriminate.
  - inversion E; subst. apply perm_swap.
  - eapply perm_trans; [apply perm_swap|].
    eapply perm_trans; [apply perm_skip, IH, E|]. apply perm_swap.
Qed.

Lemma upd_upd_Permutation {A : Type} (l : list A) (i j : nat) (a b : A) :
  (i < j)%nat -> nth_error l i = Some a -> nth_error l j = Some b ->
  Permutation l (upd (upd l i b) j a).
Proof.
  revert i j; induction l as [|c l IH]; intros [|i] [|j] Hij Ha Hb; simpl in *;
    try discriminate; try lia.
  - inversion Ha; subst. apply upd_later_Permutation. exact Hb.
  - apply perm_skip. apply IH; auto. lia.
Qed.

Lemma swap_Permutation {A : Type} (l l' : list A) (i j : Z) :
  i < j -> swap l i j = Ret l' -> Permutation l l'.
Proof.
  intros Hij. unfold swap, read.
  destruct (zth l i) as [a|] eqn:Ea; simpl; [|discriminate].
  destruct (zth l j) as [b|] eqn:Eb; simpl; [|discriminate].
  intros E. inversion E; subst l'. clear E.
  pose proof (zth_Some_range _ _ _ Ea) as Hi.
  pose proof (zth_Some_range _ _ _ Eb) as Hj.
  unfold zth in Ea, Eb. unfold zupd.
  destruct (Z.ltb_spec i 0); [lia|]. destruct (Z.ltb_spec j 0); [lia|].
  apply upd_upd_Permutation; auto. lia.
Qed.

Lemma combine_upd {A B : Type} (l : list A) (m : list B) (n : nat) (a : A) (b : B) :
  combine (upd l n a) (upd m n b) = upd (combine l m) n (a, b).
Proof.
  revert m n; induction l as [|x l IH]; intros [|y m] [|n]; simpl; auto.
  f_equal. apply IH.
Qed.

Lemma combine_zupd {A B : Type} (l : list A) (m : list B) (i : Z) (a : A) (b : B) :
  combine (zupd l i a) (zupd m i b) = zupd (combine l m) i (a, b).
Proof.
  unfold zupd. destruct (i <? 0); [reflexivity | apply combine_upd].
Qed.

Lemma zth_combine {A B : Type} (l : list A) (m : list B) (i : Z) (a : A) (b : B) :
  zth l i = Some a -> zth m i = Some b -> zth (combine l m) i = Some (a, b).
Proof.
  unfold zth. destruct (i <? 0); [discriminate|].
  generalize (Z.to_nat i) as n. clear i.
  intros n; revert m n; induction l as [|x l IH]; intros [|y m] [|n] Ha Hb;
    simpl in *; try discriminate.
  - congruence.
  - apply IH; assumption.
Qed.

Lemma swap_combine {A B : Type} (l l' : list A) (m m' : list B) (i j : Z) :
  swap l i j = Ret l' -> swap m i j = Ret m' ->
  swap (combine l m) i j = Ret (combine l' m').
Proof.
  unfold swap, read.
  destruct (zth l i) as [a|] eqn:Ea; simpl; [|discriminate].
  destruct (zth l j) as [b|] eqn:Eb; simpl; [|discriminate].
  destruct (zth m i) as [a'|] eqn:Ea'; simpl; [|discriminate].
  destruct (zth m j) as [b'|] eqn:Eb'; simpl; [|discriminate].
  intros E E'. inversion E; inversion E'; subst.
  rewrite (zth_combine _ _ _ _ _ Ea Ea'), (zth_combine _ _ _ _ _ Eb Eb'). simpl.
  rewrite !combine_zupd. reflexivity.
Qed.

Lemma swap_spec {A : Type} (l : list A) (i j : Z) (a b : A) :
  zth l i = Some a -> zth l j = Some b -> i <> j ->
  exists l', swap l i j = Ret l' /\ length l' = length l /\
    zth l' i = Some b /\ zth l' j = Some a /\
    (forall k, k <> i -> k <> j -> zth l' k = zth l k).
Proof.
  intros Ea Eb Hij. unfold swap, read. rewrite Ea, Eb. simpl.
  pose proof (zth_Some_range _ _ _ Ea) as Hi.
  pose proof (zth_Some_range _ _ _ Eb) as Hj.
  eexists. split; [reflexivity|]. repeat split.
  - rewrite !zupd_length. reflexivity.
  - rewrite zth_zupd_other by congruence. apply zth_zupd_same. exact Hi.
  - apply zth_zupd_same. rewrite zupd_length. exact Hj.
  - intros k Hki Hkj. rewrite !zth_zupd_other by congruence. reflexivity.
Qed.

(** ** The two inner scans *)

(** Coordinate [split_dim] of the point at index [k]. *)
Definition coord (points : list Vector) (split_dim k : Z) : option double :=
  match zth points k with
  | Some v => zth v split_dim
  | None => None
  end.

Definition below (points : list Vector) (split_dim : Z) (splitvalue : double) (k : Z) : Prop :=
  exists x, coord points split_dim k = Some x /\ (x < splitvalue)%Q.

Definition at_or_above (points : list Vector) (split_dim : Z) (splitvalue : double) (k : Z)
  : Prop :=
  exists x, coord points split_dim k = Some x /\ (splitvalue <= x)%Q.

(** Every point has a coordinate [split_dim]. *)
Definition has_dim (split_dim : Z) (v : Vector) : Prop :=
  0 <= split_dim < Z.of_nat (length v).

Lemma zth_In {A : Type} (l : list A) (i : Z) (x : A) : zth l i = Some x -> In x l.
Proof.
  unfold zth. destruct (i <? 0); [discriminate|]. apply nth_error_In.
Qed.

Lemma In_zth {A : Type} (l : list A) (x : A) : In x l -> exists i, zth l i = Some x.
Proof.
  intros Hin. apply In_nth_error in Hin. destruct Hin as [n Hn].
  exists (Z.of_nat n). unfold zth. destruct (Z.ltb_spec (Z.of_nat n) 0); [lia|].
  rewrite Nat2Z.id. exact Hn.
Qed.

Lemma coord_defined (points : list Vector) (split_dim k : Z) (v : Vector) :
  Forall (has_dim split_dim) points -> zth points k = Some v ->
  exists x, Vector_get v split_dim = Ret x /\ coord points split_dim k = Some x.
Proof.
  intros Hall Hv. pose proof (zth_In _ _ _ Hv) as Hin.
  rewrite Forall_forall in Hall. specialize (Hall v Hin).
  destruct (read_in_range v split_dim Hall) as (x & Rx & Zx).
  exists x. split; [exact Rx|]. unfold coord. rewrite Hv. exact Zx.
Qed.

Lemma below_not_above (points : list Vector) (split_dim : Z) (splitvalue : double) (k : Z) :
  below points split_dim splitvalue k -> at_or_above points split_dim splitvalue k -> False.
Proof.
  intros (x & Hx & Hlt) (y & Hy & Hle). rewrite Hx in Hy. inversion Hy; subst. lra.
Qed.

Section Scans.

Context {PointInfo : Type}.
Variables (split_dim : Z) (splitvalue : double).
Variables (points : list Vector) (infos : list PointInfo).
Hypothesis points_dim : Forall (has_dim split_dim) points.

Let N : Z := Z.of_nat (length points).

Lemma left_scan_spec (fuel : nat) :
  forall (left right : Z) (lb rb : Bound),
    0 <= left <= right + 1 -> right < N ->
    (right + 1 < N \/ exists k, left <= k <= right /\ at_or_above points split_dim splitvalue k) ->
    (Z.to_nat (right + 2 - left) <= fuel)%nat ->
    exists (left' : Z) (lb' : Bound),
      left_scan fuel split_dim splitvalue (mkScan points infos left right lb rb)
      = Ret (mkScan points infos left' right lb' rb) /\
      left <= left' <= right + 1 /\
      (forall k, left <= k < left' -> below points split_dim splitvalue k) /\
      (left' <= right -> at_or_above points split_dim splitvalue left') /\
      accumulated (fun v => exists k, left <= k < left' /\ zth points k = Some v) lb lb' /\
      (forall k v, left <= k < left' -> zth points k = Some v -> Bound_contains lb' v).
Proof.
  induction fuel as [|fuel IH]; intros left right lb rb Hl Hr Hsafe Hfuel; [lia|].
  assert (Hin : 0 <= left < N).
  { destruct Hsafe as [Hs | (k & Hk & _)]; lia. }
  destruct (read_in_range points left Hin) as (v & Rv & Zv).
  destruct (coord_defined _ _ _ _ points_dim Zv) as (x & Rx & Cx).
  simpl. rewrite Rv. simpl. rewrite Rx. simpl.
  destruct (Qle_bool splitvalue x) eqn:Ex; simpl.
  - exists left, lb. split; [reflexivity|].
    split; [lia|]. split; [intros; lia|]. split; [|split; [constructor | intros; lia]].
    intros _. exists x. split; [exact Cx|]. apply Qle_bool_iff. exact Ex.
  - apply Qle_bool_false in Ex.
    destruct (Z.gtb_spec left right) as [Hgt | Hle].
    + exists left, lb. split; [reflexivity|].
      split; [lia|]. split; [intros; lia|]. split; [lia|]. split; [constructor | intros; lia].
    + assert (Hsafe' : right + 1 < N \/
                exists k, left + 1 <= k <= right /\ at_or_above points split_dim splitvalue k).
      { destruct Hsafe as [Hs | (k & Hk & Hab)]; [left; exact Hs|]. right.
        exists k. split; [|exact Hab].
        assert (k <> left).
        { intros ->. destruct Hab as (y & Hy & Hyle). rewrite Cx in Hy. inversion Hy; subst. lra. }
        lia. }
      destruct (IH (left + 1) right (Bound_add lb v) rb ltac:(lia) ltac:(lia) Hsafe' ltac:(lia))
        as (l' & lb' & E & Hl' & Hbel & Habove & Hacc & Hcov).
      exists l', lb'. split; [exact E|].
      split; [lia|]. split; [|split; [|split]].
      * intros k Hk. destruct (Z.eq_dec k left) as [-> | Hne].
        -- exists x. split; assumption.
        -- apply Hbel. lia.
      * exact Habove.
      * apply acc_cons with (v := v).
        -- exists left. split; [lia | exact Zv].
        -- eapply accumulated_weaken; [|exact Hacc].
           intros u (k & Hk & Hu). exists k. split; [lia | exact Hu].
      * intros k u Hk Hu. destruct (Z.eq_dec k left) as [-> | Hne].
        -- assert (u = v) by congruence. subst u.
           eapply accumulated_mono; [exact Hacc|]. apply Bound_add_contains.
        -- eapply Hcov; [|exact Hu]. lia.
Qed.

Lemma right_scan_spec (fuel : nat) :
  forall (left right : Z) (lb rb : Bound),
    0 <= left <= right + 1 -> right < N ->
    (0 < left \/ exists k, left <= k <= right /\ below points split_dim splitvalue k) ->
    (Z.to_nat (right + 2 - left) <= fuel)%nat ->
    exists (right' : Z) (rb' : Bound),
      right_scan fuel split_dim splitvalue (mkScan points infos left right lb rb)
      = Ret (mkScan points infos left right' lb rb') /\
      left - 1 <= right' <= right /\
      (forall k, right' < k <= right -> at_or_above points split_dim splitvalue k) /\
      (left <= right' -> below points split_dim splitvalue right') /\
      accumulated (fun v => exists k, right' < k <= right /\ zth points k = Some v) rb rb' /\
      (forall k v, right' < k <= right -> zth points k = Some v -> Bound_contains rb' v).
Proof.
  induction fuel as [|fuel IH]; intros left right lb rb Hl Hr Hsafe Hfuel; [lia|].
  assert (Hin : 0 <= right < N).
  { destruct Hsafe as [Hs | (k & Hk & _)]; lia. }
  destruct (read_in_range points right Hin) as (v & Rv & Zv).
  destruct (coord_defined _ _ _ _ points_dim Zv) as (x & Rx & Cx).
  simpl. rewrite Rv. simpl. rewrite Rx. simpl.
  destruct (Qlt_b x splitvalue) eqn:Ex; simpl.
  - exists right, rb. split; [reflexivity|].
    split; [lia|]. split; [intros; lia|]. split; [|split; [constructor | intros; lia]].
    intros _. exists x. split; [exact Cx|]. apply Qlt_b_true. exact Ex.
  - apply Qlt_b_false in Ex.
    destruct (Z.gtb_spec left right) as [Hgt | Hle].
    + exists right, rb. split; [reflexivity|].
      split; [lia|]. split; [intros; lia|]. split; [lia|]. split; [constructor | intros; lia].
    + assert (Hsafe' : 0 < left \/
                exists k, left <= k <= right - 1 /\ below points split_dim splitvalue k).
      { destruct Hsafe as [Hs | (k & Hk & Hbe)]; [left; exact Hs|]. right.
        exists k. split; [|exact Hbe].
        assert (k <> right).
        { intros ->. destruct Hbe as (y & Hy & Hylt). rewrite Cx in Hy. inversion Hy; subst. lra. }
        lia. }
      destruct (IH left (right - 1) lb (Bound_add rb v) ltac:(lia) ltac:(lia) Hsafe' ltac:(lia))
        as (r' & rb' & E & Hr' & Habove & Hbel & Hacc & Hcov).
      exists r', rb'. split; [exact E|].
      split; [lia|]. split; [|split; [|split]].
      * intros k Hk. destruct (Z.eq_dec k right) as [-> | Hne].
        -- exists x. split; assumption.
        -- apply Habove. lia.
      * exact Hbel.
      * apply acc_cons with (v := v).
        -- exists right. split; [lia | exact Zv].
        -- eapply accumulated_weaken; [|exact Hacc].
           intros u (k & Hk & Hu). exists k. split; [lia | exact Hu].
      * intros k u Hk Hu. destruct (Z.eq_dec k right) as [-> | Hne].
        -- assert (u = v) by congruence. subst u.
           eapply accumulated_mono; [exact Hacc|]. apply Bound_add_contains.
        -- eapply Hcov; [|exact Hu]. lia.
Qed.

End Scans.

(** ** Rearrangements inside an index range *)

(** [l'] holds the elements of [l]; outside the range they are where they
    were, inside the range they may have moved to other indices of it. *)
Definition shuffled {A : Type} (first count : Z) (l l' : list A) : Prop :=
  length l' = length l /\
  (forall k, ~ (first <= k < first + count) -> zth l' k = zth l k) /\
  (forall k, first <= k < first + count ->
     exists k', first <= k' < first + count /\ zth l' k = zth l k') /\
  (forall k, first <= k < first + count ->
     exists k', first <= k' < first + count /\ zth l k = zth l' k').

Lemma shuffled_refl {A : Type} (first count : Z) (l : list A) : shuffled first count l l.
Proof.
  split; [reflexivity|]. split; [reflexivity|]. split; intros k Hk; exists k; auto.
Qed.

Lemma shuffled_trans {A : Type} (first count : Z) (l1 l2 l3 : list A) :
  shuffled first count l1 l2 -> shuffled first count l2 l3 -> shuffled first count l1 l3.
Proof.
  intros (L12 & O12 & F12 & B12) (L23 & O23 & F23 & B23).
  split; [congruence|]. split; [|split].
  - intros k Hk. rewrite O23, O12; auto.
  - intros k Hk. destruct (F23 k Hk) as (k' & Hk' & E). destruct (F12 k' Hk') as (k'' & Hk'' & E').
    exists k''. split; [exact Hk'' | congruence].
  - intros k Hk. destruct (B12 k Hk) as (k' & Hk' & E). destruct (B23 k' Hk') as (k'' & Hk'' & E').
    exists k''. split; [exact Hk'' | congruence].
Qed.

Lemma shuffled_widen {A : Type} (first count first' count' : Z) (l l' : list A) :
  first' <= first -> first + count <= first' + count' ->
  shuffled first count l l' -> shuffled first' count' l l'.
Proof.
  intros H1 H2 (L & O & F & B). split; [exact L|]. split; [|split].
  - intros k Hk. apply O. lia.
  - intros k Hk. destruct (Z.lt_ge_cases k first) as [Hlt | Hge].
    { exists k. split; [exact Hk | apply O; lia]. }
    destruct (Z.lt_ge_cases k (first + count)) as [Hin | Hout].
    + destruct (F k ltac:(lia)) as (k' & Hk' & E). exists k'. split; [lia | exact E].
    + exists k. split; [exact Hk | apply O; lia].
  - intros k Hk. destruct (Z.lt_ge_cases k first) as [Hlt | Hge].
    { exists k. split; [exact Hk | symmetry; apply O; lia]. }
    destruct (Z.lt_ge_cases k (first + count)) as [Hin | Hout].
    + destruct (B k ltac:(lia)) as (k' & Hk' & E). exists k'. split; [lia | exact E].
    + exists k. split; [exact Hk | symmetry; apply O; lia].
Qed.

Lemma shuffled_swap {A : Type} (first count i j : Z) (l l' : list A) :
  first <= i < first + count -> first <= j < first + count -> i <> j ->
  swap l i j = Ret l' -> shuffled first count l l'.
Proof.
  intros Hi Hj Hij E. unfold swap, read in E.
  destruct (zth l i) as [a|] eqn:Ea; simpl in E; [|discriminate].
  destruct (zth l j) as [b|] eqn:Eb; simpl in E; [|discriminate].
  destruct (swap_spec l i j a b Ea Eb Hij) as (l'' & E' & L & Si & Sj & So).
  unfold swap, read in E'. rewrite Ea, Eb in E'. simpl in E'.
  assert (l'' = l') by congruence. subst l''. clear E E'.
  split; [exact L|]. split; [|split].
  - intros k Hk. apply So; lia.
  - intros k Hk. destruct (Z.eq_dec k i) as [-> | Hki].
    { exists j. split; [exact Hj | congruence]. }
    destruct (Z.eq_dec k j) as [-> | Hkj].
    { exists i. split; [exact Hi | congruence]. }
    exists k. split; [exact Hk | apply So; assumption].
  - intros k Hk. destruct (Z.eq_dec k i) as [-> | Hki].
    { exists j. split; [exact Hj | congruence]. }
    destruct (Z.eq_dec k j) as [-> | Hkj].
    { exists i. split; [exact Hi | congruence]. }
    exists k. split; [exact Hk | symmetry; apply So; assumption].
Qed.

Lemma coord_ext (points points' : list Vector) (split_dim k k' : Z) :
  zth points' k' = zth points k -> coord points' split_dim k' = coord points split_dim k.
Proof.
  intros E. unfold coord. rewrite E. reflexivity.
Qed.

Lemma below_ext (points points' : list Vector) (sd : Z) (sv : double) (k k' : Z) :
  zth points' k' = zth points k -> below points sd sv k -> below points' sd sv k'.
Proof.
  intros E (x & Hx & Hlt). exists x. split; [|exact Hlt].
  rewrite (coord_ext points points' sd k k' E). exact Hx.
Qed.

Lemma at_or_above_ext (points points' : list Vector) (sd : Z) (sv : double) (k k' : Z) :
  zth points' k' = zth points k -> at_or_above points sd sv k -> at_or_above points' sd sv k'.
Proof.
  intros E (x & Hx & Hle). exists x. split; [|exact Hle].
  rewrite (coord_ext points points' sd k k' E). exact Hx.
Qed.

Lemma below_point (points : list Vector) (sd : Z) (sv : double) (k : Z) (v : Vector) :
  zth points k = Some v -> below points sd sv k ->
  exists x, zth v sd = Some x /\ (x < sv)%Q.
Proof.
  intros Hv (x & Hx & Hlt). unfold coord in Hx. rewrite Hv in Hx. eauto.
Qed.

Lemma at_or_above_point (points : list Vector) (sd : Z) (sv : double) (k : Z) (v : Vector) :
  zth points k = Some v -> at_or_above points sd sv k ->
  exists x, zth v sd = Some x /\ (sv <= x)%Q.
Proof.
  intros Hv (x & Hx & Hle). unfold coord in Hx. rewrite Hv in Hx. eauto.
Qed.

(** ** The [for (;;)] loop of [Partition_] *)

Ltac scan_fields :=
  cbn [s_points s_infos s_left s_right s_left_bound s_right_bound] in *.

Section PartitionLoop.

Context {PointInfo : Type}.
Variables (split_dim : Z) (splitvalue : double) (first count : Z).
Variables (points0 : list Vector) (infos0 : list PointInfo) (lb0 rb0 : Bound).

Let N : Z := Z.of_nat (length points0).

Hypothesis points_dim : Forall (has_dim split_dim) points0.
Hypothesis infos_length : length infos0 = length points0.
Hypothesis range_ok : 0 <= first /\ 0 <= count /\ first + count <= N.

(** The scan never reads past the end of the array ... *)
Hypothesis safe_hi :
  first + count < N \/
  exists k, first <= k < first + count /\ at_or_above points0 split_dim splitvalue k.
(** ... nor before its beginning. *)
Hypothesis safe_lo :
  0 < first \/
  exists k, first <= k < first + count /\ below points0 split_dim splitvalue k.

(** The points of the range that go left, and those that go right. *)
Definition goes_left (v : Vector) : Prop :=
  (exists k, first <= k < first + count /\ zth points0 k = Some v) /\
  exists x, zth v split_dim = Some x /\ (x < splitvalue)%Q.

Definition goes_right (v : Vector) : Prop :=
  (exists k, first <= k < first + count /\ zth points0 k = Some v) /\
  exists x, zth v split_dim = Some x /\ (splitvalue <= x)%Q.

(** The invariant of the loop. ("everything < left is correct, everything
    > right is correct") *)
Record scan_inv (s : Scan PointInfo) : Prop := mk_scan_inv {
  inv_infos_length : length (s_infos s) = length (s_points s);
  inv_dim : Forall (has_dim split_dim) (s_points s);
  inv_shuffled : shuffled first count points0 (s_points s);
  inv_perm : Permutation (combine points0 infos0) (combine (s_points s) (s_infos s));
  inv_infos_outside :
    forall k, ~ (first <= k < first + count) -> zth (s_infos s) k = zth infos0 k;
  inv_cursors : first <= s_left s <= s_right s + 1 /\ s_right s + 1 <= first + count;
  inv_below : forall k, first <= k < s_left s -> below (s_points s) split_dim splitvalue k;
  inv_above :
    forall k, s_right s < k < first + count ->
              at_or_above (s_points s) split_dim splitvalue k;
  inv_left_acc : accumulated goes_left lb0 (s_left_bound s);
  inv_right_acc : accumulated goes_right rb0 (s_right_bound s);
  inv_left_cover :
    forall k v, first <= k < s_left s -> zth (s_points s) k = Some v ->
                Bound_contains (s_left_bound s) v;
  inv_right_cover :
    forall k v, s_right s < k < first + count -> zth (s_points s) k = Some v ->
                Bound_contains (s_right_bound s) v
}.

Lemma scan_inv_init :
  scan_inv (mkScan points0 infos0 first (first + count - 1) lb0 rb0).
Proof.
  constructor; simpl.
  - exact infos_length.
  - exact points_dim.
  - apply shuffled_refl.
  - apply Permutation_refl.
  - reflexivity.
  - lia.
  - intros; lia.
  - intros; lia.
  - constructor.
  - constructor.
  - intros; lia.
  - intros; lia.
Qed.

Lemma scan_inv_length (s : Scan PointInfo) :
  scan_inv s -> Z.of_nat (length (s_points s)) = N.
Proof.
  intros I. destruct (inv_shuffled s I) as (L & _). unfold N. lia.
Qed.

Lemma partition_loop_S (fuel : nat) (s : Scan PointInfo) :
  partition_loop (S fuel) split_dim splitvalue s =
  (s1 <- left_scan (S fuel) split_dim splitvalue s ;;
   s2 <- right_scan (S fuel) split_dim splitvalue s1 ;;
   if s_left s2 >? s_right s2 then Ret s2
   else s3 <- exchange s2 ;; partition_loop fuel split_dim splitvalue s3).
Proof.
  reflexivity.
Qed.

Lemma partition_loop_spec (fuel : nat) :
  forall s : Scan PointInfo,
    scan_inv s ->
    (Z.to_nat (s_right s + 2 - s_left s) <= fuel)%nat ->
    exists s', partition_loop fuel split_dim splitvalue s = Ret s' /\
               scan_inv s' /\ s_left s' = s_right s' + 1.
Proof.
  induction fuel as [|fuel IH]; intros s I Hfuel.
  { pose proof (inv_cursors s I). lia. }
  pose proof (scan_inv_length s I) as HN.
  rewrite partition_loop_S.
  destruct s as [pts infos left right lb rb].
  destruct I as [IL ID ISh IP IO IC IB IA ILA IRA ILC IRC]. scan_fields.
  destruct ISh as (SL & SO & SF & SB).
  (* the left scan *)
  assert (Hsafe1 : right + 1 < Z.of_nat (length pts) \/
            exists k, left <= k <= right /\ at_or_above pts split_dim splitvalue k).
  { destruct (Z.lt_ge_cases (right + 1) (first + count)) as [Hlt | Hge]; [left; lia|].
    destruct safe_hi as [Hs | (k0 & Hk0 & Hab)]; [left; lia|]. right.
    destruct (SB k0 Hk0) as (k & Hk & E). exists k.
    assert (Hab' : at_or_above pts split_dim splitvalue k)
      by (eapply at_or_above_ext; [symmetry; exact E | exact Hab]).
    split; [|exact Hab'].
    destruct (Z.lt_ge_cases k left) as [Hkl | Hkl]; [|lia].
    exfalso. eapply below_not_above; [apply IB|exact Hab']. lia. }
  destruct (left_scan_spec split_dim splitvalue pts infos ID (S fuel) left right lb rb
              ltac:(lia) ltac:(lia) Hsafe1 Hfuel)
    as (left' & lb' & E1 & Hl' & Hbel1 & Hab1 & Hacc1 & Hcov1).
  (* the right scan *)
  assert (IB' : forall k, first <= k < left' -> below pts split_dim splitvalue k).
  { intros k Hk. destruct (Z.lt_ge_cases k left); [apply IB | apply Hbel1]; lia. }
  assert (Hsafe2 : 0 < left' \/
            exists k, left' <= k <= right /\ below pts split_dim splitvalue k).
  { destruct (Z.lt_ge_cases first left') as [Hlt | Hge]; [left; lia|].
    destruct safe_lo as [Hs | (k0 & Hk0 & Hbe)]; [left; lia|]. right.
    destruct (SB k0 Hk0) as (k & Hk & E). exists k.
    assert (Hbe' : below pts split_dim splitvalue k)
      by (eapply below_ext; [symmetry; exact E | exact Hbe]).
    split; [|exact Hbe'].
    destruct (Z.lt_ge_cases right k) as [Hkr | Hkr]; [|lia].
    exfalso. eapply below_not_above; [exact Hbe' | apply IA]. lia. }
  destruct (right_scan_spec split_dim splitvalue pts infos ID (S fuel) left' right lb' rb
              ltac:(lia) ltac:(lia) Hsafe2 ltac:(lia))
    as (right' & rb' & E2 & Hr' & Hab2 & Hbel2 & Hacc2 & Hcov2).
  assert (IA' : forall k, right' < k < first + count ->
                          at_or_above pts split_dim splitvalue k).
  { intros k Hk. destruct (Z.lt_ge_cases right k); [apply IA | apply Hab2]; lia. }
  assert (ILA' : accumulated goes_left lb0 lb').
  { eapply accumulated_trans; [exact ILA|].
    eapply accumulated_weaken; [|exact Hacc1].
    intros v (k & Hk & Hv). split.
    - destruct (SF k ltac:(lia)) as (k' & Hk' & E). exists k'. split; [exact Hk' | congruence].
    - eapply below_point; [exact Hv | apply Hbel1; exact Hk]. }
  assert (IRA' : accumulated goes_right rb0 rb').
  { eapply accumulated_trans; [exact IRA|].
    eapply accumulated_weaken; [|exact Hacc2].
    intros v (k & Hk & Hv). split.
    - destruct (SF k ltac:(lia)) as (k' & Hk' & E). exists k'. split; [exact Hk' | congruence].
    - eapply at_or_above_point; [exact Hv | apply Hab2; exact Hk]. }
  assert (ILC' : forall k v, first <= k < left' -> zth pts k = Some v -> Bound_contains lb' v).
  { intros k v Hk Hv. destruct (Z.lt_ge_cases k left).
    - eapply accumulated_mono; [exact Hacc1|]. eapply ILC; [|exact Hv]. lia.
    - eapply Hcov1; [|exact Hv]. lia. }
  assert (IRC' : forall k v, right' < k < first + count -> zth pts k = Some v ->
                             Bound_contains rb' v).
  { intros k v Hk Hv. destruct (Z.lt_ge_cases right k).
    - eapply accumulated_mono; [exact Hacc2|]. eapply IRC; [|exact Hv]. lia.
    - eapply Hcov2; [|exact Hv]. lia. }
  rewrite E1. cbn [bind]. rewrite E2. cbn [bind s_left s_right].
  destruct (Z.gtb_spec left' right') as [Hgt | Hle].
  - (* the cursors have crossed *)
    eexists. split; [reflexivity|]. split; [|simpl; lia].
    constructor; scan_fields; auto.
    + exact (conj SL (conj SO (conj SF SB))).
    + lia.
  - (* the two points change sides *)
    assert (Hlt : left' < right').
    { destruct (Z.eq_dec left' right') as [Heq | Hne]; [|lia]. exfalso.
      eapply below_not_above; [apply Hbel2; lia | rewrite <- Heq; apply Hab1; lia]. }
    destruct (zth_in_range pts left' ltac:(lia)) as (a & Za).
    destruct (zth_in_range pts right' ltac:(lia)) as (b & Zb).
    destruct (zth_in_range infos left' ltac:(lia)) as (a' & Za').
    destruct (zth_in_range infos right' ltac:(lia)) as (b' & Zb').
    destruct (swap_spec pts left' right' a b Za Zb ltac:(lia)) as (pts1 & Sp & Lp & Pl & Pr & Po).
    destruct (swap_spec infos left' right' a' b' Za' Zb' ltac:(lia))
      as (infos1 & Si & Li & Il & Ir & Io).
    assert (Rl : read pts1 left' = Ret b) by (apply read_Ret; exact Pl).
    assert (Rr : read pts1 right' = Ret a) by (apply read_Ret; exact Pr).
    assert (Hexch : exchange (mkScan pts infos left' right' lb' rb')
                    = Ret (mkScan pts1 infos1 left' (right' - 1)
                             (Bound_add lb' b) (Bound_add rb' a))).
    { unfold exchange. scan_fields. rewrite Sp. cbn [bind]. rewrite Si. cbn [bind].
      rewrite Rl, Rr. cbn [bind].
      destruct (Z.leb_spec left' right'); [reflexivity | lia]. }
    rewrite Hexch. cbn [bind].
    assert (Hb_left : goes_left b).
    { split.
      - destruct (SF right' ltac:(lia)) as (k' & Hk' & E). exists k'.
        split; [exact Hk' | congruence].
      - eapply below_point; [exact Zb | apply Hbel2; lia]. }
    assert (Ha_right : goes_right a).
    { split.
      - destruct (SF left' ltac:(lia)) as (k' & Hk' & E). exists k'.
        split; [exact Hk' | congruence].
      - eapply at_or_above_point; [exact Za | apply Hab1; lia]. }
    apply IH; [|simpl; lia].
    constructor; scan_fields.
    + congruence.
    + eapply Permutation_Forall; [|exact ID].
      eapply swap_Permutation; [exact Hlt | exact Sp].
    + apply shuffled_trans with (l2 := pts); [exact (conj SL (conj SO (conj SF SB)))|].
      eapply shuffled_swap; [| | |exact Sp]; lia.
    + eapply perm_trans; [exact IP|].
      eapply swap_Permutation; [exact Hlt|]. apply swap_combine; assumption.
    + intros k Hk. rewrite Io by lia. apply IO. exact Hk.
    + lia.
    + intros k Hk. eapply below_ext; [|apply IB'; exact Hk]. apply Po; lia.
    + intros k Hk. destruct (Z.eq_dec k right') as [-> | Hne].
      * apply at_or_above_ext with (points := pts) (k := left'); [congruence|].
        apply Hab1; lia.
      * apply at_or_above_ext with (points := pts) (k := k); [apply Po; lia|].
        apply IA'; lia.
    + eapply accumulated_trans; [exact ILA'|]. apply accumulated_one. exact Hb_left.
    + eapply accumulated_trans; [exact IRA'|]. apply accumulated_one. exact Ha_right.
    + intros k v Hk Hv. apply Bound_add_mono. eapply ILC'; [exact Hk|].
      rewrite <- Hv. symmetry. apply Po; lia.
    + intros k v Hk Hv. destruct (Z.eq_dec k right') as [-> | Hne].
      * assert (v = a) by congruence. subst v. apply Bound_add_contains.
      * apply Bound_add_mono. eapply IRC'; [|rewrite <- Hv; symmetry; apply Po; lia]. lia.
Qed.

End PartitionLoop.

(** ** [Partition_] *)

Lemma zth_combine_match {A B : Type} (l : list A) (m : list B) (i : Z) :
  zth (combine l m) i =
  match zth l i, zth m i with
  | Some a, Some b => Some (a, b)
  | _, _ => None
  end.
Proof.
  unfold zth. destruct (i <? 0); [reflexivity|].
  generalize (Z.to_nat i) as n. clear i.
  intros n; revert m n; induction l as [|x l IH]; intros [|y m] [|n]; simpl; auto.
  - destruct (nth_error l n); reflexivity.
Qed.

Lemma segment_Permutation {A : Type} (first count : Z) (l l' : list A) :
  0 <= first -> 0 <= count ->
  (forall k, ~ (first <= k < first + count) -> zth l' k = zth l k) ->
  Permutation l l' ->
  Permutation (segment first count l) (segment first count l').
Proof.
  intros Hf Hc Hout Hperm. unfold segment.
  set (f := Z.to_nat first). set (c := Z.to_nat count).
  assert (Hnth : forall n, (n < f \/ f + c <= n)%nat -> nth_error l' n = nth_error l n).
  { intros n Hn. specialize (Hout (Z.of_nat n)). unfold zth in Hout.
    destruct (Z.ltb_spec (Z.of_nat n) 0); [lia|]. rewrite Nat2Z.id in Hout.
    apply Hout. lia. }
  assert (Hhead : firstn f l' = firstn f l).
  { apply nth_error_ext. intros n. rewrite !nth_error_firstn.
    destruct (Nat.ltb_spec n f); [apply Hnth; lia | reflexivity]. }
  assert (Htail : skipn c (skipn f l') = skipn c (skipn f l)).
  { apply nth_error_ext. intros n. rewrite !nth_error_skipn. apply Hnth. lia. }
  rewrite <- (firstn_skipn f l), <- (firstn_skipn f l') in Hperm.
  rewrite Hhead in Hperm. apply Permutation_app_inv_l in Hperm.
  rewrite <- (firstn_skipn c (skipn f l)), <- (firstn_skipn c (skipn f l')) in Hperm.
  rewrite Htail in Hperm. apply Permutation_app_inv_r in Hperm. exact Hperm.
Qed.

Section PartitionSpec.

Context {Param PointInfo Stat : Type}.

(** The calls of [Partition_] that stay inside the arrays: the range lies in
    the array, every point has the coordinate, every point has its payload,
    and the scan meets a point at or above the split value before the end of
    the array and a point below it before its beginning. *)
Record partition_call (b : Builder Param PointInfo Stat) (split_dim : Z)
    (splitvalue : double) (first count : Z) : Prop := mk_partition_call {
  call_range : 0 <= first /\ 1 <= count /\
               first + count <= Z.of_nat (length (points_ b));
  call_dim : Forall (has_dim split_dim) (points_ b);
  call_infos : length (point_infos_ b) = length (points_ b);
  call_hi : first + count < Z.of_nat (length (points_ b)) \/
            exists k, first <= k < first + count /\
                      at_or_above (points_ b) split_dim splitvalue k;
  call_lo : 0 < first \/
            exists k, first <= k < first + count /\
                      below (points_ b) split_dim splitvalue k
}.

Lemma Partition__spec (b : Builder Param PointInfo Stat) (split_dim : Z)
    (splitvalue : double) (first count : Z) (lb rb : Bound) (fuel : nat) :
  partition_call b split_dim splitvalue first count ->
  (Z.to_nat (count + 1) <= fuel)%nat ->
  exists s : Scan PointInfo,
    partition_loop fuel split_dim splitvalue
      (mkScan (points_ b) (point_infos_ b) first (first + count - 1) lb rb) = Ret s /\
    scan_inv split_dim splitvalue first count (points_ b) (point_infos_ b) lb rb s /\
    s_left s = s_right s + 1 /\
    Partition_ fuel b split_dim splitvalue first count lb rb
    = Ret (mkPartitioned (s_left s) (set_points (s_points s) (s_infos s) b)
             (s_left_bound s) (s_right_bound s)).
Proof.
  intros [Hr Hd Hi Hhi Hlo] Hfuel.
  destruct (partition_loop_spec split_dim splitvalue first count (points_ b)
              (point_infos_ b) lb rb Hi ltac:(lia) Hhi Hlo fuel
              (mkScan (points_ b) (point_infos_ b) first (first + count - 1) lb rb))
    as (s & E & I & Hcross).
  - apply scan_inv_init; auto. lia.
  - simpl. replace (first + count - 1 + 2 - first) with (count + 1) by lia. exact Hfuel.
  - exists s. split; [exact E|]. split; [exact I|]. split; [exact Hcross|].
    unfold Partition_. rewrite E. cbn [bind]. rewrite Hcross, Z.eqb_refl. reflexivity.
Qed.

(** The scan ends with the cursors crossed and [Partition_] returns the
    index at which they crossed. *)
Definition scan_crosses (fuel : nat) (b : Builder Param PointInfo Stat) (split_dim : Z)
    (splitvalue : double) (first count : Z) (left_bound right_bound : Bound) : Prop :=
  exists (s : Scan PointInfo) (p : Partitioned Param PointInfo Stat),
    partition_loop fuel split_dim splitvalue
      (mkScan (points_ b) (point_infos_ b) first (first + count - 1)
         left_bound right_bound) = Ret s /\
    s_left s = s_right s + 1 /\
    Partition_ fuel b split_dim splitvalue first count left_bound right_bound = Ret p /\
    split_col p = s_left s.

(** X28: for every call with [0 <= first], [count >= 1],
    [split_dim] a coordinate of every point and the range inside the arrays,
    in which the range holds a point at or above the split value or does not
    end at the end of the array, and holds a point below the split value or
    does not begin at index 0, the scan terminates: with [count + 1] units of
    fuel or more the loop ends with the cursors crossed,
    [left = right + 1], and [Partition_] returns that [left]. *)
Theorem Partition__terminates :
  forall (b : Builder Param PointInfo Stat) (split_dim : Z) (splitvalue : double)
    (first count : Z) (left_bound right_bound : Bound) (fuel : nat),
    partition_call b split_dim splitvalue first count ->
    (Z.to_nat (count + 1) <= fuel)%nat ->
    scan_crosses fuel b split_dim splitvalue first count left_bound right_bound.
Proof.
  intros b sd sv first count lb rb fuel Hcall Hfuel.
  destruct (Partition__spec b sd sv first count lb rb fuel Hcall Hfuel)
    as (s & E & _ & Hcross & EP).
  exists s. eexists. split; [exact E|]. split; [exact Hcross|].
  split; [exact EP | reflexivity].
Qed.

(** [Partition_] returns an index [split_col] of the range or its end; the
    points before it are below the split value, the points from it on are at
    or above it, and the pairs of a point and its payload in the range are a
    permutation of the pairs that were there. *)
Definition partitions_range (fuel : nat) (b : Builder Param PointInfo Stat) (split_dim : Z)
    (splitvalue : double) (first count : Z) (left_bound right_bound : Bound) : Prop :=
  exists p : Partitioned Param PointInfo Stat,
    Partition_ fuel b split_dim splitvalue first count left_bound right_bound = Ret p /\
    first <= split_col p <= first + count /\
    (forall k, first <= k < split_col p ->
               below (points_ (p_builder p)) split_dim splitvalue k) /\
    (forall k, split_col p <= k < first + count ->
               at_or_above (points_ (p_builder p)) split_dim splitvalue k) /\
    Permutation
      (segment first count (combine (points_ b) (point_infos_ b)))
      (segment first count
         (combine (points_ (p_builder p)) (point_infos_ (p_builder p)))).

(** X29: for every such call [Partition_] returns an index [i]
    with [first <= i <= first + count]; afterwards the points at the indices
    of [first, i) are below the split value in coordinate [split_dim], those
    at the indices of [i, first + count) are at or above it, and the pairs of
    a point and its payload in the range are a permutation of the pairs that
    were there. *)
Theorem Partition__partitions :
  forall (b : Builder Param PointInfo Stat) (split_dim : Z) (splitvalue : double)
    (first count : Z) (left_bound right_bound : Bound) (fuel : nat),
    partition_call b split_dim splitvalue first count ->
    (Z.to_nat (count + 1) <= fuel)%nat ->
    partitions_range fuel b split_dim splitvalue first count left_bound right_bound.
Proof.
  intros b sd sv first count lb rb fuel Hcall Hfuel.
  destruct (Partition__spec b sd sv first count lb rb fuel Hcall Hfuel)
    as (s & _ & I & Hcross & EP).
  eexists. split; [exact EP|]. cbn [split_col p_builder set_points points_ point_infos_].
  pose proof (inv_cursors _ _ _ _ _ _ _ _ _ I) as Hc.
  split; [lia|]. split; [|split].
  - intros k Hk. eapply inv_below; [exact I | exact Hk].
  - intros k Hk. eapply inv_above; [exact I | lia].
  - destruct Hcall as [Hr _ _ _ _].
    apply segment_Permutation; try lia.
    + intros k Hk. rewrite !zth_combine_match.
      destruct (inv_shuffled _ _ _ _ _ _ _ _ _ I) as (_ & Ho & _).
      rewrite (Ho k Hk), (inv_infos_outside _ _ _ _ _ _ _ _ _ I k Hk). reflexivity.
    + eapply inv_perm. exact I.
Qed.

End PartitionSpec.

(** ** Tight bounds *)

(** A coordinate that a [double] can hold. *)
Definition finite (x : double) : Prop := (- DBL_MAX <= x)%Q /\ (x <= DBL_MAX)%Q.

(** A point of the data set: [dim] finite coordinates. *)
Definition valid_point (dim : Z) (v : Vector) : Prop :=
  Z.of_nat (length v) = dim /\ Forall finite v.

(** [v] is one of the points at the indices [first .. first + count - 1]. *)
Definition in_node (points : list Vector) (first count : Z) (v : Vector) : Prop :=
  exists k, first <= k < first + count /\ zth points k = Some v.

(** The bound of a node is the bounding box of its points: it contains them
    and each of its ends is reached by one of them. *)
Record tight (dim : Z) (points : list Vector) (first count : Z) (bd : Bound) : Prop :=
  mk_tight {
  tight_length : Z.of_nat (length bd) = dim;
  tight_contains : forall v, in_node points first count v -> Bound_contains bd v;
  tight_reached :
    forall (d : nat) (r : DRange),
      nth_error bd d = Some r ->
      (exists v x, in_node points first count v /\ nth_error v d = Some x /\ (x <= lo r)%Q) /\
      (exists v x, in_node points first count v /\ nth_error v d = Some x /\ (hi r <= x)%Q)
}.

Lemma valid_point_coord (dim : Z) (v : Vector) (d : nat) :
  valid_point dim v -> Z.of_nat d < dim ->
  exists x, nth_error v d = Some x /\ finite x.
Proof.
  intros [Hlen Hfin] Hd.
  destruct (nth_error v d) as [x|] eqn:E.
  - exists x. split; [reflexivity|]. rewrite Forall_forall in Hfin.
    apply Hfin. eapply nth_error_In. exact E.
  - apply nth_error_None in E. lia.
Qed.

Lemma valid_point_has_dim (dim sd : Z) (v : Vector) :
  0 <= sd < dim -> valid_point dim v -> has_dim sd v.
Proof.
  intros Hsd [Hlen _]. unfold has_dim. lia.
Qed.

Lemma DBL_MAX_pos : (0 < DBL_MAX)%Q.
Proof.
  unfold DBL_MAX, Qlt. simpl. reflexivity.
Qed.

Lemma tight_of_generated (dim : Z) (points : list Vector) (first count : Z) (bd : Bound) :
  Z.of_nat (length bd) = dim ->
  (forall v, in_node points first count v -> valid_point dim v) ->
  (exists v, in_node points first count v) ->
  (forall v, in_node points first count v -> Bound_contains bd v) ->
  generated (in_node points first count) bd ->
  tight dim points first count bd.
Proof.
  intros Hlen Hvalid (v0 & Hv0) Hcont Hgen. constructor; auto.
  intros d r Hr.
  assert (Hd : Z.of_nat d < dim).
  { assert (nth_error bd d <> None) by congruence. apply nth_error_Some in H. lia. }
  destruct (valid_point_coord dim v0 d (Hvalid v0 Hv0) Hd) as (x0 & Hx0 & [Hfl Hfh]).
  destruct (Hgen d r Hr) as [Hlo Hhi]. split.
  - destruct Hlo as [E | Hreach]; [|exact Hreach].
    exists v0, x0. split; [exact Hv0|]. split; [exact Hx0|]. rewrite E. exact Hfh.
  - destruct Hhi as [E | Hreach]; [|exact Hreach].
    exists v0, x0. split; [exact Hv0|]. split; [exact Hx0|]. rewrite E. exact Hfl.
Qed.

Lemma shuffled_in_node {A : Type} (first count : Z) (l l' : list A) (k : Z) (x : A) :
  shuffled first count l l' -> first <= k < first + count -> zth l' k = Some x ->
  exists k', first <= k' < first + count /\ zth l k' = Some x.
Proof.
  intros (_ & _ & F & _) Hk Hx. destruct (F k Hk) as (k' & Hk' & E).
  exists k'. split; [exact Hk' | congruence].
Qed.

Lemma shuffled_in_node_back {A : Type} (first count : Z) (l l' : list A) (k : Z) (x : A) :
  shuffled first count l l' -> first <= k < first + count -> zth l k = Some x ->
  exists k', first <= k' < first + count /\ zth l' k' = Some x.
Proof.
  intros (_ & _ & _ & B) Hk Hx. destruct (B k Hk) as (k' & Hk' & E).
  exists k'. split; [exact Hk' | congruence].
Qed.

Lemma shuffled_Forall {A : Type} (P : A -> Prop) (first count : Z) (l l' : list A) :
  shuffled first count l l' -> Forall P l -> Forall P l'.
Proof.
  intros Hs Hall. rewrite Forall_forall in *. intros x Hin.
  destruct (In_zth _ _ Hin) as (k & Hk).
  destruct (Z.lt_ge_cases k first) as [H1 | H1].
  { destruct Hs as (_ & O & _). rewrite O in Hk by lia. eapply Hall, zth_In, Hk. }
  destruct (Z.lt_ge_cases k (first + count)) as [H2 | H2].
  - destruct (shuffled_in_node first count l l' k x Hs ltac:(lia) Hk) as (k' & _ & Hk').
    eapply Hall, zth_In, Hk'.
  - destruct Hs as (_ & O & _). rewrite O in Hk by lia. eapply Hall, zth_In, Hk.
Qed.

(** A rearrangement inside a range that contains the node's range, or is
    disjoint from it, keeps the points of the node inside any set. *)
Lemma in_node_shuffled_inside (points points' : list Vector) (first count f c : Z)
    (v : Vector) :
  shuffled f c points points' -> first <= f -> f + c <= first + count ->
  in_node points' first count v -> in_node points first count v.
Proof.
  intros Hs H1 H2 (k & Hk & Hv).
  destruct (Z.lt_ge_cases k f) as [Ha | Ha].
  { exists k. split; [exact Hk|]. destruct Hs as (_ & O & _). rewrite <- O by lia. exact Hv. }
  destruct (Z.lt_ge_cases k (f + c)) as [Hb | Hb].
  - destruct (shuffled_in_node f c points points' k v Hs ltac:(lia) Hv) as (k' & Hk' & Hv').
    exists k'. split; [lia | exact Hv'].
  - exists k. split; [exact Hk|]. destruct Hs as (_ & O & _). rewrite <- O by lia. exact Hv.
Qed.

Lemma in_node_shuffled_inside_back (points points' : list Vector) (first count f c : Z)
    (v : Vector) :
  shuffled f c points points' -> first <= f -> f + c <= first + count ->
  in_node points first count v -> in_node points' first count v.
Proof.
  intros Hs H1 H2 (k & Hk & Hv).
  destruct (Z.lt_ge_cases k f) as [Ha | Ha].
  { exists k. split; [exact Hk|]. destruct Hs as (_ & O & _). rewrite O by lia. exact Hv. }
  destruct (Z.lt_ge_cases k (f + c)) as [Hb | Hb].
  - destruct (shuffled_in_node_back f c points points' k v Hs ltac:(lia) Hv) as (k' & Hk' & Hv').
    exists k'. split; [lia | exact Hv'].
  - exists k. split; [exact Hk|]. destruct Hs as (_ & O & _). rewrite O by lia. exact Hv.
Qed.

Lemma in_node_shuffled_apart (points points' : list Vector) (first count f c : Z)
    (v : Vector) :
  shuffled f c points points' -> (first + count <= f \/ f + c <= first) ->
  (in_node points' first count v <-> in_node points first count v).
Proof.
  intros (_ & O & _) Hd. split; intros (k & Hk & Hv); exists k; (split; [exact Hk|]).
  - rewrite <- O by lia. exact Hv.
  - rewrite O by lia. exact Hv.
Qed.

Lemma tight_ext (dim : Z) (points points' : list Vector) (first count : Z) (bd : Bound) :
  (forall v, in_node points' first count v <-> in_node points first count v) ->
  tight dim points first count bd -> tight dim points' first count bd.
Proof.
  intros Hiff [Hl Hc Hr]. constructor; auto.
  - intros v Hv. apply Hc, Hiff, Hv.
  - intros d r Hd. destruct (Hr d r Hd) as [(v & x & Hv & Hx & Hle) (w & y & Hw & Hy & Hge)].
    split; [exists v, x | exists w, y]; (split; [apply Hiff; assumption | auto]).
Qed.

(** ** The midpoint of a range of positive width *)

Lemma mid_between (r : DRange) :
  (lo r <= hi r)%Q -> ~ (width r == 0)%Q -> (lo r < mid r)%Q /\ (mid r <= hi r)%Q.
Proof.
  unfold width, mid. intros Hle Hne.
  assert (Hlt : (lo r < hi r)%Q).
  { destruct (Qlt_le_dec (lo r) (hi r)) as [Hlt | Hge]; [exact Hlt|].
    exfalso. apply Hne. lra. }
  split.
  - apply Qlt_shift_div_l; lra.
  - apply Qle_shift_div_r; lra.
Qed.

(** ** The node array *)

Lemma zth_app_l {A : Type} (l m : list A) (k : Z) :
  k < Z.of_nat (length l) -> zth (l ++ m) k = zth l k.
Proof.
  intros Hk. unfold zth. destruct (Z.ltb_spec k 0); [reflexivity|].
  apply nth_error_app1. lia.
Qed.

Lemma zth_app_r {A : Type} (l m : list A) (k : Z) :
  Z.of_nat (length l) <= k -> zth (l ++ m) k = zth m (k - Z.of_nat (length l)).
Proof.
  intros Hk. unfold zth.
  destruct (Z.ltb_spec k 0); [lia|].
  destruct (Z.ltb_spec (k - Z.of_nat (length l)) 0); [lia|].
  rewrite nth_error_app2 by lia. f_equal. lia.
Qed.

Lemma upd_app_l {A : Type} (l m : list A) (n : nat) (x : A) :
  (n < length l)%nat -> upd (l ++ m) n x = upd l n x ++ m.
Proof.
  revert n; induction l as [|a l IH]; intros [|n] Hn; simpl in *; try lia; auto.
  f_equal. apply IH. lia.
Qed.

Lemma upd_app_r {A : Type} (l m : list A) (n : nat) (x : A) :
  (length l <= n)%nat -> upd (l ++ m) n x = l ++ upd m (n - length l) x.
Proof.
  revert n; induction l as [|a l IH]; intros n Hn; simpl in *.
  - rewrite Nat.sub_0_r. reflexivity.
  - destruct n as [|n]; [lia|]. simpl. f_equal. apply IH. lia.
Qed.

Lemma zupd_app_l {A : Type} (l m : list A) (k : Z) (x : A) :
  k < Z.of_nat (length l) -> zupd (l ++ m) k x = zupd l k x ++ m.
Proof.
  intros Hk. unfold zupd. destruct (Z.ltb_spec k 0); [reflexivity|].
  apply upd_app_l. lia.
Qed.

Lemma zupd_app_r {A : Type} (l m : list A) (k : Z) (x : A) :
  Z.of_nat (length l) <= k -> zupd (l ++ m) k x = l ++ zupd m (k - Z.of_nat (length l)) x.
Proof.
  intros Hk. unfold zupd.
  destruct (Z.ltb_spec k 0); [lia|].
  destruct (Z.ltb_spec (k - Z.of_nat (length l)) 0); [lia|].
  rewrite upd_app_r by lia. do 2 f_equal. lia.
Qed.

Lemma upd_upd {A : Type} (l : list A) (n : nat) (x y : A) :
  upd (upd l n x) n y = upd l n y.
Proof.
  revert n; induction l as [|a l IH]; intros [|n]; simpl; auto. f_equal. apply IH.
Qed.

Lemma zupd_zupd {A : Type} (l : list A) (k : Z) (x y : A) :
  zupd (zupd l k x) k y = zupd l k y.
Proof.
  unfold zupd. destruct (k <? 0); [reflexivity | apply upd_upd].
Qed.

Lemma zth_zupd {A : Type} (l : list A) (i j : Z) (x y : A) :
  zth l i = Some y -> zth (zupd l i x) j = if j =? i then Some x else zth l j.
Proof.
  intros Hy. destruct (Z.eqb_spec j i) as [-> | Hne].
  - apply zth_zupd_same. eapply zth_Some_range. exact Hy.
  - apply zth_zupd_other. congruence.
Qed.

Lemma bind_Ret {A B : Type} (m : outcome A) (k : A -> outcome B) (b : B) :
  bind m k = Ret b -> exists a, m = Ret a /\ k a = Ret b.
Proof.
  destruct m; cbn [bind]; intros E; try discriminate. exists a. split; [reflexivity | exact E].
Qed.


Section BuilderFacts.

Context {Param PointInfo Stat : Type} `{Statistic Param PointInfo Stat}.
Variable BIG_BAD_NUMBER : Z.
Variable range_width : DRange -> double.
Variable range_mid : DRange -> double.

Lemma modify_node_Ret (b : Builder Param PointInfo Stat) (i : Z) (f : Node Stat -> Node Stat)
    (nd : Node Stat) :
  zth (nodes_ b) i = Some nd ->
  modify_node i f b = Ret (set_nodes (zupd (nodes_ b) i (f nd)) b).
Proof.
  intros E. unfold modify_node, read. rewrite E. reflexivity.
Qed.

(** The builder and its data set are well formed. *)
Record builder_ok (b : Builder Param PointInfo Stat) : Prop := mk_builder_ok {
  ok_dim : 1 <= dim_ b;
  ok_points : Forall (valid_point (dim_ b)) (points_ b);
  ok_infos : length (point_infos_ b) = length (points_ b)
}.

Lemma builder_ok_in_node (b : Builder Param PointInfo Stat) (first count : Z) (v : Vector) :
  builder_ok b -> in_node (points_ b) first count v -> valid_point (dim_ b) v.
Proof.
  intros [_ Hp _] (k & _ & Hv). rewrite Forall_forall in Hp. eapply Hp, zth_In, Hv.
Qed.

Lemma builder_ok_has_dim (b : Builder Param PointInfo Stat) (sd : Z) :
  builder_ok b -> 0 <= sd < dim_ b -> Forall (has_dim sd) (points_ b).
Proof.
  intros [_ Hp _] Hsd. eapply Forall_impl; [|exact Hp].
  intros v. apply valid_point_has_dim. exact Hsd.
Qed.

(** *** The loop that finds the widest dimension *)

(** After the dimensions before [d]: [max_width] is at least the width of
    each of them; either no width exceeded -1 and the two variables are as
    they were initialised, or [split_dim] is the first dimension of the width
    [max_width], which exceeds -1. *)
Definition widest_first (bound : Bound) (d : Z) (max_width : double) (split_dim : Z)
  : Prop :=
  (forall d' r', 0 <= d' < d -> zth bound d' = Some r' ->
                 (range_width r' <= max_width)%Q) /\
  ((split_dim = BIG_BAD_NUMBER /\ max_width = (-1)%Q) \/
   (0 <= split_dim < d /\
    exists rg, zth bound split_dim = Some rg /\ max_width = range_width rg /\
      (-1 < max_width)%Q /\
      forall d' r', 0 <= d' < split_dim -> zth bound d' = Some r' ->
                    (range_width r' < max_width)%Q)).

Lemma widest_loop_first (bound : Bound) (n : nat) :
  forall (d : Z) (max_width : double) (split_dim : Z),
    0 <= d -> d + Z.of_nat n <= Z.of_nat (length bound) ->
    widest_first bound d max_width split_dim ->
    exists mw sd, widest range_width n d bound max_width split_dim = Ret (mw, sd) /\
                  widest_first bound (d + Z.of_nat n) mw sd.
Proof.
  induction n as [|n IH]; intros d mw sd Hd Hn Hinv.
  - exists mw, sd. split; [reflexivity|]. replace (d + Z.of_nat 0) with d by lia.
    exact Hinv.
  - destruct (read_in_range bound d ltac:(lia)) as (r & Rr & Zr).
    cbn [widest]. unfold Bound_get. rewrite Rr. cbn [bind].
    destruct Hinv as [Hmax Hfirst].
    assert (Hlow : (-1 <= mw)%Q).
    { destruct Hfirst as [[_ ->] | (_ & rg & _ & _ & Hgt & _)]; lra. }
    replace (d + Z.of_nat (S n)) with (d + 1 + Z.of_nat n) by lia.
    destruct (Qlt_b mw (range_width r)) eqn:Hcmp.
    + apply Qlt_b_true in Hcmp. apply IH; [lia | lia |]. split.
      * intros d' r' Hd' Zr'. destruct (Z.eq_dec d' d) as [-> | Hne].
        -- assert (r' = r) by congruence. subst r'. lra.
        -- specialize (Hmax d' r' ltac:(lia) Zr'). lra.
      * right. split; [lia|]. exists r. split; [exact Zr|]. split; [reflexivity|].
        split; [lra|]. intros d' r' Hd' Zr'. specialize (Hmax d' r' Hd' Zr'). lra.
    + apply Qlt_b_false in Hcmp. apply IH; [lia | lia |]. split.
      * intros d' r' Hd' Zr'. destruct (Z.eq_dec d' d) as [-> | Hne].
        -- assert (r' = r) by congruence. subst r'. exact Hcmp.
        -- apply (Hmax d' r'); [lia | exact Zr'].
      * destruct Hfirst as [Hbig | (Hsd & rg & Hrest)]; [left; exact Hbig | right].
        split; [lia|]. exists rg. exact Hrest.
Qed.

Lemma widest_run (bound : Bound) (dim : Z) :
  0 <= dim <= Z.of_nat (length bound) ->
  exists mw sd,
    widest range_width (Z.to_nat dim) 0 bound (-1)%Q BIG_BAD_NUMBER = Ret (mw, sd) /\
    widest_first bound dim mw sd.
Proof.
  intros Hdim.
  destruct (widest_loop_first bound (Z.to_nat dim) 0 (-1)%Q BIG_BAD_NUMBER)
    as (mw & sd & E & Hinv).
  - lia.
  - lia.
  - split; [intros d' r' Hd'; lia | left; split; reflexivity].
  - exists mw, sd. split; [exact E|].
    replace (0 + Z.of_nat (Z.to_nat dim)) with dim in Hinv by lia. exact Hinv.
Qed.

Lemma zth_nth_error {A : Type} (l : list A) (k : Z) (x : A) :
  zth l k = Some x -> nth_error l (Z.to_nat k) = Some x /\ 0 <= k.
Proof.
  unfold zth. destruct (Z.ltb_spec k 0); [discriminate|]. auto.
Qed.

Lemma tight_width_nonneg (dim : Z) (points : list Vector) (first count : Z) (bd : Bound)
    (d : Z) (r : DRange) :
  tight dim points first count bd -> zth bd d = Some r -> (lo r <= hi r)%Q.
Proof.
  intros [Hl Hc Hr] Zr. apply zth_nth_error in Zr. destruct Zr as [Zr _].
  destruct (Hr _ _ Zr) as [(v & x & Hv & Hx & Hle) _].
  destruct (Hc v Hv _ _ _ Zr Hx) as [H1 H2]. lra.
Qed.

(** *** [FindBoundingBox_] *)

Lemma FindBoundingBox_loop_spec (points : list Vector) (n : nat) :
  forall (i : Z) (bound : Bound),
    0 <= i -> i + Z.of_nat n <= Z.of_nat (length points) ->
    exists bd, FindBoundingBox_loop points n i bound = Ret bd /\
      accumulated (in_node points i (Z.of_nat n)) bound bd /\
      (forall v, in_node points i (Z.of_nat n) v -> Bound_contains bd v).
Proof.
  induction n as [|n IH]; intros i bound Hi Hn.
  - exists bound. split; [reflexivity|]. split; [constructor|].
    intros v (k & Hk & _). lia.
  - destruct (read_in_range points i ltac:(lia)) as (v & Rv & Zv).
    cbn [FindBoundingBox_loop]. rewrite Rv. cbn [bind].
    destruct (IH (i + 1) (Bound_add bound v) ltac:(lia) ltac:(lia)) as (bd & E & Hacc & Hcov).
    exists bd. split; [exact E|]. split.
    + apply acc_cons with (v := v).
      * exists i. split; [lia | exact Zv].
      * eapply accumulated_weaken; [|exact Hacc].
        intros u (k & Hk & Hu). exists k. split; [lia | exact Hu].
    + intros u (k & Hk & Hu). destruct (Z.eq_dec k i) as [-> | Hne].
      * assert (u = v) by congruence. subst u.
        eapply accumulated_mono; [exact Hacc | apply Bound_add_contains].
      * apply Hcov. exists k. split; [lia | exact Hu].
Qed.


(** *** The split of a node *)

Lemma modify_appended_l (b : Builder Param PointInfo Stat) (ns : list (Node Stat))
    (a c : Node Stat) (f : Node Stat -> Node Stat) :
  nodes_ b = ns ++ [a; c] ->
  modify_node (Z.of_nat (length ns)) f b = Ret (set_nodes (ns ++ [f a; c]) b).
Proof.
  intros E. rewrite (modify_node_Ret b _ f a).
  - rewrite E, zupd_app_r by lia. rewrite Z.sub_diag. reflexivity.
  - rewrite E, zth_app_r by lia. rewrite Z.sub_diag. reflexivity.
Qed.

Lemma modify_appended_r (b : Builder Param PointInfo Stat) (ns : list (Node Stat))
    (a c : Node Stat) (f : Node Stat -> Node Stat) :
  nodes_ b = ns ++ [a; c] ->
  modify_node (Z.of_nat (length ns) + 1) f b = Ret (set_nodes (ns ++ [a; f c]) b).
Proof.
  intros E. rewrite (modify_node_Ret b _ f c).
  - rewrite E, zupd_app_r by lia.
    replace (Z.of_nat (length ns) + 1 - Z.of_nat (length ns)) with 1 by lia. reflexivity.
  - rewrite E, zth_app_r by lia.
    replace (Z.of_nat (length ns) + 1 - Z.of_nat (length ns)) with 1 by lia. reflexivity.
Qed.

Lemma read_appended_l (ns : list (Node Stat)) (a c : Node Stat) :
  read (ns ++ [a; c]) (Z.of_nat (length ns)) = Ret a.
Proof.
  apply read_Ret. rewrite zth_app_r by lia. rewrite Z.sub_diag. reflexivity.
Qed.

Lemma read_appended_r (ns : list (Node Stat)) (a c : Node Stat) :
  read (ns ++ [a; c]) (Z.of_nat (length ns) + 1) = Ret c.
Proof.
  apply read_Ret. rewrite zth_app_r by lia.
  replace (Z.of_nat (length ns) + 1 - Z.of_nat (length ns)) with 1 by lia. reflexivity.
Qed.

(** The two children as [split_node] leaves them. *)
Definition left_child (node : Node Stat) (split : Z) (lb : Bound) : Node Stat :=
  mkNode (begin_ node) (split - begin_ node) lb Unset Unset stat_default.

Definition right_child (node : Node Stat) (split : Z) (rb : Bound) : Node Stat :=
  mkNode split (end_ node - split) rb Unset Unset stat_default.

(** *** More fuel only turns an [OutOfFuel] into a result *)

Definition stable {A : Type} (o o' : outcome A) : Prop := o = OutOfFuel \/ o' = o.

Lemma stable_refl {A : Type} (o : outcome A) : stable o o.
Proof.
  right. reflexivity.
Qed.

Lemma stable_bind {A B : Type} (m m' : outcome A) (k k' : A -> outcome B) :
  stable m m' -> (forall a, stable (k a) (k' a)) -> stable (bind m k) (bind m' k').
Proof.
  intros [-> | ->] Hk; [left; reflexivity|].
  destruct m; simpl; try (right; reflexivity). apply Hk.
Qed.

Lemma stable_if {A : Type} (c : bool) (o1 o1' o2 o2' : outcome A) :
  stable o1 o1' -> stable o2 o2' -> stable (if c then o1 else o2) (if c then o1' else o2').
Proof.
  destruct c; auto.
Qed.

Ltac stable_step :=
  first [ apply stable_refl
        | apply stable_if
        | apply stable_bind; [|intros ?] ].

Lemma left_scan_stable (sd : Z) (sv : double) (f : nat) :
  forall (f' : nat) (s : Scan PointInfo),
    (f <= f')%nat -> stable (left_scan f sd sv s) (left_scan f' sd sv s).
Proof.
  induction f as [|f IH]; intros f' s Hle; [left; reflexivity|].
  destruct f' as [|f']; [lia|]. cbn [left_scan].
  repeat stable_step. apply IH. lia.
Qed.

Lemma right_scan_stable (sd : Z) (sv : double) (f : nat) :
  forall (f' : nat) (s : Scan PointInfo),
    (f <= f')%nat -> stable (right_scan f sd sv s) (right_scan f' sd sv s).
Proof.
  induction f as [|f IH]; intros f' s Hle; [left; reflexivity|].
  destruct f' as [|f']; [lia|]. cbn [right_scan].
  repeat stable_step. apply IH. lia.
Qed.

Lemma partition_loop_stable (sd : Z) (sv : double) (f : nat) :
  forall (f' : nat) (s : Scan PointInfo),
    (f <= f')%nat -> stable (partition_loop f sd sv s) (partition_loop f' sd sv s).
Proof.
  induction f as [|f IH]; intros f' s Hle; [left; reflexivity|].
  destruct f' as [|f']; [lia|]. rewrite !partition_loop_S.
  apply stable_bind; [apply left_scan_stable; lia | intros s1].
  apply stable_bind; [apply right_scan_stable; lia | intros s2].
  repeat stable_step. apply IH. lia.
Qed.

Lemma Partition__stable (f f' : nat) (b : Builder Param PointInfo Stat) (sd : Z)
    (sv : double) (first count : Z) (lb rb : Bound) :
  (f <= f')%nat ->
  stable (Partition_ f b sd sv first count lb rb) (Partition_ f' b sd sv first count lb rb).
Proof.
  intros Hle. unfold Partition_.
  apply stable_bind; [apply partition_loop_stable; exact Hle | intros s].
  apply stable_refl.
Qed.


(** *** A range with all its points on one side of the split value *)

Lemma left_scan_runs_off (sd : Z) (sv : double) (points : list Vector)
    (infos : list PointInfo) (fuel : nat) :
  forall (left : Z) (lb rb : Bound),
    0 <= left <= Z.of_nat (length points) ->
    (forall k, left <= k < Z.of_nat (length points) -> below points sd sv k) ->
    (Z.to_nat (Z.of_nat (length points) - left + 1) <= fuel)%nat ->
    left_scan fuel sd sv (mkScan points infos left (Z.of_nat (length points) - 1) lb rb)
    = OutOfRange.
Proof.
  induction fuel as [|fuel IH]; intros left lb rb Hl Hb Hf; [lia|].
  cbn [left_scan s_points s_left s_right s_infos s_left_bound s_right_bound].
  destruct (Z.eq_dec left (Z.of_nat (length points))) as [-> | Hne].
  - unfold read. rewrite zth_None by lia. reflexivity.
  - destruct (Hb left ltac:(lia)) as (x & Hx & Hlt). unfold coord in Hx.
    destruct (zth points left) as [v|] eqn:Zv; [|discriminate].
    unfold read at 1. rewrite Zv. cbn [bind]. unfold Vector_get, read. rewrite Hx.
    cbn [bind].
    assert (Qle_bool sv x = false) as -> by (apply Qle_bool_false; exact Hlt).
    destruct (Z.gtb_spec left (Z.of_nat (length points) - 1)) as [Hgt | _]; [lia|].
    cbn [orb]. apply IH; [lia | intros k Hk; apply Hb; lia | lia].
Qed.

Lemma right_scan_runs_off (sd : Z) (sv : double) (points : list Vector)
    (infos : list PointInfo) (fuel : nat) :
  forall (right : Z) (lb rb : Bound),
    -1 <= right ->
    (forall k, 0 <= k <= right -> at_or_above points sd sv k) ->
    (Z.to_nat (right + 2) <= fuel)%nat ->
    right_scan fuel sd sv (mkScan points infos 0 right lb rb) = OutOfRange.
Proof.
  induction fuel as [|fuel IH]; intros right lb rb Hr Ha Hf; [lia|].
  cbn [right_scan s_points s_left s_right s_infos s_left_bound s_right_bound].
  destruct (Z.eq_dec right (-1)) as [-> | Hne].
  - unfold read. rewrite zth_None by lia. reflexivity.
  - destruct (Ha right ltac:(lia)) as (x & Hx & Hle). unfold coord in Hx.
    destruct (zth points right) as [v|] eqn:Zv; [|discriminate].
    unfold read at 1. rewrite Zv. cbn [bind]. unfold Vector_get, read. rewrite Hx.
    cbn [bind].
    assert (Qlt_b x sv = false) as -> by (apply Qlt_b_false; exact Hle).
    destruct (Z.gtb_spec 0 right) as [Hgt | _]; [lia|].
    cbn [orb]. apply IH; [lia | intros k Hk; apply Ha; lia | lia].
Qed.

(** When the range ends at the end of the array and all its points are
    below the split value, the left cursor reaches the size of the array and
    the point there is read; when it begins at index 0 and all its points are
    at or above the split value, the right cursor reaches -1. *)
Lemma partition_loop_runs_off (sd : Z) (sv : double) (points : list Vector)
    (infos : list PointInfo) (first count : Z) (lb rb : Bound) (fuel : nat) :
  0 <= first -> 1 <= count -> first + count <= Z.of_nat (length points) ->
  Forall (has_dim sd) points ->
  (first + count = Z.of_nat (length points) /\
   forall k, first <= k < first + count -> below points sd sv k) \/
  (first = 0 /\ forall k, first <= k < first + count -> at_or_above points sd sv k) ->
  (Z.to_nat (count + 1) <= fuel)%nat ->
  partition_loop fuel sd sv (mkScan points infos first (first + count - 1) lb rb)
  = OutOfRange.
Proof.
  intros Hf Hc Hn Hd Hside Hfuel. destruct fuel as [|fuel]; [lia|].
  rewrite partition_loop_S.
  destruct Hside as [[Hend Hb] | [-> Ha]].
  - replace (first + count - 1) with (Z.of_nat (length points) - 1) by lia.
    rewrite left_scan_runs_off; [reflexivity | lia | intros k Hk; apply Hb; lia | lia].
  - destruct (left_scan_spec sd sv points infos Hd (S fuel) 0 (0 + count - 1) lb rb)
      as (l' & lb' & El & Hl & Hlb & _).
    { lia. }
    { lia. }
    { right. exists 0. split; [lia | apply Ha; lia]. }
    { lia. }
    assert (l' = 0) as ->.
    { destruct (Z.eq_dec l' 0) as [E | Hne]; [exact E|]. exfalso.
      apply (below_not_above points sd sv 0); [apply Hlb; lia | apply Ha; lia]. }
    rewrite El. cbn [bind].
    rewrite right_scan_runs_off; [reflexivity | lia | intros k Hk; apply Ha; lia | lia].
Qed.

Lemma all_below_or_one_above (points : list Vector) (sd : Z) (sv : double) (first : Z)
    (n : nat) :
  Forall (has_dim sd) points -> 0 <= first ->
  first + Z.of_nat n <= Z.of_nat (length points) ->
  (forall k, first <= k < first + Z.of_nat n -> below points sd sv k) \/
  (exists k, first <= k < first + Z.of_nat n /\ at_or_above points sd sv k).
Proof.
  intros Hd Hf. induction n as [|n IH]; intros Hn.
  - left. intros k Hk. lia.
  - destruct (zth_in_range points (first + Z.of_nat n) ltac:(lia)) as (v & Zv).
    destruct (coord_defined points sd _ v Hd Zv) as (x & _ & Hx).
    destruct (IH ltac:(lia)) as [Hall | (k & Hk & Ha)].
    + destruct (Qlt_le_dec x sv) as [Hlt | Hge].
      * left. intros k Hk. destruct (Z.eq_dec k (first + Z.of_nat n)) as [-> | Hne].
        -- exists x. split; assumption.
        -- apply Hall. lia.
      * right. exists (first + Z.of_nat n). split; [lia|]. exists x. split; assumption.
    + right. exists k. split; [lia | exact Ha].
Qed.

Lemma all_above_or_one_below (points : list Vector) (sd : Z) (sv : double) (first : Z)
    (n : nat) :
  Forall (has_dim sd) points -> 0 <= first ->
  first + Z.of_nat n <= Z.of_nat (length points) ->
  (forall k, first <= k < first + Z.of_nat n -> at_or_above points sd sv k) \/
  (exists k, first <= k < first + Z.of_nat n /\ below points sd sv k).
Proof.
  intros Hd Hf. induction n as [|n IH]; intros Hn.
  - left. intros k Hk. lia.
  - destruct (zth_in_range points (first + Z.of_nat n) ltac:(lia)) as (v & Zv).
    destruct (coord_defined points sd _ v Hd Zv) as (x & _ & Hx).
    destruct (IH ltac:(lia)) as [Hall | (k & Hk & Hb)].
    + destruct (Qlt_le_dec x sv) as [Hlt | Hge].
      * right. exists (first + Z.of_nat n). split; [lia|]. exists x. split; assumption.
      * left. intros k Hk. destruct (Z.eq_dec k (first + Z.of_nat n)) as [-> | Hne].
        -- exists x. split; assumption.
        -- apply Hall. lia.
    + right. exists k. split; [lia | exact Hb].
Qed.

(** A scan that returns has stayed inside the arrays: it was one of the
    calls of [partition_call], and it ends as they all do. *)
Lemma partition_loop_Ret (b : Builder Param PointInfo Stat) (sd : Z) (sv : double)
    (first count : Z) (lb rb : Bound) (fuel : nat) (s : Scan PointInfo) :
  0 <= first -> 1 <= count -> first + count <= Z.of_nat (length (points_ b)) ->
  Forall (has_dim sd) (points_ b) -> length (point_infos_ b) = length (points_ b) ->
  partition_loop fuel sd sv
    (mkScan (points_ b) (point_infos_ b) first (first + count - 1) lb rb) = Ret s ->
  partition_call b sd sv first count /\
  scan_inv sd sv first count (points_ b) (point_infos_ b) lb rb s /\
  s_left s = s_right s + 1.
Proof.
  intros Hf Hc Hn Hd Hi E.
  set (big := Nat.max fuel (Z.to_nat (count + 1))).
  assert (Ebig : partition_loop big sd sv
                   (mkScan (points_ b) (point_infos_ b) first (first + count - 1) lb rb)
                 = Ret s).
  { destruct (partition_loop_stable sd sv fuel big
                (mkScan (points_ b) (point_infos_ b) first (first + count - 1) lb rb)
                ltac:(unfold big; lia)) as [Hs | Hs]; congruence. }
  assert (Hcall : partition_call b sd sv first count).
  { constructor; [lia | exact Hd | exact Hi | |].
    - destruct (all_below_or_one_above (points_ b) sd sv first (Z.to_nat count) Hd Hf
                  ltac:(lia)) as [Hall | (k & Hk & Ha)].
      + destruct (Z.eq_dec (first + count) (Z.of_nat (length (points_ b)))) as [Hend | Hne];
          [|left; lia].
        exfalso. rewrite (partition_loop_runs_off sd sv (points_ b) (point_infos_ b) first
                            count lb rb big Hf Hc Hn Hd) in Ebig; [discriminate | | unfold big; lia].
        left. split; [exact Hend|]. intros k Hk. apply Hall. lia.
      + right. exists k. split; [lia | exact Ha].
    - destruct (all_above_or_one_below (points_ b) sd sv first (Z.to_nat count) Hd Hf
                  ltac:(lia)) as [Hall | (k & Hk & Hb)].
      + destruct (Z.eq_dec first 0) as [Hz | Hne]; [|left; lia].
        exfalso. rewrite (partition_loop_runs_off sd sv (points_ b) (point_infos_ b) first
                            count lb rb big Hf Hc Hn Hd) in Ebig; [discriminate | | unfold big; lia].
        right. split; [exact Hz|]. intros k Hk. apply Hall. lia.
      + right. exists k. split; [lia | exact Hb]. }
  split; [exact Hcall|].
  destruct (Partition__spec b sd sv first count lb rb big Hcall ltac:(unfold big; lia))
    as (s' & E' & I & Hcross & _).
  assert (s' = s) by congruence. subst s'. split; assumption.
Qed.

(** *** The split of a node *)

(** [split_node] is the scan of [Partition_] over the range of the node,
    its assertion and the assertion of [Build_], and leaves the two children
    behind the nodes that were there. *)
Lemma split_node_eq (fuel : nat) (b : Builder Param PointInfo Stat) (node : Node Stat)
    (sd : Z) (sv : double) :
  split_node fuel b node sd sv =
  (s <- partition_loop fuel sd sv
          (mkScan (points_ b) (point_infos_ b) (begin_ node)
             (begin_ node + count_ node - 1) (Bound_Init (dim_ b)) (Bound_Init (dim_ b))) ;;
   _ <- DEBUG_ASSERT (s_left s =? s_right s + 1) ;;
   _ <- DEBUG_ASSERT (negb (s_left s - begin_ node =? 0)
                      && negb (end_ node - s_left s =? 0)) ;;
   Ret (Z.of_nat (length (nodes_ b)), Z.of_nat (length (nodes_ b)) + 1,
        set_nodes (nodes_ b ++ [left_child node (s_left s) (s_left_bound s);
                                right_child node (s_left s) (s_right_bound s)])
          (set_points (s_points s) (s_infos s) b))).
Proof.
  set (ns := nodes_ b). set (e := Bound_Init (dim_ b)).
  unfold split_node, Alloc. cbv beta iota zeta.
  cbn [nodes_ set_nodes dim_].
  replace (Z.of_nat (length (nodes_ b ++ [fresh_node])))
    with (Z.of_nat (length ns) + 1) by (unfold ns; rewrite length_app; simpl; lia).
  rewrite <- app_assoc. cbn [app]. fold ns.
  rewrite (modify_appended_l _ ns fresh_node fresh_node) by reflexivity. cbn [bind].
  rewrite (modify_appended_r _ ns (set_bound (Bound_Init (dim_ b)) fresh_node) fresh_node)
    by reflexivity. cbn [bind nodes_ set_nodes].
  rewrite read_appended_l, read_appended_r. cbn [bind set_bound bound_].
  unfold Partition_. cbn [points_ point_infos_ set_nodes]. fold e.
  destruct (partition_loop fuel sd sv _) as [s| | |]; cbn [bind]; try reflexivity.
  destruct (DEBUG_ASSERT (s_left s =? s_right s + 1)) as [u| | |]; cbn [bind];
    try reflexivity.
  cbn [p_builder p_left_bound p_right_bound split_col].
  rewrite (modify_appended_l _ ns (set_bound e fresh_node) (set_bound e fresh_node))
    by reflexivity. cbn [bind].
  rewrite (modify_appended_r _ ns _ (set_bound e fresh_node)) by reflexivity. cbn [bind].
  rewrite (modify_appended_l _ ns _ _) by reflexivity. cbn [bind].
  rewrite (modify_appended_r _ ns _ _) by reflexivity. cbn [bind nodes_ set_nodes].
  rewrite read_appended_l, read_appended_r. cbn [bind].
  unfold Node_Init, set_bound, fresh_node. cbn [count_ begin_ bound_ child0_ child1_ stat_].
  destruct (DEBUG_ASSERT _) as [u'| | |]; cbn [bind]; reflexivity.
Qed.

(** What a split of [node] at the index [split] leaves in [b']. *)
Definition split_as (b : Builder Param PointInfo Stat) (node : Node Stat)
    (b' : Builder Param PointInfo Stat) (split : Z) (lb rb : Bound) : Prop :=
  param_ b' = param_ b /\ leaf_size_ b' = leaf_size_ b /\ dim_ b' = dim_ b /\
  nodes_ b' = nodes_ b ++ [left_child node split lb; right_child node split rb] /\
  begin_ node < split < end_ node /\
  shuffled (begin_ node) (count_ node) (points_ b) (points_ b') /\
  length (point_infos_ b') = length (points_ b') /\
  tight (dim_ b) (points_ b') (begin_ node) (split - begin_ node) lb /\
  tight (dim_ b) (points_ b') split (end_ node - split) rb.

Lemma split_node_done (b : Builder Param PointInfo Stat) (node : Node Stat) (sd : Z)
    (sv : double) (s : Scan PointInfo) :
  builder_ok b ->
  scan_inv sd sv (begin_ node) (count_ node) (points_ b) (point_infos_ b)
    (Bound_Init (dim_ b)) (Bound_Init (dim_ b)) s ->
  s_left s = s_right s + 1 ->
  begin_ node < s_left s < end_ node ->
  split_as b node
    (set_nodes (nodes_ b ++ [left_child node (s_left s) (s_left_bound s);
                             right_child node (s_left s) (s_right_bound s)])
       (set_points (s_points s) (s_infos s) b))
    (s_left s) (s_left_bound s) (s_right_bound s).
Proof.
  intros Hok I Hcross Hstrict. unfold split_as.
  cbn [param_ leaf_size_ dim_ nodes_ points_ point_infos_ set_nodes set_points].
  pose proof (inv_shuffled _ _ _ _ _ _ _ _ _ I) as Hsh.
  split; [reflexivity|]. split; [reflexivity|]. split; [reflexivity|].
  split; [reflexivity|]. split; [exact Hstrict|].
  split; [exact Hsh|]. split; [apply (inv_infos_length _ _ _ _ _ _ _ _ _ I)|].
  unfold end_ in *.
  assert (Hvalid : forall f c v, in_node (s_points s) f c v -> valid_point (dim_ b) v).
  { intros f c v (k & _ & Zv). pose proof (ok_points _ Hok) as Hall.
    apply (shuffled_Forall _ _ _ _ _ Hsh) in Hall.
    rewrite Forall_forall in Hall. eapply Hall, zth_In, Zv. }
  assert (Hlen : length (s_points s) = length (points_ b)) by apply Hsh.
  pose proof (inv_cursors _ _ _ _ _ _ _ _ _ I) as Hcur.
  assert (Hin : forall k, begin_ node <= k < begin_ node + count_ node ->
                          exists v, zth (s_points s) k = Some v).
  { intros k Hk. destruct (Hsh) as (_ & _ & Hfw & _).
    destruct (Hfw k Hk) as (k' & Hk' & Ek).
    destruct (zth (points_ b) k') as [v|] eqn:Zv.
    - exists v. congruence.
    - exfalso. destruct (inv_cursors _ _ _ _ _ _ _ _ _ I) as [_ _].
      destruct (Z.lt_ge_cases k (s_left s)) as [Hl | Hg].
      + destruct (inv_below _ _ _ _ _ _ _ _ _ I k ltac:(lia)) as (x & Hx & _).
        unfold coord in Hx. rewrite Ek in Hx. discriminate.
      + destruct (inv_above _ _ _ _ _ _ _ _ _ I k ltac:(lia)) as (x & Hx & _).
        unfold coord in Hx. rewrite Ek in Hx. discriminate. }
  split.
  - apply tight_of_generated.
    + rewrite (accumulated_length _ _ _ (inv_left_acc _ _ _ _ _ _ _ _ _ I)).
      apply Bound_Init_length. pose proof (ok_dim _ Hok). lia.
    + intros v Hv. eapply Hvalid, Hv.
    + destruct (Hin (begin_ node) ltac:(lia)) as (v & Zv).
      exists v, (begin_ node). split; [lia | exact Zv].
    + intros v (k & Hk & Zv). eapply inv_left_cover; [exact I| |exact Zv]. lia.
    + eapply generated_weaken;
        [|eapply generated_accumulated;
          [exact (inv_left_acc _ _ _ _ _ _ _ _ _ I) | apply generated_Init]].
      intros v [(k0 & Hk0 & Zv0) (x & Zx & Hlt)].
      destruct (shuffled_in_node_back _ _ _ _ k0 v Hsh Hk0 Zv0) as (j & Hj & Zj).
      exists j. split; [|exact Zj].
      destruct (Z.lt_ge_cases j (s_left s)) as [Hl | Hg]; [lia|]. exfalso.
      destruct (inv_above _ _ _ _ _ _ _ _ _ I j ltac:(lia)) as (y & Hy & Hyle).
      unfold coord in Hy. rewrite Zj, Zx in Hy. inversion Hy; subst. lra.
  - apply tight_of_generated.
    + rewrite (accumulated_length _ _ _ (inv_right_acc _ _ _ _ _ _ _ _ _ I)).
      apply Bound_Init_length. pose proof (ok_dim _ Hok). lia.
    + intros v Hv. eapply Hvalid, Hv.
    + destruct (Hin (s_left s) ltac:(lia)) as (v & Zv).
      exists v, (s_left s). split; [lia | exact Zv].
    + intros v (k & Hk & Zv). eapply inv_right_cover; [exact I| |exact Zv]. lia.
    + eapply generated_weaken;
        [|eapply generated_accumulated;
          [exact (inv_right_acc _ _ _ _ _ _ _ _ _ I) | apply generated_Init]].
      intros v [(k0 & Hk0 & Zv0) (x & Zx & Hge)].
      destruct (shuffled_in_node_back _ _ _ _ k0 v Hsh Hk0 Zv0) as (j & Hj & Zj).
      exists j. split; [|exact Zj].
      destruct (Z.lt_ge_cases j (s_left s)) as [Hl | Hg]; [|lia]. exfalso.
      destruct (inv_below _ _ _ _ _ _ _ _ _ I j ltac:(lia)) as (y & Hy & Hylt).
      unfold coord in Hy. rewrite Zj, Zx in Hy. inversion Hy; subst. lra.
Qed.

(** A split returns when the range of the node holds a point below the split
    value and a point at or above it. *)
Lemma split_node_spec (fuel : nat) (b : Builder Param PointInfo Stat) (node : Node Stat)
    (sd : Z) (sv : double) :
  builder_ok b ->
  0 <= begin_ node -> 1 <= count_ node -> end_ node <= Z.of_nat (length (points_ b)) ->
  0 <= sd < dim_ b ->
  (exists k, begin_ node <= k < end_ node /\ below (points_ b) sd sv k) ->
  (exists k, begin_ node <= k < end_ node /\ at_or_above (points_ b) sd sv k) ->
  (Z.to_nat (count_ node + 1) <= fuel)%nat ->
  exists (b' : Builder Param PointInfo Stat) (split : Z) (lb rb : Bound),
    split_node fuel b node sd sv
    = Ret (Z.of_nat (length (nodes_ b)), Z.of_nat (length (nodes_ b)) + 1, b') /\
    split_as b node b' split lb rb.
Proof.
  intros Hok Hb Hc He Hsd (k1 & Hk1 & Hb1) (k2 & Hk2 & Ha2) Hfuel. unfold end_ in *.
  assert (Hcall : partition_call b sd sv (begin_ node) (count_ node)).
  { constructor.
    - lia.
    - apply builder_ok_has_dim; [exact Hok | exact Hsd].
    - apply Hok.
    - right. exists k2. split; [exact Hk2 | exact Ha2].
    - right. exists k1. split; [exact Hk1 | exact Hb1]. }
  destruct (Partition__spec b sd sv (begin_ node) (count_ node) (Bound_Init (dim_ b))
              (Bound_Init (dim_ b)) fuel Hcall Hfuel) as (s & El & I & Hcross & _).
  pose proof (inv_cursors _ _ _ _ _ _ _ _ _ I) as Hcur.
  pose proof (inv_shuffled _ _ _ _ _ _ _ _ _ I) as Hsh.
  destruct (Hb1) as (x1 & Hx1 & Hlt1). destruct (Ha2) as (x2 & Hx2 & Hle2).
  unfold coord in Hx1, Hx2.
  destruct (zth (points_ b) k1) as [v1|] eqn:Zv1; [|discriminate].
  destruct (zth (points_ b) k2) as [v2|] eqn:Zv2; [|discriminate].
  destruct (shuffled_in_node_back _ _ _ _ k1 v1 Hsh Hk1 Zv1) as (j1 & Hj1 & Zj1).
  destruct (shuffled_in_node_back _ _ _ _ k2 v2 Hsh Hk2 Zv2) as (j2 & Hj2 & Zj2).
  assert (Hj1' : j1 < s_left s).
  { destruct (Z.lt_ge_cases j1 (s_left s)) as [Hlt | Hge]; [exact Hlt|]. exfalso.
    destruct (inv_above _ _ _ _ _ _ _ _ _ I j1 ltac:(lia)) as (y & Hy & Hyle).
    unfold coord in Hy. rewrite Zj1, Hx1 in Hy. inversion Hy; subst. lra. }
  assert (Hj2' : s_left s <= j2).
  { destruct (Z.lt_ge_cases j2 (s_left s)) as [Hlt | Hge]; [|exact Hge]. exfalso.
    destruct (inv_below _ _ _ _ _ _ _ _ _ I j2 ltac:(lia)) as (y & Hy & Hylt).
    unfold coord in Hy. rewrite Zj2, Hx2 in Hy. inversion Hy; subst. lra. }
  eexists. exists (s_left s), (s_left_bound s), (s_right_bound s). split.
  - rewrite split_node_eq, El. cbn [bind]. rewrite Hcross, Z.eqb_refl.
    cbn [DEBUG_ASSERT bind]. unfold end_.
    destruct (Z.eqb_spec (s_right s + 1 - begin_ node) 0) as [E0 | _]; [lia|].
    destruct (Z.eqb_spec (begin_ node + count_ node - (s_right s + 1)) 0) as [E0 | _];
      [lia|].
    cbn [negb andb DEBUG_ASSERT bind]. rewrite <- Hcross. reflexivity.
  - apply (split_node_done b node sd sv s Hok I Hcross). unfold end_. lia.
Qed.

(** A split that returns has left two children with at least one point
    each. *)
Lemma split_node_Ret (fuel : nat) (b : Builder Param PointInfo Stat) (node : Node Stat)
    (sd : Z) (sv : double) (left_i right_i : Z) (b' : Builder Param PointInfo Stat) :
  builder_ok b ->
  0 <= begin_ node -> 1 <= count_ node -> end_ node <= Z.of_nat (length (points_ b)) ->
  0 <= sd < dim_ b ->
  split_node fuel b node sd sv = Ret (left_i, right_i, b') ->
  left_i = Z.of_nat (length (nodes_ b)) /\ right_i = Z.of_nat (length (nodes_ b)) + 1 /\
  exists (split : Z) (lb rb : Bound), split_as b node b' split lb rb.
Proof.
  intros Hok Hb Hc He Hsd E. unfold end_ in *. rewrite split_node_eq in E.
  apply bind_Ret in E as (s & El & E).
  apply bind_Ret in E as (u & Ea & E). apply bind_Ret in E as (u' & Ea' & E).
  inversion E; subst left_i right_i b'. clear E.
  split; [reflexivity|]. split; [reflexivity|].
  destruct (partition_loop_Ret b sd sv (begin_ node) (count_ node) _ _ fuel s Hb Hc He
              (builder_ok_has_dim b sd Hok Hsd) (ok_infos _ Hok) El) as (_ & I & Hcross).
  pose proof (inv_cursors _ _ _ _ _ _ _ _ _ I) as Hcur.
  unfold DEBUG_ASSERT, end_ in Ea'.
  destruct (Z.eqb_spec (s_left s - begin_ node) 0) as [E0 | Hl0];
    [cbn in Ea'; discriminate|].
  destruct (Z.eqb_spec (begin_ node + count_ node - s_left s) 0) as [E0 | Hr0];
    [cbn in Ea'; discriminate|].
  exists (s_left s), (s_left_bound s), (s_right_bound s).
  apply (split_node_done b node sd sv s Hok I Hcross). unfold end_. lia.
Qed.
(** *** Leaves, inner nodes and the invariants of a built node *)

(** [set_child] gave the node its two children. *)
Definition internal (nd : Node Stat) : bool :=
  match child0_ nd, child1_ nd with
  | Child _, Child _ => true
  | _, _ => false
  end.

(** The points of the nodes without children. *)
Definition leaf_weight (nd : Node Stat) : Z := if internal nd then 0 else count_ nd.

Definition leaf_points (ns : list (Node Stat)) : Z :=
  fold_right (fun nd acc => leaf_weight nd + acc) 0 ns.

Lemma leaf_points_app (l m : list (Node Stat)) :
  leaf_points (l ++ m) = leaf_points l + leaf_points m.
Proof.
  induction l as [|a l IH]; simpl; [reflexivity|]. rewrite IH. lia.
Qed.

(** A node of the subtree built over the range [first, first + count). *)
Record node_ok (b : Builder Param PointInfo Stat) (first count : Z) (nd : Node Stat)
  : Prop := mk_node_ok {
  nk_range : first <= begin_ nd /\ 1 <= count_ nd /\ end_ nd <= first + count;
  nk_length : Z.of_nat (length (bound_ nd)) = dim_ b;
  nk_contains :
    forall v, in_node (points_ b) (begin_ nd) (count_ nd) v -> Bound_contains (bound_ nd) v;
  nk_children :
    forall l r, child0_ nd = Child l -> child1_ nd = Child r ->
      exists (lnode rnode : Node Stat) (split : Z),
        zth (nodes_ b) l = Some lnode /\ zth (nodes_ b) r = Some rnode /\
        begin_ nd < split < end_ nd /\
        begin_ lnode = begin_ nd /\ count_ lnode = split - begin_ nd /\
        begin_ rnode = split /\ count_ rnode = end_ nd - split
}.

(** The nodes of [ns] are still in [ns'], with their ranges. *)
Definition nodes_ext (ns ns' : list (Node Stat)) : Prop :=
  forall j x, zth ns j = Some x ->
    exists x', zth ns' j = Some x' /\ begin_ x' = begin_ x /\ count_ x' = count_ x.

Lemma nodes_ext_refl (ns : list (Node Stat)) : nodes_ext ns ns.
Proof.
  intros j x Hx. exists x. auto.
Qed.

Lemma nodes_ext_trans (n1 n2 n3 : list (Node Stat)) :
  nodes_ext n1 n2 -> nodes_ext n2 n3 -> nodes_ext n1 n3.
Proof.
  intros H12 H23 j x Hx. destruct (H12 j x Hx) as (x' & Hx' & Eb & Ec).
  destruct (H23 j x' Hx') as (x'' & Hx'' & Eb' & Ec').
  exists x''. split; [exact Hx''|]. split; congruence.
Qed.

Lemma nodes_ext_app (ns extra : list (Node Stat)) : nodes_ext ns (ns ++ extra).
Proof.
  intros j x Hx. exists x. split; [|auto].
  rewrite zth_app_l; [exact Hx|]. apply zth_Some_range in Hx. lia.
Qed.

Lemma nodes_ext_zupd (ns : list (Node Stat)) (i : Z) (nd nd' : Node Stat) :
  zth ns i = Some nd -> begin_ nd' = begin_ nd -> count_ nd' = count_ nd ->
  nodes_ext ns (zupd ns i nd').
Proof.
  intros Hnd Eb Ec j x Hx. rewrite (zth_zupd ns i j nd' nd Hnd).
  destruct (Z.eqb_spec j i) as [-> | Hne].
  - exists nd'. split; [reflexivity|]. split; congruence.
  - exists x. auto.
Qed.

Lemma node_ok_preserved (b1 b2 : Builder Param PointInfo Stat) (first count : Z)
    (nd : Node Stat) :
  node_ok b1 first count nd ->
  dim_ b2 = dim_ b1 ->
  (forall v, in_node (points_ b2) (begin_ nd) (count_ nd) v ->
             in_node (points_ b1) (begin_ nd) (count_ nd) v) ->
  nodes_ext (nodes_ b1) (nodes_ b2) ->
  node_ok b2 first count nd.
Proof.
  intros [Hr Hl Hc Hk] Hdim Hin Hext. constructor; auto.
  - congruence.
  - intros l r El Er. destruct (Hk l r El Er) as (ln & rn & split & Zl & Zr & Hs & H1 & H2 & H3 & H4).
    destruct (Hext l ln Zl) as (ln' & Zl' & Eb & Ec).
    destruct (Hext r rn Zr) as (rn' & Zr' & Eb' & Ec').
    exists ln', rn', split. repeat split; try assumption; try lia; congruence.
Qed.

Lemma node_ok_widen (b : Builder Param PointInfo Stat) (first count first' count' : Z)
    (nd : Node Stat) :
  node_ok b first count nd -> first' <= first -> first + count <= first' + count' ->
  node_ok b first' count' nd.
Proof.
  intros [Hr Hl Hc Hk] H1 H2. constructor; auto. lia.
Qed.

(** *** The leaf branch and the end of the split branch *)

Lemma leaf_stat_loop_spec (b : Builder Param PointInfo Stat) (n : nat) :
  forall (i : Z) (st : Stat),
    0 <= i -> i + Z.of_nat n <= Z.of_nat (length (points_ b)) ->
    length (point_infos_ b) = length (points_ b) ->
    exists st', leaf_stat_loop n i b st = Ret st'.
Proof.
  induction n as [|n IH]; intros i st Hi Hn Hlen.
  - exists st. reflexivity.
  - destruct (read_in_range (points_ b) i ltac:(lia)) as (v & Rv & _).
    destruct (read_in_range (point_infos_ b) i ltac:(lia)) as (info & Ri & _).
    cbn [leaf_stat_loop]. rewrite Rv. cbn [bind]. rewrite Ri. cbn [bind].
    apply IH; auto; lia.
Qed.

Lemma make_leaf_spec (b : Builder Param PointInfo Stat) (node_i : Z) (nd : Node Stat) :
  zth (nodes_ b) node_i = Some nd ->
  0 <= begin_ nd -> 0 <= count_ nd -> end_ nd <= Z.of_nat (length (points_ b)) ->
  length (point_infos_ b) = length (points_ b) ->
  exists st,
    make_leaf b node_i
    = Ret (set_nodes (zupd (nodes_ b) node_i
                        (mkNode (begin_ nd) (count_ nd) (bound_ nd) NoChild NoChild st)) b).
Proof.
  intros Znd Hb Hc He Hlen. pose proof (zth_Some_range _ _ _ Znd) as Hi.
  unfold make_leaf. rewrite (modify_node_Ret b node_i set_leaf nd Znd). cbn [bind].
  cbn [nodes_ set_nodes]. unfold read at 1. rewrite zth_zupd_same by exact Hi. cbn [bind].
  unfold end_ in *. cbn [set_leaf begin_ count_ stat_].
  destruct (leaf_stat_loop_spec
              (set_nodes (zupd (nodes_ b) node_i (set_leaf nd)) b)
              (Z.to_nat (begin_ nd + count_ nd - begin_ nd)) (begin_ nd) (stat_ nd))
    as (st & Est); cbn [points_ point_infos_ set_nodes]; try lia.
  rewrite Est. cbn [bind].
  rewrite (modify_node_Ret _ node_i _ (set_leaf nd))
    by (cbn [nodes_ set_nodes]; apply zth_zupd_same; exact Hi).
  cbn [bind nodes_ set_nodes]. rewrite zupd_zupd.
  rewrite (modify_node_Ret _ node_i _ (set_stat st (set_leaf nd)))
    by (cbn [nodes_ set_nodes]; apply zth_zupd_same; exact Hi).
  cbn [nodes_ set_nodes]. rewrite zupd_zupd.
  eexists. reflexivity.
Qed.

Lemma join_node_spec (b : Builder Param PointInfo Stat) (node_i left_i right_i : Z)
    (nd lnode rnode : Node Stat) :
  zth (nodes_ b) node_i = Some nd ->
  zth (nodes_ b) left_i = Some lnode -> zth (nodes_ b) right_i = Some rnode ->
  node_i <> left_i -> node_i <> right_i ->
  exists st,
    join_node b node_i left_i right_i
    = Ret (set_nodes (zupd (nodes_ b) node_i
                        (mkNode (begin_ nd) (count_ nd) (bound_ nd)
                                (Child left_i) (Child right_i) st)) b).
Proof.
  intros Znd Zl Zr Hnl Hnr. pose proof (zth_Some_range _ _ _ Znd) as Hi.
  unfold join_node.
  rewrite (modify_node_Ret b node_i _ nd Znd). cbn [bind].
  rewrite (modify_node_Ret _ node_i _ (set_child 0 left_i nd))
    by (cbn [nodes_ set_nodes]; apply zth_zupd_same; exact Hi).
  cbn [bind nodes_ set_nodes]. rewrite zupd_zupd.
  unfold read. rewrite !zth_zupd_other by assumption. rewrite Zl, Zr. cbn [bind].
  rewrite (modify_node_Ret _ node_i _ (set_child 1 right_i (set_child 0 left_i nd)))
    by (cbn [nodes_ set_nodes]; apply zth_zupd_same; exact Hi).
  cbn [bind nodes_ set_nodes]. rewrite zupd_zupd.
  rewrite (modify_node_Ret _ node_i _ _)
    by (cbn [nodes_ set_nodes]; apply zth_zupd_same; exact Hi).
  cbn [bind nodes_ set_nodes]. rewrite zupd_zupd.
  rewrite (modify_node_Ret _ node_i _ _)
    by (cbn [nodes_ set_nodes]; apply zth_zupd_same; exact Hi).
  cbn [nodes_ set_nodes]. rewrite zupd_zupd.
  eexists. reflexivity.
Qed.

(** *** [Build_] *)

Lemma Build__S (uninit : Z -> bool) (fuel : nat) (b : Builder Param PointInfo Stat)
    (node_i : Z) :
  Build_ BIG_BAD_NUMBER range_width range_mid uninit (S fuel) b node_i =
  (node <- read (nodes_ b) node_i ;;
   b1 <- modify_node node_i (fun n => set_stat (stat_Init (param_ b) (stat_ n)) n) b ;;
   r <- (if count_ node >? leaf_size_ b1 then
           ms <- widest range_width (Z.to_nat (dim_ b1)) 0 (bound_ node) (-1)%Q
                   BIG_BAD_NUMBER ;;
           rg <- Bound_get (bound_ node) (snd ms) ;;
           if Qneq_b (fst ms) 0 then
             lrb <- split_node (S fuel) b1 node (snd ms) (range_mid rg) ;;
             b3 <- Build_ BIG_BAD_NUMBER range_width range_mid uninit fuel (snd lrb)
                     (fst (fst lrb)) ;;
             b4 <- Build_ BIG_BAD_NUMBER range_width range_mid uninit fuel b3
                     (snd (fst lrb)) ;;
             b5 <- join_node b4 node_i (fst (fst lrb)) (snd (fst lrb)) ;;
             Ret (b5, false)
           else Ret (b1, uninit node_i)
         else Ret (b1, uninit node_i)) ;;
   if snd r then make_leaf (fst r) node_i else Ret (fst r)).
Proof.
  cbn [Build_]. unfold bind.
  destruct (read (nodes_ b) node_i); try reflexivity.
  destruct (modify_node node_i _ b); try reflexivity.
  destruct (count_ a >? leaf_size_ a0); try reflexivity.
  destruct (widest _ _ _ _ _ _) as [[mw sd]| | |]; try reflexivity.
  cbn [fst snd].
  destruct (Bound_get _ _); try reflexivity.
  destruct (Qneq_b mw 0); try reflexivity.
  destruct (split_node _ _ _ _ _) as [[[l r] b2]| | |]; reflexivity.
Qed.

(** What a call [Build_(node_i)] that returns [b'] has done to the builder
    [b] in which [nodes_[node_i]] was [node]: the points of the node's range
    are rearranged inside it, the node keeps its range and its bound, the
    nodes [extra] of its subtree are appended, and nothing else changes. *)
Record built (b : Builder Param PointInfo Stat) (node_i : Z) (node : Node Stat)
    (b' : Builder Param PointInfo Stat) (node' : Node Stat) (extra : list (Node Stat))
  : Prop := mk_built {
  bt_param : param_ b' = param_ b;
  bt_leaf_size : leaf_size_ b' = leaf_size_ b;
  bt_dim : dim_ b' = dim_ b;
  bt_points : shuffled (begin_ node) (count_ node) (points_ b) (points_ b');
  bt_infos : length (point_infos_ b') = length (points_ b');
  bt_nodes : nodes_ b' = zupd (nodes_ b) node_i node' ++ extra;
  bt_same : begin_ node' = begin_ node /\ count_ node' = count_ node /\
            bound_ node' = bound_ node;
  bt_ok : forall nd, nd = node' \/ In nd extra ->
                     node_ok b' (begin_ node) (count_ node) nd;
  bt_leaves : leaf_weight node' + leaf_points extra = count_ node
}.

Lemma finish_unsplit (b : Builder Param PointInfo Stat) (node_i : Z) (node : Node Stat)
    (leaf : bool) (st1 : Stat) :
  builder_ok b -> zth (nodes_ b) node_i = Some node ->
  0 <= begin_ node -> 1 <= count_ node -> end_ node <= Z.of_nat (length (points_ b)) ->
  tight (dim_ b) (points_ b) (begin_ node) (count_ node) (bound_ node) ->
  internal node = false ->
  exists b' node',
    (if leaf then make_leaf (set_nodes (zupd (nodes_ b) node_i (set_stat st1 node)) b) node_i
     else Ret (set_nodes (zupd (nodes_ b) node_i (set_stat st1 node)) b)) = Ret b' /\
    built b node_i node b' node' [] /\
    nodes_ b' = zupd (nodes_ b) node_i node' /\
    points_ b' = points_ b /\ point_infos_ b' = point_infos_ b /\
    child0_ node' = (if leaf then NoChild else child0_ node) /\
    child1_ node' = (if leaf then NoChild else child1_ node).
Proof.
  intros Hok Znd Hb Hc He Ht Hint. pose proof (zth_Some_range _ _ _ Znd) as Hi.
  set (b1 := set_nodes (zupd (nodes_ b) node_i (set_stat st1 node)) b).
  assert (Hfin : forall b' node',
             nodes_ b' = zupd (nodes_ b) node_i node' ->
             param_ b' = param_ b -> leaf_size_ b' = leaf_size_ b -> dim_ b' = dim_ b ->
             points_ b' = points_ b -> point_infos_ b' = point_infos_ b ->
             begin_ node' = begin_ node -> count_ node' = count_ node ->
             bound_ node' = bound_ node -> internal node' = false ->
             built b node_i node b' node' []).
  { intros b' node' En Ep El Ed Epts Einf Eb Ec Ebd Hint'. constructor; auto.
    - rewrite Epts. apply shuffled_refl.
    - rewrite Epts, Einf. apply Hok.
    - rewrite app_nil_r. exact En.
    - intros nd [-> | []]. constructor.
      + unfold end_ in *. rewrite Eb, Ec. lia.
      + rewrite Ebd, Ed. apply (tight_length _ _ _ _ _ Ht).
      + intros v Hv. rewrite Ebd. apply (tight_contains _ _ _ _ _ Ht).
        rewrite Epts, Eb, Ec in Hv. exact Hv.
      + intros l r El0 Er0. unfold internal in Hint'. rewrite El0, Er0 in Hint'.
        discriminate.
    - unfold leaf_weight. rewrite Hint'. simpl. lia. }
  destruct leaf.
  - destruct (make_leaf_spec b1 node_i (set_stat st1 node)) as (st & E);
      cbn [b1 nodes_ set_nodes points_ point_infos_ set_stat begin_ count_]; auto.
    { apply zth_zupd_same. exact Hi. }
    { lia. }
    { apply Hok. }
    rewrite E. cbn [b1 nodes_ set_nodes set_stat begin_ count_ bound_].
    rewrite zupd_zupd. eexists. eexists. split; [reflexivity|].
    split; [|repeat split; reflexivity].
    apply Hfin; reflexivity.
  - exists b1, (set_stat st1 node). split; [reflexivity|].
    split; [|repeat split; reflexivity].
    apply Hfin; try reflexivity. exact Hint.
Qed.

Lemma built_nodes_ext (b : Builder Param PointInfo Stat) (node_i : Z) (node : Node Stat)
    (b' : Builder Param PointInfo Stat) (node' : Node Stat) (extra : list (Node Stat)) :
  zth (nodes_ b) node_i = Some node -> built b node_i node b' node' extra ->
  nodes_ext (nodes_ b) (nodes_ b').
Proof.
  intros Znd B. rewrite (bt_nodes _ _ _ _ _ _ B).
  destruct (bt_same _ _ _ _ _ _ B) as (Eb & Ec & _).
  eapply nodes_ext_trans; [|apply nodes_ext_app].
  eapply nodes_ext_zupd; eauto.
Qed.

Lemma Qneq_b_true (a b : double) : Qneq_b a b = true -> ~ (a == b)%Q.
Proof.
  unfold Qneq_b. rewrite negb_true_iff. apply Qeq_bool_neq.
Qed.


(** The nodes without children. *)
Definition leaf_count (ns : list (Node Stat)) : nat :=
  length (filter (fun nd => negb (internal nd)) ns).

Lemma leaf_count_cons (nd : Node Stat) (ns : list (Node Stat)) :
  leaf_count (nd :: ns) = ((if internal nd then 0 else 1) + leaf_count ns)%nat.
Proof.
  unfold leaf_count. cbn [filter]. destruct (internal nd); reflexivity.
Qed.

Lemma leaf_count_app (l m : list (Node Stat)) :
  leaf_count (l ++ m) = (leaf_count l + leaf_count m)%nat.
Proof.
  unfold leaf_count. rewrite filter_app, length_app. reflexivity.
Qed.

(** [mw] is the [max_width] that the loop of [Build_] over the [dim]
    dimensions of [bound] ends with. *)
Definition max_width (dim : Z) (bound : Bound) (mw : double) : Prop :=
  exists sd,
    widest range_width (Z.to_nat dim) 0 bound (-1)%Q BIG_BAD_NUMBER = Ret (mw, sd).

(** What [Build_] leaves at a node [nd] of the tree in the builder [b']:
    the bound of the node is the bounding box of its points; a node that was
    split had more points than the leaf size and a [max_width] other than
    zero; a node that was not split has at most [leaf_size_] points or a
    [max_width] of zero. *)
Record node_done (b' : Builder Param PointInfo Stat) (nd : Node Stat) : Prop :=
  mk_node_done {
  nd_tight : tight (dim_ b') (points_ b') (begin_ nd) (count_ nd) (bound_ nd);
  nd_split :
    internal nd = true ->
    leaf_size_ b' < count_ nd /\
    exists mw, max_width (dim_ b') (bound_ nd) mw /\ ~ (mw == 0)%Q;
  nd_unsplit :
    internal nd = false ->
    count_ nd <= leaf_size_ b' \/
    exists mw, max_width (dim_ b') (bound_ nd) mw /\ (mw == 0)%Q
}.

Lemma node_done_preserved (b1 b2 : Builder Param PointInfo Stat) (nd : Node Stat) :
  node_done b1 nd ->
  dim_ b2 = dim_ b1 -> leaf_size_ b2 = leaf_size_ b1 ->
  (forall v, in_node (points_ b2) (begin_ nd) (count_ nd) v <->
             in_node (points_ b1) (begin_ nd) (count_ nd) v) ->
  node_done b2 nd.
Proof.
  intros [T S U] Ed El Hin. constructor.
  - rewrite Ed. eapply tight_ext; [exact Hin | exact T].
  - rewrite El, Ed. exact S.
  - rewrite El, Ed. exact U.
Qed.

(** The two links of a node without children that the call [Build_(j)]
    left: both are what the unassigned [leaf] of that call made of them. *)
Definition marked (uninit : Z -> bool) (j : Z) (nd : Node Stat) : Prop :=
  internal nd = false ->
  child0_ nd = (if uninit j then NoChild else Unset) /\
  child1_ nd = (if uninit j then NoChild else Unset).

(** What the call [Build_(node_i)] on the builder [b] has decided at the
    node and at the nodes [extra] behind the nodes of [b]. *)
Definition done (uninit : Z -> bool) (b : Builder Param PointInfo Stat) (node_i : Z)
    (b' : Builder Param PointInfo Stat) (node' : Node Stat) (extra : list (Node Stat))
  : Prop :=
  (forall nd, nd = node' \/ In nd extra -> node_done b' nd) /\
  (length extra + 2 = 2 * leaf_count (node' :: extra))%nat /\
  marked uninit node_i node' /\
  (forall k nd, nth_error extra k = Some nd ->
                marked uninit (Z.of_nat (length (nodes_ b)) + Z.of_nat k) nd).

(** The branch of [Build_] that does not split. *)
Lemma finish_unsplit_done (uninit : Z -> bool) (b : Builder Param PointInfo Stat)
    (node_i : Z) (node : Node Stat) (st1 : Stat) :
  builder_ok b -> zth (nodes_ b) node_i = Some node ->
  0 <= begin_ node -> 1 <= count_ node -> end_ node <= Z.of_nat (length (points_ b)) ->
  tight (dim_ b) (points_ b) (begin_ node) (count_ node) (bound_ node) ->
  child0_ node = Unset -> child1_ node = Unset ->
  (count_ node <= leaf_size_ b \/
   exists mw, max_width (dim_ b) (bound_ node) mw /\ (mw == 0)%Q) ->
  exists b' node',
    (if uninit node_i
     then make_leaf (set_nodes (zupd (nodes_ b) node_i (set_stat st1 node)) b) node_i
     else Ret (set_nodes (zupd (nodes_ b) node_i (set_stat st1 node)) b)) = Ret b' /\
    built b node_i node b' node' [] /\ done uninit b node_i b' node' [].
Proof.
  intros Hok Znd Hb Hc He Ht Hc0 Hc1 Hwhy.
  assert (Hint : internal node = false) by (unfold internal; rewrite Hc0; reflexivity).
  destruct (finish_unsplit b node_i node (uninit node_i) st1 Hok Znd Hb Hc He Ht Hint)
    as (b' & node' & E & B & En & Ep & Einf & E0 & E1).
  assert (Hint' : internal node' = false).
  { unfold internal. rewrite E0, Hc0. destruct (uninit node_i); reflexivity. }
  exists b', node'. split; [exact E|]. split; [exact B|].
  destruct (bt_same _ _ _ _ _ _ B) as (Eb & Ec & Ebd).
  split; [|split; [|split]].
  - intros nd [-> | []]. constructor.
    + rewrite Eb, Ec, Ebd, Ep, (bt_dim _ _ _ _ _ _ B). exact Ht.
    + intros Hi'. congruence.
    + intros _. rewrite Ec, Ebd, (bt_leaf_size _ _ _ _ _ _ B), (bt_dim _ _ _ _ _ _ B).
      exact Hwhy.
  - rewrite leaf_count_cons, Hint'. reflexivity.
  - intros _. rewrite E0, E1, Hc0, Hc1. split; reflexivity.
  - intros k nd Hk. destruct k; discriminate Hk.
Qed.

(** After the split, the left child is ready for its call. *)
Lemma left_ready (b1 : Builder Param PointInfo Stat) (node : Node Stat)
    (b2 : Builder Param PointInfo Stat) (split : Z) (lb rb : Bound) :
  builder_ok b1 ->
  0 <= begin_ node -> end_ node <= Z.of_nat (length (points_ b1)) ->
  split_as b1 node b2 split lb rb ->
  builder_ok b2 /\
  zth (nodes_ b2) (Z.of_nat (length (nodes_ b1))) = Some (left_child node split lb) /\
  end_ (left_child node split lb) <= Z.of_nat (length (points_ b2)) /\
  tight (dim_ b2) (points_ b2) (begin_ node) (split - begin_ node) lb.
Proof.
  intros Hok Hb He (Ep2 & El2 & Ed2 & En2 & Hsplit & Hsh2 & Hinf2 & HtL & HtR).
  unfold end_ in *. cbn [left_child begin_ count_].
  assert (HN2 : length (points_ b2) = length (points_ b1)) by (apply Hsh2).
  split.
  { constructor.
    - rewrite Ed2. apply Hok.
    - rewrite Ed2. eapply shuffled_Forall; [exact Hsh2 | apply Hok].
    - exact Hinf2. }
  split.
  { rewrite En2, zth_app_r by lia. rewrite Z.sub_diag. reflexivity. }
  split; [lia|]. rewrite Ed2. exact HtL.
Qed.

(** After the call on the left child, the right child is ready for its
    call. *)
Lemma right_ready (b1 : Builder Param PointInfo Stat) (node : Node Stat)
    (b2 b3 : Builder Param PointInfo Stat) (split : Z) (lb rb : Bound) (L' : Node Stat)
    (extraL : list (Node Stat)) :
  builder_ok b1 ->
  0 <= begin_ node -> end_ node <= Z.of_nat (length (points_ b1)) ->
  split_as b1 node b2 split lb rb ->
  built b2 (Z.of_nat (length (nodes_ b1))) (left_child node split lb) b3 L' extraL ->
  builder_ok b3 /\
  zth (nodes_ b3) (Z.of_nat (length (nodes_ b1)) + 1) = Some (right_child node split rb) /\
  end_ (right_child node split rb) <= Z.of_nat (length (points_ b3)) /\
  tight (dim_ b3) (points_ b3) split (end_ node - split) rb /\
  nodes_ b3 = (nodes_ b1 ++ [L'; right_child node split rb]) ++ extraL.
Proof.
  intros Hok Hb He Hsp B3.
  destruct (left_ready b1 node b2 split lb rb Hok Hb He Hsp) as (Hok2 & ZL & _ & _).
  destruct Hsp as (Ep2 & El2 & Ed2 & En2 & Hsplit & Hsh2 & Hinf2 & HtL & HtR).
  destruct B3 as [Ep3 El3 Ed3 Hsh3 Hinf3 En3 (EbL & EcL & EbdL) HokL HlvL].
  cbn [left_child begin_ count_ bound_] in Hsh3.
  unfold end_ in *. cbn [right_child begin_ count_].
  assert (HN2 : length (points_ b2) = length (points_ b1)) by (apply Hsh2).
  assert (HN3 : length (points_ b3) = length (points_ b2)) by (apply Hsh3).
  assert (N3 : nodes_ b3 = (nodes_ b1 ++ [L'; right_child node split rb]) ++ extraL).
  { rewrite En3, En2. rewrite zupd_app_r by lia. rewrite Z.sub_diag. reflexivity. }
  split.
  { constructor.
    - rewrite Ed3. apply Hok2.
    - rewrite Ed3. eapply shuffled_Forall; [exact Hsh3 | apply Hok2].
    - exact Hinf3. }
  split.
  { rewrite N3. rewrite zth_app_l by (rewrite length_app; simpl; lia).
    rewrite zth_app_r by lia.
    replace (Z.of_nat (length (nodes_ b1)) + 1 - Z.of_nat (length (nodes_ b1))) with 1
      by lia.
    reflexivity. }
  split; [unfold end_; cbn [begin_ count_]; lia|].
  split; [|exact N3].
  rewrite Ed3, Ed2. eapply tight_ext; [|exact HtR].
  intros v. apply in_node_shuffled_apart with (f := begin_ node) (c := split - begin_ node);
    [exact Hsh3 | lia].
Qed.

(** After the two calls, [join_node] returns, and the node and its subtree
    are as [built] and [done] say. *)
Lemma split_joined (uninit : Z -> bool) (b : Builder Param PointInfo Stat) (node_i : Z)
    (node : Node Stat) (st1 : Stat) (b2 b3 b4 : Builder Param PointInfo Stat) (split : Z)
    (lb rb : Bound) (L' R' : Node Stat) (extraL extraR : list (Node Stat)) (mw : double) :
  builder_ok b -> zth (nodes_ b) node_i = Some node ->
  0 <= begin_ node -> 1 <= count_ node -> end_ node <= Z.of_nat (length (points_ b)) ->
  tight (dim_ b) (points_ b) (begin_ node) (count_ node) (bound_ node) ->
  leaf_size_ b < count_ node -> max_width (dim_ b) (bound_ node) mw -> ~ (mw == 0)%Q ->
  split_as (set_nodes (zupd (nodes_ b) node_i (set_stat st1 node)) b) node b2 split lb rb ->
  built b2 (Z.of_nat (length (nodes_ b))) (left_child node split lb) b3 L' extraL ->
  done uninit b2 (Z.of_nat (length (nodes_ b))) b3 L' extraL ->
  built b3 (Z.of_nat (length (nodes_ b)) + 1) (right_child node split rb) b4 R' extraR ->
  done uninit b3 (Z.of_nat (length (nodes_ b)) + 1) b4 R' extraR ->
  exists b5 node5,
    join_node b4 node_i (Z.of_nat (length (nodes_ b))) (Z.of_nat (length (nodes_ b)) + 1)
    = Ret b5 /\
    built b node_i node b5 node5 ([L'; R'] ++ extraL ++ extraR) /\
    done uninit b node_i b5 node5 ([L'; R'] ++ extraL ++ extraR).
Proof.
  intros Hok Znd Hb Hc He Ht Ecnt Hmw Eq Hsp B3 D3 B4 D4.
  pose proof (zth_Some_range _ _ _ Znd) as Hi.
  set (node1 := set_stat st1 node) in *.
  set (b1 := set_nodes (zupd (nodes_ b) node_i node1) b) in *.
  assert (Hok1 : builder_ok b1) by (destruct Hok; constructor; assumption).
  set (ns1 := zupd (nodes_ b) node_i node1) in *.
  assert (Hlen1 : Z.of_nat (length ns1) = Z.of_nat (length (nodes_ b)))
    by (unfold ns1; rewrite zupd_length; reflexivity).
  rewrite <- Hlen1 in *.
  change ns1 with (nodes_ b1) in B3, B4, D3, D4 |- *.
  destruct (right_ready b1 node b2 b3 split lb rb L' extraL Hok1 Hb He Hsp B3)
    as (Hok3 & ZR & _ & _ & N3).
  destruct Hsp as (Ep2 & El2 & Ed2 & En2 & Hsplit & Hsh2 & Hinf2 & HtL & HtR).
  change (points_ b1) with (points_ b) in *. change (dim_ b1) with (dim_ b) in *.
  change (param_ b1) with (param_ b) in *. change (leaf_size_ b1) with (leaf_size_ b) in *.
  change (nodes_ b1) with ns1 in *.
  set (len := Z.of_nat (length ns1)) in *.
  set (L := left_child node split lb) in *. set (R := right_child node split rb) in *.
  unfold end_ in *.
  assert (HN2 : length (points_ b2) = length (points_ b)) by (apply Hsh2).
  destruct D3 as (G3 & C3 & M3 & MX3). destruct D4 as (G4 & C4 & M4 & MX4).
  destruct B3 as [Ep3 El3 Ed3 Hsh3 Hinf3 En3 (EbL & EcL & EbdL) HokL HlvL].
  cbn [L left_child begin_ count_ bound_] in Hsh3, EbL, EcL, EbdL, HokL, HlvL.
  assert (HN3 : length (points_ b3) = length (points_ b2)) by (apply Hsh3).
  destruct B4 as [Ep4 El4 Ed4 Hsh4 Hinf4 En4 (EbR & EcR & EbdR) HokR HlvR].
  cbn [R right_child begin_ count_ bound_] in Hsh4, EbR, EcR, EbdR, HokR, HlvR.
  unfold end_ in *.
  assert (N4 : nodes_ b4 = ((ns1 ++ [L'; R']) ++ extraL) ++ extraR).
  { rewrite En4, N3.
    rewrite zupd_app_l by (rewrite length_app; simpl; unfold len; lia).
    rewrite zupd_app_r by (unfold len; lia).
    replace (len + 1 - Z.of_nat (length ns1)) with 1 by (unfold len; lia). reflexivity. }
  (* the children are linked to the node *)
  assert (Z1 : zth ns1 node_i = Some node1)
    by (apply zth_zupd_same; exact (zth_Some_range _ _ _ Znd)).
  assert (Znd4 : zth (nodes_ b4) node_i = Some node1).
  { rewrite N4. rewrite !zth_app_l; [exact Z1 | | |];
      rewrite ?length_app; simpl; lia. }
  assert (ZL4 : zth (nodes_ b4) len = Some L').
  { rewrite N4. rewrite !zth_app_l by (rewrite ?length_app; simpl; unfold len; lia).
    rewrite zth_app_r by (unfold len; lia). unfold len. rewrite Z.sub_diag. reflexivity. }
  assert (ZR4 : zth (nodes_ b4) (len + 1) = Some R').
  { rewrite N4. rewrite !zth_app_l by (rewrite ?length_app; simpl; unfold len; lia).
    rewrite zth_app_r by (unfold len; lia).
    replace (len + 1 - Z.of_nat (length ns1)) with 1 by (unfold len; lia). reflexivity. }
  destruct (join_node_spec b4 node_i len (len + 1) node1 L' R' Znd4 ZL4 ZR4
              ltac:(unfold len; lia) ltac:(unfold len; lia)) as (st5 & E5).
  rewrite E5.
  cbn [node1 set_stat begin_ count_ bound_].
  set (node5 := mkNode (begin_ node) (count_ node) (bound_ node)
                       (Child len) (Child (len + 1)) st5).
  set (b5 := set_nodes (zupd (nodes_ b4) node_i node5) b4).
  assert (N5 : nodes_ b5 = zupd (nodes_ b) node_i node5 ++ ([L'; R'] ++ extraL ++ extraR)).
  { unfold b5. cbn [nodes_ set_nodes]. rewrite N4.
    rewrite !zupd_app_l by (rewrite ?length_app; simpl; lia).
    unfold ns1. rewrite zupd_zupd. rewrite <- !app_assoc. reflexivity. }
  assert (Hext45 : nodes_ext (nodes_ b4) (nodes_ b5)).
  { unfold b5. cbn [nodes_ set_nodes].
    eapply nodes_ext_zupd; [exact Znd4 | reflexivity | reflexivity]. }
  assert (Hext35 : nodes_ext (nodes_ b3) (nodes_ b5)).
  { eapply nodes_ext_trans; [|exact Hext45]. rewrite En4.
    eapply nodes_ext_trans; [|apply nodes_ext_app].
    eapply nodes_ext_zupd; [exact ZR | exact EbR | exact EcR]. }
  exists b5, node5. split; [reflexivity|].
  assert (Hcases : forall nd, nd = node5 \/ In nd ([L'; R'] ++ extraL ++ extraR) ->
            nd = node5 \/ (nd = L' \/ In nd extraL) \/ (nd = R' \/ In nd extraR)).
  { intros nd [-> | Hin]; [left; reflexivity|]. right.
    cbn [app] in Hin. destruct Hin as [<- | [<- | Hin]]; auto.
    apply in_app_or in Hin. destruct Hin; auto. }
  split; [|split; [|split; [|split]]].
  2:{ intros nd Hnd. destruct (Hcases nd Hnd) as [-> | [HL | HR]].
      - constructor; unfold node5, b5;
          cbn [begin_ count_ bound_ child0_ child1_ dim_ leaf_size_ points_ nodes_ set_nodes].
        + rewrite Ed4, Ed3, Ed2. eapply tight_ext; [|exact Ht]. intros v. split; intros Hv.
          * eapply in_node_shuffled_inside; [exact Hsh2 | lia | lia |].
            eapply in_node_shuffled_inside; [exact Hsh3 | lia | lia |].
            eapply in_node_shuffled_inside; [exact Hsh4 | lia | lia |]. exact Hv.
          * eapply in_node_shuffled_inside_back; [exact Hsh4 | lia | lia |].
            eapply in_node_shuffled_inside_back; [exact Hsh3 | lia | lia |].
            eapply in_node_shuffled_inside_back; [exact Hsh2 | lia | lia |]. exact Hv.
        + intros _. rewrite El4, El3, El2, Ed4, Ed3, Ed2. split; [lia|]. exists mw.
          split; [exact Hmw | exact Eq].
        + intros Hf. discriminate Hf.
      - pose proof (HokL nd HL) as Hnk.
        destruct (nk_range _ _ _ _ Hnk) as (Hr1 & Hr2 & Hr3). unfold end_ in Hr3.
        eapply node_done_preserved; [exact (G3 nd HL) | exact Ed4 | exact El4 |].
        intros v. unfold b5. cbn [points_ set_nodes].
        apply (in_node_shuffled_apart (points_ b3) (points_ b4) (begin_ nd) (count_ nd)
                 split (begin_ node + count_ node - split) v Hsh4). lia.
      - eapply node_done_preserved; [exact (G4 nd HR) | reflexivity | reflexivity |].
        intros v. reflexivity. }
  2:{ cbn [app length]. rewrite length_app.
      rewrite leaf_count_cons. cbn [app]. rewrite !leaf_count_cons, leaf_count_app.
      rewrite !leaf_count_cons in C3, C4.
      replace (internal node5) with true by reflexivity. lia. }
  2:{ intros Hf. discriminate Hf. }
  2:{ intros k nd Hk.
      assert (Hb2 : Z.of_nat (length (nodes_ b2)) = len + 2).
      { rewrite En2, length_app. simpl. unfold len. lia. }
      assert (Hb3 : Z.of_nat (length (nodes_ b3)) = len + 2 + Z.of_nat (length extraL)).
      { rewrite N3, !length_app. simpl. unfold len. lia. }
      rewrite Hlen1 in Hb2, Hb3.
      destruct k as [|[|k]]; cbn [app nth_error] in Hk.
      - inversion Hk; subst nd. rewrite Z.add_0_r. rewrite Hlen1 in M3. exact M3.
      - inversion Hk; subst nd. rewrite Hlen1 in M4. exact M4.
      - destruct (Nat.lt_ge_cases k (length extraL)) as [Hlt | Hge].
        + rewrite nth_error_app1 in Hk by exact Hlt.
          specialize (MX3 k nd Hk). rewrite Hb2 in MX3.
          replace (Z.of_nat (length (nodes_ b)) + Z.of_nat (S (S k)))
            with (Z.of_nat (length (nodes_ b)) + 2 + Z.of_nat k) by lia.
          exact MX3.
        + rewrite nth_error_app2 in Hk by exact Hge.
          specialize (MX4 _ nd Hk). rewrite Hb3 in MX4.
          replace (Z.of_nat (length (nodes_ b)) + Z.of_nat (S (S k)))
            with (Z.of_nat (length (nodes_ b)) + 2 + Z.of_nat (length extraL)
                  + Z.of_nat (k - length extraL)) by lia.
          exact MX4. }
  constructor.
  - unfold b5. cbn [param_ set_nodes]. congruence.
  - unfold b5. cbn [leaf_size_ set_nodes]. congruence.
  - unfold b5. cbn [dim_ set_nodes]. congruence.
  - unfold b5. cbn [points_ set_nodes].
    eapply shuffled_trans; [exact Hsh2|].
    eapply shuffled_trans.
    + eapply shuffled_widen; [| |exact Hsh3]; lia.
    + eapply shuffled_widen; [| |exact Hsh4]; lia.
  - exact Hinf4.
  - exact N5.
  - repeat split; reflexivity.
  - intros nd Hnd.
    destruct (Hcases nd Hnd) as [-> | [HL | HR]].
    + (* the node itself *)
      constructor; unfold node5, b5;
        cbn [begin_ count_ bound_ child0_ child1_ dim_ points_ nodes_ set_nodes].
      * unfold end_. cbn [begin_ count_]. lia.
      * rewrite Ed4, Ed3, Ed2. apply (tight_length _ _ _ _ _ Ht).
      * intros v Hv. apply (tight_contains _ _ _ _ _ Ht).
        eapply in_node_shuffled_inside; [exact Hsh2 | lia | lia |].
        eapply in_node_shuffled_inside; [exact Hsh3 | lia | lia |].
        eapply in_node_shuffled_inside; [exact Hsh4 | lia | lia |]. exact Hv.
      * intros l r El Er. inversion El; inversion Er; subst l r.
        exists L', R', split. unfold end_. cbn [begin_ count_].
        split; [rewrite zth_zupd_other by (unfold len; lia); exact ZL4|].
        split; [rewrite zth_zupd_other by (unfold len; lia); exact ZR4|].
        repeat split; try lia; congruence.
    + (* the left subtree *)
      apply node_ok_widen with (first := begin_ node) (count := split - begin_ node); try lia.
      pose proof (HokL nd HL) as Hnk.
      eapply node_ok_preserved; [exact Hnk | | | exact Hext35].
      * unfold b5. cbn [dim_ set_nodes]. exact Ed4.
      * intros v Hv. unfold b5 in Hv. cbn [points_ set_nodes] in Hv.
        destruct (nk_range _ _ _ _ Hnk) as (Hr1 & Hr2 & Hr3). unfold end_ in Hr3.
        apply (in_node_shuffled_apart (points_ b3) (points_ b4) (begin_ nd) (count_ nd)
                 split (begin_ node + count_ node - split) v Hsh4); [lia | exact Hv].
    + (* the right subtree *)
      apply node_ok_widen with (first := split) (count := begin_ node + count_ node - split);
        try lia.
      pose proof (HokR nd HR) as Hnk.
      eapply node_ok_preserved; [exact Hnk | reflexivity | | exact Hext45].
      intros v Hv. exact Hv.
  - unfold leaf_weight at 1. unfold node5. unfold internal at 1. cbn [child0_ child1_].
    rewrite !leaf_points_app. cbn [leaf_points fold_right]. lia.
Qed.

(** A call [Build_(node_i)] that returns has built the subtree of the
    node: whatever [width()] and [mid()] compute, a split that passed the
    assertion left two children with at least one point each. *)
Lemma Build__Ret (uninit : Z -> bool) (fuel : nat) :
  forall (b : Builder Param PointInfo Stat) (node_i : Z) (node : Node Stat)
         (b' : Builder Param PointInfo Stat),
    builder_ok b -> zth (nodes_ b) node_i = Some node ->
    0 <= begin_ node -> 1 <= count_ node -> end_ node <= Z.of_nat (length (points_ b)) ->
    tight (dim_ b) (points_ b) (begin_ node) (count_ node) (bound_ node) ->
    child0_ node = Unset -> child1_ node = Unset ->
    Build_ BIG_BAD_NUMBER range_width range_mid uninit fuel b node_i = Ret b' ->
    exists node' extra,
      built b node_i node b' node' extra /\ done uninit b node_i b' node' extra.
Proof.
  induction fuel as [|fuel IH]; intros b node_i node b' Hok Znd Hb Hc He Ht Hc0 Hc1 E;
    [discriminate E|].
  rewrite Build__S in E.
  assert (Rnd : read (nodes_ b) node_i = Ret node) by (apply read_Ret; exact Znd).
  rewrite Rnd in E. cbn [bind] in E.
  rewrite (modify_node_Ret b node_i _ node Znd) in E. cbn [bind] in E.
  set (st1 := stat_Init (param_ b) (stat_ node)) in *.
  set (b1 := set_nodes (zupd (nodes_ b) node_i (set_stat st1 node)) b) in *.
  apply bind_Ret in E as (r & Er & Efin).
  assert (Hunsplit :
            (count_ node <= leaf_size_ b \/
             exists mw, max_width (dim_ b) (bound_ node) mw /\ (mw == 0)%Q) ->
            Ret (b1, uninit node_i) = Ret r ->
            exists node' extra,
              built b node_i node b' node' extra /\ done uninit b node_i b' node' extra).
  { intros Hwhy Er'. inversion Er'; subst r. cbn [fst snd] in Efin.
    destruct (finish_unsplit_done uninit b node_i node st1 Hok Znd Hb Hc He Ht Hc0 Hc1 Hwhy)
      as (b'' & node' & E'' & B & D).
    fold b1 in E''. rewrite E'' in Efin. inversion Efin; subst b''.
    exists node', []. split; assumption. }
  change (leaf_size_ b1) with (leaf_size_ b) in Er. change (dim_ b1) with (dim_ b) in Er.
  destruct (Z.gtb_spec (count_ node) (leaf_size_ b)) as [Ecnt | Ecnt];
    [|apply Hunsplit; [left; lia | exact Er]].
  destruct (widest_run (bound_ node) (dim_ b)) as (mw & sd & Ew & Hfirst).
  { rewrite (tight_length _ _ _ _ _ Ht). pose proof (ok_dim _ Hok). lia. }
  rewrite Ew in Er. cbn [bind fst snd] in Er.
  apply bind_Ret in Er as (rg & Rrg & Er).
  assert (Hmw : max_width (dim_ b) (bound_ node) mw) by (exists sd; exact Ew).
  destruct (Qneq_b mw 0) eqn:Eq.
  2:{ apply Hunsplit; [right | exact Er]. exists mw. split; [exact Hmw|].
      unfold Qneq_b in Eq. apply negb_false_iff, Qeq_bool_iff in Eq. exact Eq. }
  apply Qneq_b_true in Eq.
  apply bind_Ret in Er as ([[l rr] b2] & Es & Er). cbn [fst snd] in Er.
  apply bind_Ret in Er as (b3 & E3 & Er). apply bind_Ret in Er as (b4 & E4 & Er).
  apply bind_Ret in Er as (b5 & E5 & Er). inversion Er; subst r. cbn [fst snd] in Efin.
  inversion Efin; subst b5. clear Er Efin.
  assert (Hok1 : builder_ok b1) by (destruct Hok; constructor; assumption).
  apply read_Ret in Rrg. pose proof (zth_Some_range _ _ _ Rrg) as Hsd.
  rewrite (tight_length _ _ _ _ _ Ht) in Hsd.
  destruct (split_node_Ret (S fuel) b1 node sd (range_mid rg) l rr b2 Hok1 Hb Hc He Hsd Es)
    as (-> & -> & split & lb & rb & Hsp).
  assert (Hlen1 : Z.of_nat (length (nodes_ b1)) = Z.of_nat (length (nodes_ b)))
    by (unfold b1; cbn [nodes_ set_nodes]; rewrite zupd_length; reflexivity).
  rewrite Hlen1 in E3, E4, E5.
  destruct (left_ready b1 node b2 split lb rb Hok1 Hb He Hsp) as (Hok2 & ZL & HeL & HtL).
  rewrite Hlen1 in ZL.
  pose proof Hsp as (_ & _ & _ & _ & Hsplit & _).
  destruct (IH b2 _ (left_child node split lb) b3 Hok2 ZL) as (L' & extraL & B3 & D3);
    cbn [left_child begin_ count_ bound_ child0_ child1_]; try lia; try reflexivity;
    try assumption.
  pose proof B3 as B3'. rewrite <- Hlen1 in B3'.
  destruct (right_ready b1 node b2 b3 split lb rb L' extraL Hok1 Hb He Hsp B3')
    as (Hok3 & ZR & HeR & HtR & _).
  rewrite Hlen1 in ZR.
  destruct (IH b3 _ (right_child node split rb) b4 Hok3 ZR) as (R' & extraR & B4 & D4);
    cbn [right_child begin_ count_ bound_ child0_ child1_]; unfold end_ in *; try lia;
    try reflexivity; try assumption.
  destruct (split_joined uninit b node_i node st1 b2 b3 b4 split lb rb L' R' extraL extraR
              mw Hok Znd Hb Hc He Ht Ecnt Hmw Eq Hsp B3 D3 B4 D4)
    as (b5 & node5 & E5' & B5 & D5).
  rewrite E5' in E5. inversion E5; subst b5.
  exists node5, ([L'; R'] ++ extraL ++ extraR). split; assumption.
Qed.

(** *** Split values that separate *)

(** [width()] and [mid()] separate the data set [points]: on a range [r]
    whose two ends are coordinates of points of the set, in the same
    dimension and in order, the width is not negative and, unless it is zero,
    the midpoint lies above the lower end and not above the upper end.  The
    exact width and midpoint separate every data set.  Those of the machine
    do not: the computed midpoint of two neighbouring doubles is one of
    them. *)
Definition separate (points : list Vector) : Prop :=
  forall (d : nat) (r : DRange),
    (exists v x, In v points /\ nth_error v d = Some x /\ (x == lo r)%Q) ->
    (exists v x, In v points /\ nth_error v d = Some x /\ (x == hi r)%Q) ->
    (lo r <= hi r)%Q ->
    (0 <= range_width r)%Q /\
    (~ (range_width r == 0)%Q -> (lo r < range_mid r)%Q /\ (range_mid r <= hi r)%Q).

Lemma separate_shuffled (first count : Z) (points points' : list Vector) :
  shuffled first count points points' -> separate points -> separate points'.
Proof.
  intros Hsh Hsep d r (v & x & Hv & Hx) (w & y & Hw & Hy) Hle.
  assert (Hin : Forall (fun u => In u points) points').
  { eapply shuffled_Forall; [exact Hsh|]. rewrite Forall_forall. auto. }
  rewrite Forall_forall in Hin. unfold separate in Hsep.
  apply (Hsep d r); [exists v, x | exists w, y | exact Hle];
    (split; [apply Hin; assumption | assumption]).
Qed.

(** The two ends of a dimension of a bounding box are reached by points of
    the range. *)
Lemma tight_ends (dim : Z) (points : list Vector) (first count : Z) (bd : Bound) (sd : Z)
    (rg : DRange) :
  tight dim points first count bd -> zth bd sd = Some rg ->
  (exists k x, first <= k < first + count /\ coord points sd k = Some x /\ (x == lo rg)%Q) /\
  (exists k x, first <= k < first + count /\ coord points sd k = Some x /\ (x == hi rg)%Q).
Proof.
  intros [Hl Hcn Hr] Zr. destruct (zth_nth_error _ _ _ Zr) as [Nr Hsd].
  destruct (Hr _ _ Nr) as [(v & x & Hv & Hx & Hle) (w & y & Hw & Hy & Hge)].
  pose proof (Hcn v Hv _ _ _ Nr Hx) as [Hx1 Hx2].
  pose proof (Hcn w Hw _ _ _ Nr Hy) as [Hy1 Hy2].
  destruct Hv as (k & Hk & Zk). destruct Hw as (j & Hj & Zj).
  assert (Zx : zth v sd = Some x).
  { unfold zth. destruct (Z.ltb_spec sd 0); [lia | exact Hx]. }
  assert (Zy : zth w sd = Some y).
  { unfold zth. destruct (Z.ltb_spec sd 0); [lia | exact Hy]. }
  split.
  - exists k, x. split; [exact Hk|]. split; [unfold coord; rewrite Zk; exact Zx | lra].
  - exists j, y. split; [exact Hj|]. split; [unfold coord; rewrite Zj; exact Zy | lra].
Qed.

Lemma coord_In (points : list Vector) (sd k : Z) (x : double) :
  coord points sd k = Some x ->
  exists v, In v points /\ nth_error v (Z.to_nat sd) = Some x.
Proof.
  unfold coord. destruct (zth points k) as [v|] eqn:Zv; [|discriminate]. intros Zx.
  exists v. split; [eapply zth_In, Zv | apply (zth_nth_error _ _ _ Zx)].
Qed.

(** On a data set that width and midpoint separate, the loop over the
    dimensions of a bounding box ends at a dimension of the box, and when its
    width is not zero the midpoint has a point of the range below it and a
    point of the range at or above it. *)
Lemma widest_separates (b : Builder Param PointInfo Stat) (node : Node Stat)
    (mw : double) (sd : Z) :
  builder_ok b -> separate (points_ b) ->
  tight (dim_ b) (points_ b) (begin_ node) (count_ node) (bound_ node) ->
  widest_first (bound_ node) (dim_ b) mw sd ->
  exists rg,
    zth (bound_ node) sd = Some rg /\
    (~ (mw == 0)%Q ->
     (exists k, begin_ node <= k < end_ node /\ below (points_ b) sd (range_mid rg) k) /\
     (exists k, begin_ node <= k < end_ node /\
                at_or_above (points_ b) sd (range_mid rg) k)).
Proof.
  intros Hok Hsep Ht [Hmax Hfirst]. pose proof (tight_length _ _ _ _ _ Ht) as Hlen.
  assert (Hnonneg : forall d r, zth (bound_ node) d = Some r -> (0 <= range_width r)%Q).
  { intros d r Zr.
    destruct (tight_ends _ _ _ _ _ _ _ Ht Zr) as [(k & x & _ & Cx & Ex) (j & y & _ & Cy & Ey)].
    destruct (coord_In _ _ _ _ Cx) as (v & Hv & Nx).
    destruct (coord_In _ _ _ _ Cy) as (w & Hw & Ny).
    apply (Hsep (Z.to_nat d) r); [exists v, x; auto | exists w, y; auto|].
    apply (tight_width_nonneg _ _ _ _ _ _ _ Ht Zr). }
  destruct Hfirst as [[_ Emw] | (Hsd & rg & Zrg & Emw & _)].
  { exfalso. destruct (zth_in_range (bound_ node) 0) as (r0 & Zr0).
    { rewrite Hlen. pose proof (ok_dim _ Hok). lia. }
    pose proof (Hmax 0 r0 ltac:(pose proof (ok_dim _ Hok); lia) Zr0) as Hle.
    pose proof (Hnonneg 0 r0 Zr0) as Hge. rewrite Emw in Hle. lra. }
  exists rg. split; [exact Zrg|]. intros Hne. rewrite Emw in Hne.
  destruct (tight_ends _ _ _ _ _ _ _ Ht Zrg) as [(k & x & Hk & Cx & Ex) (j & y & Hj & Cy & Ey)].
  destruct (coord_In _ _ _ _ Cx) as (v & Hv & Nx).
  destruct (coord_In _ _ _ _ Cy) as (w & Hw & Ny).
  destruct (Hsep (Z.to_nat sd) rg) as [_ Hmid];
    [exists v, x; auto | exists w, y; auto | apply (tight_width_nonneg _ _ _ _ _ _ _ Ht Zrg)|].
  destruct (Hmid Hne) as [Hlo Hhi]. unfold end_. split.
  - exists k. split; [exact Hk|]. exists x. split; [exact Cx | lra].
  - exists j. split; [exact Hj|]. exists y. split; [exact Cy | lra].
Qed.

(** On a data set that width and midpoint separate, [Build_(node_i)]
    returns when the fuel exceeds the number of points of the node. *)
Lemma Build__returns (uninit : Z -> bool) (fuel : nat) :
  forall (b : Builder Param PointInfo Stat) (node_i : Z) (node : Node Stat),
    builder_ok b -> zth (nodes_ b) node_i = Some node ->
    0 <= begin_ node -> 1 <= count_ node -> end_ node <= Z.of_nat (length (points_ b)) ->
    tight (dim_ b) (points_ b) (begin_ node) (count_ node) (bound_ node) ->
    child0_ node = Unset -> child1_ node = Unset ->
    separate (points_ b) ->
    (Z.to_nat (count_ node + 1) <= fuel)%nat ->
    exists b', Build_ BIG_BAD_NUMBER range_width range_mid uninit fuel b node_i = Ret b'.
Proof.
  induction fuel as [|fuel IH];
    intros b node_i node Hok Znd Hb Hc He Ht Hc0 Hc1 Hsep Hfuel; [lia|].
  rewrite Build__S.
  assert (Rnd : read (nodes_ b) node_i = Ret node) by (apply read_Ret; exact Znd).
  rewrite Rnd. cbn [bind].
  rewrite (modify_node_Ret b node_i _ node Znd). cbn [bind].
  set (st1 := stat_Init (param_ b) (stat_ node)).
  set (b1 := set_nodes (zupd (nodes_ b) node_i (set_stat st1 node)) b).
  assert (Hint : internal node = false) by (unfold internal; rewrite Hc0; reflexivity).
  assert (Hunsplit : exists b',
             (if uninit node_i then make_leaf b1 node_i else Ret b1) = Ret b').
  { destruct (finish_unsplit b node_i node (uninit node_i) st1 Hok Znd Hb Hc He Ht Hint)
      as (b' & node' & E & _).
    exists b'. exact E. }
  change (leaf_size_ b1) with (leaf_size_ b). change (dim_ b1) with (dim_ b).
  destruct (Z.gtb_spec (count_ node) (leaf_size_ b)) as [Ecnt | Ecnt];
    [|cbn [bind fst snd]; exact Hunsplit].
  destruct (widest_run (bound_ node) (dim_ b)) as (mw & sd & Ew & Hfirst).
  { rewrite (tight_length _ _ _ _ _ Ht). pose proof (ok_dim _ Hok). lia. }
  rewrite Ew. cbn [bind fst snd].
  destruct (widest_separates b node mw sd Hok Hsep Ht Hfirst) as (rg & Zrg & Hsides).
  unfold Bound_get.
  assert (Rrg : read (bound_ node) sd = Ret rg) by (apply read_Ret; exact Zrg).
  rewrite Rrg. cbn [bind].
  assert (Hmw : max_width (dim_ b) (bound_ node) mw) by (exists sd; exact Ew).
  destruct (Qneq_b mw 0) eqn:Eq; [|cbn [bind fst snd]; exact Hunsplit].
  apply Qneq_b_true in Eq. destruct (Hsides Eq) as [Hlow Hhigh].
  assert (Hok1 : builder_ok b1) by (destruct Hok; constructor; assumption).
  pose proof (zth_Some_range _ _ _ Zrg) as Hsd.
  rewrite (tight_length _ _ _ _ _ Ht) in Hsd.
  destruct (split_node_spec (S fuel) b1 node sd (range_mid rg) Hok1 Hb Hc He Hsd Hlow Hhigh
              Hfuel) as (b2 & split & lb & rb & Es & Hsp).
  rewrite Es. cbn [bind fst snd].
  assert (Hlen1 : Z.of_nat (length (nodes_ b1)) = Z.of_nat (length (nodes_ b)))
    by (unfold b1; cbn [nodes_ set_nodes]; rewrite zupd_length; reflexivity).
  rewrite Hlen1.
  destruct (left_ready b1 node b2 split lb rb Hok1 Hb He Hsp) as (Hok2 & ZL & HeL & HtL).
  rewrite Hlen1 in ZL.
  pose proof Hsp as (_ & _ & _ & _ & Hsplit & Hsh2 & _).
  assert (Hsep2 : separate (points_ b2)) by (eapply separate_shuffled; eassumption).
  unfold end_ in *.
  destruct (IH b2 _ (left_child node split lb) Hok2 ZL) as (b3 & E3);
    cbn [left_child begin_ count_ bound_ child0_ child1_]; try lia; try reflexivity;
    try assumption.
  rewrite E3. cbn [bind].
  destruct (Build__Ret uninit fuel b2 _ (left_child node split lb) b3 Hok2 ZL)
    as (L' & extraL & B3 & D3);
    cbn [left_child begin_ count_ bound_ child0_ child1_]; try lia; try reflexivity;
    try assumption.
  pose proof B3 as B3'. rewrite <- Hlen1 in B3'.
  destruct (right_ready b1 node b2 b3 split lb rb L' extraL Hok1 Hb He Hsp B3')
    as (Hok3 & ZR & HeR & HtR & _).
  rewrite Hlen1 in ZR.
  assert (Hsep3 : separate (points_ b3)).
  { eapply separate_shuffled; [exact (bt_points _ _ _ _ _ _ B3) | exact Hsep2]. }
  destruct (IH b3 _ (right_child node split rb) Hok3 ZR) as (b4 & E4);
    cbn [right_child begin_ count_ bound_ child0_ child1_]; unfold end_ in *; try lia;
    try reflexivity; try assumption.
  rewrite E4. cbn [bind].
  destruct (Build__Ret uninit fuel b3 _ (right_child node split rb) b4 Hok3 ZR)
    as (R' & extraR & B4 & D4);
    cbn [right_child begin_ count_ bound_ child0_ child1_]; unfold end_ in *; try lia;
    try reflexivity; try assumption.
  destruct (split_joined uninit b node_i node st1 b2 b3 b4 split lb rb L' R' extraL extraR
              mw Hok Znd Hb Hc He Ht Ecnt Hmw Eq Hsp B3 D3 B4 D4)
    as (b5 & node5 & E5 & _).
  rewrite E5. cbn [bind fst snd]. exists b5. reflexivity.
Qed.

(** *** [Build] *)

(** The data set that [InitBuild] hands to [Build]: at least one point, no
    node yet. *)
Record build_input (b : Builder Param PointInfo Stat) : Prop := mk_build_input {
  in_ok : builder_ok b;
  in_nodes : nodes_ b = [];
  in_points : 1 <= Z.of_nat (length (points_ b))
}.

(** [Build] makes the root, with all the points and their bounding box, and
    calls [Build_] on it. *)
Lemma Build_root (uninit : Z -> bool) (b : Builder Param PointInfo Stat) :
  build_input b ->
  exists root : Node Stat,
    begin_ root = 0 /\ count_ root = Z.of_nat (length (points_ b)) /\
    child0_ root = Unset /\ child1_ root = Unset /\
    tight (dim_ b) (points_ b) 0 (Z.of_nat (length (points_ b))) (bound_ root) /\
    forall fuel,
      Build BIG_BAD_NUMBER range_width range_mid uninit fuel b
      = Build_ BIG_BAD_NUMBER range_width range_mid uninit fuel (set_nodes [root] b) 0.
Proof.
  intros [Hok Hnodes HN].
  set (N := Z.of_nat (length (points_ b))) in *.
  destruct (FindBoundingBox_loop_spec (points_ b) (Z.to_nat N) 0 (Bound_Init (dim_ b))
              ltac:(lia) ltac:(unfold N; lia)) as (bd & Ebd & Hacc & Hcov).
  rewrite Z2Nat.id in Hacc, Hcov by lia.
  set (root := mkNode 0 N bd Unset Unset (@stat_default _ _ _ H)).
  assert (Ht : tight (dim_ b) (points_ b) 0 N bd).
  { apply tight_of_generated.
    - rewrite (accumulated_length _ _ _ Hacc). apply Bound_Init_length.
      pose proof (ok_dim _ Hok). lia.
    - intros v Hv. eapply builder_ok_in_node; eauto.
    - destruct (zth_in_range (points_ b) 0 ltac:(unfold N in HN; lia)) as (v & Zv).
      exists v, 0. split; [lia | exact Zv].
    - exact Hcov.
    - eapply generated_accumulated; [exact Hacc | apply generated_Init]. }
  exists root. split; [reflexivity|]. split; [reflexivity|]. split; [reflexivity|].
  split; [reflexivity|]. split; [exact Ht|]. intros fuel.
  unfold Build, Alloc. cbv beta iota zeta. rewrite Hnodes. cbn [app nodes_ set_nodes].
  unfold modify_node, read. cbn [zth Z.ltb Z.compare Z.to_nat nth_error bind nodes_ set_nodes
                                 zupd upd points_ dim_].
  unfold Node_Init, set_bound, fresh_node. cbn [begin_ count_ bound_ child0_ child1_ stat_].
  unfold FindBoundingBox_. cbn [points_ set_nodes]. fold N. rewrite Ebd.
  cbn [bind nodes_ set_nodes]. reflexivity.
Qed.

(** A run of [Build] that returns has built the tree of the data set. *)
Lemma Build_Ret (uninit : Z -> bool) (fuel : nat) (b b' : Builder Param PointInfo Stat) :
  build_input b ->
  Build BIG_BAD_NUMBER range_width range_mid uninit fuel b = Ret b' ->
  exists (root root' : Node Stat) (extra : list (Node Stat)),
    begin_ root = 0 /\ count_ root = Z.of_nat (length (points_ b)) /\
    built (set_nodes [root] b) 0 root b' root' extra /\
    done uninit (set_nodes [root] b) 0 b' root' extra /\
    nodes_ b' = root' :: extra.
Proof.
  intros Hin E. destruct (Build_root uninit b Hin) as (root & Eb & Ec & E0 & E1 & Ht & EB).
  destruct Hin as [Hok Hnodes HN]. rewrite EB in E.
  destruct (Build__Ret uninit fuel (set_nodes [root] b) 0 root b') as (root' & extra & B & D);
    cbn [nodes_ set_nodes points_ dim_]; unfold end_; rewrite ?Eb, ?Ec; try lia;
    try reflexivity; try assumption.
  { destruct Hok; constructor; assumption. }
  exists root, root', extra. split; [exact Eb|]. split; [exact Ec|].
  split; [exact B|]. split; [exact D|].
  rewrite (bt_nodes _ _ _ _ _ _ B). reflexivity.
Qed.

(** On a data set that width and midpoint separate, [Build] returns when
    the fuel exceeds the number of points. *)
Lemma Build_returns (uninit : Z -> bool) (fuel : nat) (b : Builder Param PointInfo Stat) :
  build_input b -> separate (points_ b) ->
  (Z.to_nat (Z.of_nat (length (points_ b)) + 1) <= fuel)%nat ->
  exists b', Build BIG_BAD_NUMBER range_width range_mid uninit fuel b = Ret b'.
Proof.
  intros Hin Hsep Hfuel.
  destruct (Build_root uninit b Hin) as (root & Eb & Ec & E0 & E1 & Ht & EB).
  destruct Hin as [Hok Hnodes HN]. rewrite EB.
  apply (Build__returns uninit fuel (set_nodes [root] b) 0 root);
    cbn [nodes_ set_nodes points_ dim_]; unfold end_; rewrite ?Eb, ?Ec; try lia;
    try reflexivity; try assumption.
  destruct Hok; constructor; assumption.
Qed.

Lemma split_node_stable (f f' : nat) (b : Builder Param PointInfo Stat) (node : Node Stat)
    (sd : Z) (sv : double) :
  (f <= f')%nat -> stable (split_node f b node sd sv) (split_node f' b node sd sv).
Proof.
  intros Hle. unfold split_node. destruct (Alloc b) as [left_i b1].
  destruct (Alloc b1) as [right_i b2].
  do 4 (apply stable_bind; [apply stable_refl | intros ?]).
  apply stable_bind; [apply Partition__stable; exact Hle | intros p].
  apply stable_refl.
Qed.

Lemma Build__stable (uninit : Z -> bool) (f : nat) :
  forall (f' : nat) (b : Builder Param PointInfo Stat) (node_i : Z),
    (f <= f')%nat ->
    stable (Build_ BIG_BAD_NUMBER range_width range_mid uninit f b node_i)
           (Build_ BIG_BAD_NUMBER range_width range_mid uninit f' b node_i).
Proof.
  induction f as [|f IH]; intros f' b node_i Hle; [left; reflexivity|].
  destruct f' as [|f']; [lia|]. rewrite !Build__S.
  apply stable_bind; [apply stable_refl | intros node].
  apply stable_bind; [apply stable_refl | intros b1].
  apply stable_bind; [|intros r; apply stable_refl].
  apply stable_if; [|apply stable_refl].
  apply stable_bind; [apply stable_refl | intros ms].
  apply stable_bind; [apply stable_refl | intros rg].
  apply stable_if; [|apply stable_refl].
  apply stable_bind; [apply split_node_stable; lia | intros lrb].
  apply stable_bind; [apply IH; lia | intros b3].
  apply stable_bind; [apply IH; lia | intros b4].
  apply stable_refl.
Qed.

Lemma Build_stable (uninit : Z -> bool) (f f' : nat) (b : Builder Param PointInfo Stat) :
  (f <= f')%nat ->
  stable (Build BIG_BAD_NUMBER range_width range_mid uninit f b)
         (Build BIG_BAD_NUMBER range_width range_mid uninit f' b).
Proof.
  intros Hle. unfold Build. destruct (Alloc b) as [i b1].
  do 5 (apply stable_bind; [apply stable_refl | intros ?]).
  apply Build__stable. exact Hle.
Qed.

(** *** A node whose bound has no width *)

(** When the node has more points than the leaf threshold and the loop
    over the dimensions of its bound ends with a [max_width] of zero, [Build_]
    needs one unit of fuel: it allocates nothing, calls neither [Partition_]
    nor itself, and leaves the points where they are.  The links of the node
    become [NoChild] when the unassigned [leaf] reads as true, and stay as
    they were when it reads as false. *)
Lemma Build__zero_width (uninit : Z -> bool) (fuel : nat)
    (b : Builder Param PointInfo Stat) (node_i : Z) (node : Node Stat) (mw : double) :
  builder_ok b -> zth (nodes_ b) node_i = Some node ->
  0 <= begin_ node -> 1 <= count_ node -> end_ node <= Z.of_nat (length (points_ b)) ->
  tight (dim_ b) (points_ b) (begin_ node) (count_ node) (bound_ node) ->
  internal node = false ->
  leaf_size_ b < count_ node ->
  max_width (dim_ b) (bound_ node) mw -> (mw == 0)%Q ->
  exists b' node',
    Build_ BIG_BAD_NUMBER range_width range_mid uninit (S fuel) b node_i = Ret b' /\
    nodes_ b' = zupd (nodes_ b) node_i node' /\
    points_ b' = points_ b /\ point_infos_ b' = point_infos_ b /\
    begin_ node' = begin_ node /\ count_ node' = count_ node /\
    bound_ node' = bound_ node /\
    child0_ node' = (if uninit node_i then NoChild else child0_ node) /\
    child1_ node' = (if uninit node_i then NoChild else child1_ node).
Proof.
  intros Hok Znd Hb Hc He Ht Hint Hcnt (sd & Ew) Hzero.
  rewrite Build__S.
  assert (Rnd : read (nodes_ b) node_i = Ret node) by (apply read_Ret; exact Znd).
  rewrite Rnd. cbn [bind].
  rewrite (modify_node_Ret b node_i _ node Znd). cbn [bind leaf_size_ dim_ set_nodes].
  destruct (Z.gtb_spec (count_ node) (leaf_size_ b)) as [_ | Hle]; [|lia].
  destruct (widest_run (bound_ node) (dim_ b)) as (mw' & sd' & Ew' & _ & Hfirst).
  { rewrite (tight_length _ _ _ _ _ Ht). pose proof (ok_dim _ Hok). lia. }
  rewrite Ew in Ew'. inversion Ew'; subst mw' sd'. clear Ew'.
  rewrite Ew. cbn [bind fst snd]. unfold Bound_get.
  destruct Hfirst as [[_ Emw] | (_ & rg & Zrg & _)].
  { exfalso. rewrite Emw in Hzero. apply Qeq_bool_iff in Hzero. discriminate Hzero. }
  assert (Rrg : read (bound_ node) sd = Ret rg) by (apply read_Ret; exact Zrg).
  rewrite Rrg. cbn [bind].
  assert (Eq : Qneq_b mw 0 = false).
  { unfold Qneq_b. rewrite negb_false_iff. apply Qeq_bool_iff. exact Hzero. }
  rewrite Eq. cbn [bind fst snd].
  destruct (finish_unsplit b node_i node (uninit node_i)
              (stat_Init (param_ b) (stat_ node)) Hok Znd Hb Hc He Ht Hint)
    as (b' & node' & E & B & En & Ep & Ei & E0 & E1).
  destruct (bt_same _ _ _ _ _ _ B) as (Eb & Ec & Ebd).
  exists b', node'. split; [exact E|]. repeat split; assumption.
Qed.

(** *** The built tree *)


(** Every node has its range inside the point array, and every point at an
    index of that range lies within the node's bound in every dimension. *)
Definition bounds_contain_points (b' : Builder Param PointInfo Stat) : Prop :=
  forall nd : Node Stat,
    In nd (nodes_ b') ->
    0 <= begin_ nd /\ end_ nd <= Z.of_nat (length (points_ b')) /\
    forall k, begin_ nd <= k < end_ nd ->
      exists v, zth (points_ b') k = Some v /\
        forall d, 0 <= d < dim_ b' ->
          exists r x, zth (bound_ nd) d = Some r /\ zth v d = Some x /\ in_range r x.

(** C7: in every tree that [Build] returns for a data set of at least one
    point, whatever [width()] and [mid()] compute, every node has its range
    inside the point array and every point at an index of that range lies
    within the node's bound in every dimension.  And [Build] does return,
    with fuel above the number of points, on every data set that width and
    midpoint separate. *)
Theorem Build_bounds_contain_points :
  forall (uninit : Z -> bool) (b : Builder Param PointInfo Stat),
    build_input b ->
    (forall (fuel : nat) (b' : Builder Param PointInfo Stat),
        Build BIG_BAD_NUMBER range_width range_mid uninit fuel b = Ret b' ->
        bounds_contain_points b') /\
    (separate (points_ b) ->
     forall fuel : nat,
       (Z.to_nat (Z.of_nat (length (points_ b)) + 1) <= fuel)%nat ->
       exists b' : Builder Param PointInfo Stat,
         Build BIG_BAD_NUMBER range_width range_mid uninit fuel b = Ret b').
Proof.
  intros uninit b Hin.
  split; [|intros Hsep fuel Hfuel; apply Build_returns; assumption].
  intros fuel b' E.
  destruct (Build_Ret uninit fuel b b' Hin E) as (root & root' & extra & Eb & Ec & B & _ & En).
  destruct Hin as [Hok _ HN].
  intros nd Hnd. rewrite En in Hnd.
  assert (Hnk : node_ok b' 0 (Z.of_nat (length (points_ b))) nd).
  { rewrite <- Eb at 1. rewrite <- Ec. apply (bt_ok _ _ _ _ _ _ B).
    destruct Hnd as [<- | Hx]; auto. }
  pose proof (bt_points _ _ _ _ _ _ B) as Hsh. cbn [points_ set_nodes] in Hsh.
  pose proof (bt_dim _ _ _ _ _ _ B) as Hdim. cbn [dim_ set_nodes] in Hdim.
  assert (Hlen : length (points_ b') = length (points_ b)) by apply Hsh.
  assert (Hvalid : Forall (valid_point (dim_ b)) (points_ b')).
  { eapply shuffled_Forall; [exact Hsh | apply Hok]. }
  destruct (nk_range _ _ _ _ Hnk) as (R1 & R2 & R3). unfold end_ in *.
  split; [lia|]. split; [lia|]. intros k Hk.
  destruct (zth_in_range (points_ b') k ltac:(lia)) as (v & Zv).
  exists v. split; [exact Zv|]. intros d Hd.
  rewrite Forall_forall in Hvalid. pose proof (Hvalid v (zth_In _ _ _ Zv)) as [Hvl _].
  destruct (zth_in_range (bound_ nd) d) as (r & Zr).
  { rewrite (nk_length _ _ _ _ Hnk). exact Hd. }
  destruct (zth_in_range v d) as (x & Zx); [lia|].
  exists r, x. split; [exact Zr|]. split; [exact Zx|].
  apply zth_nth_error in Zr. apply zth_nth_error in Zx.
  eapply (nk_contains _ _ _ _ Hnk); [|apply Zr|apply Zx].
  exists k. split; [lia | exact Zv].
Qed.

(** The ranges of the two children of a node that has them split the
    node's range at an index strictly inside it; the root covers the [n]
    points; the counts of the nodes without children add up to [n]. *)
Definition partition_conserved (n : Z) (b' : Builder Param PointInfo Stat) : Prop :=
  (forall (nd : Node Stat) (l r : Z),
      In nd (nodes_ b') -> child0_ nd = Child l -> child1_ nd = Child r ->
      exists (lnode rnode : Node Stat) (split_col : Z),
        zth (nodes_ b') l = Some lnode /\ zth (nodes_ b') r = Some rnode /\
        begin_ nd < split_col < end_ nd /\
        begin_ lnode = begin_ nd /\ count_ lnode = split_col - begin_ nd /\
        begin_ rnode = split_col /\ count_ rnode = end_ nd - split_col /\
        end_ lnode = begin_ rnode /\ end_ rnode = end_ nd /\
        count_ nd = count_ lnode + count_ rnode) /\
  (exists root, zth (nodes_ b') 0 = Some root /\ begin_ root = 0 /\ count_ root = n) /\
  leaf_points (nodes_ b') = n.

(** C8: in every tree that [Build] returns for a data set of at least one
    point, whatever [width()] and [mid()] compute, every node that was given
    two children has them at a split index strictly inside its range, the left
    child with the range [(begin, split_col - begin)] and the right child with
    [(split_col, end - split_col)], so that the two ranges are adjacent, cover
    the node's range and their counts add up to the node's; and the counts of
    the nodes without children add up to the number of points.  And [Build]
    does return, with fuel above the number of points, on every data set that
    width and midpoint separate. *)
Theorem Build_partition_conservation :
  forall (uninit : Z -> bool) (b : Builder Param PointInfo Stat),
    build_input b ->
    (forall (fuel : nat) (b' : Builder Param PointInfo Stat),
        Build BIG_BAD_NUMBER range_width range_mid uninit fuel b = Ret b' ->
        partition_conserved (Z.of_nat (length (points_ b))) b') /\
    (separate (points_ b) ->
     forall fuel : nat,
       (Z.to_nat (Z.of_nat (length (points_ b)) + 1) <= fuel)%nat ->
       exists b' : Builder Param PointInfo Stat,
         Build BIG_BAD_NUMBER range_width range_mid uninit fuel b = Ret b').
Proof.
  intros uninit b Hin.
  split; [|intros Hsep fuel Hfuel; apply Build_returns; assumption].
  intros fuel b' E.
  destruct (Build_Ret uninit fuel b b' Hin E) as (root & root' & extra & Eb & Ec & B & _ & En).
  destruct (bt_same _ _ _ _ _ _ B) as (Eb' & Ec' & _).
  split; [|split].
  - intros nd l r Hnd El Er. rewrite En in Hnd.
    assert (Hnk : node_ok b' (begin_ root) (count_ root) nd).
    { apply (bt_ok _ _ _ _ _ _ B). destruct Hnd as [<- | Hx]; auto. }
    destruct (nk_children _ _ _ _ Hnk l r El Er)
      as (ln & rn & split & Zl & Zr & Hs & H1 & H2 & H3 & H4).
    exists ln, rn, split. unfold end_ in *. repeat split; try assumption; lia.
  - exists root'. rewrite En. split; [reflexivity|]. split; congruence.
  - rewrite En. cbn [leaf_points fold_right].
    pose proof (bt_leaves _ _ _ _ _ _ B) as Hl. unfold leaf_points in Hl. lia.
Qed.

(** *** What [Build_] decides at every node *)

(** X19: the loop of [Build_] over the [dim] dimensions of a bound returns
    the greatest of the widths that [width()] computes and, as the dimension
    to split, the first dimension of that width: every dimension before it
    has a strictly smaller one.  When no computed width exceeds -1, the
    width stays -1 and the dimension stays [BIG_BAD_NUMBER]. *)
Theorem widest_first_widest :
  forall (bound : Bound) (dim : Z),
    0 <= dim <= Z.of_nat (length bound) ->
    exists (max_width : double) (split_dim : Z),
      widest range_width (Z.to_nat dim) 0 bound (-1)%Q BIG_BAD_NUMBER
      = Ret (max_width, split_dim) /\
      (forall d r, 0 <= d < dim -> zth bound d = Some r ->
                   (range_width r <= max_width)%Q) /\
      ((split_dim = BIG_BAD_NUMBER /\ max_width = (-1)%Q) \/
       (0 <= split_dim < dim /\
        exists rg, zth bound split_dim = Some rg /\ max_width = range_width rg /\
          (-1 < max_width)%Q /\
          forall d r, 0 <= d < split_dim -> zth bound d = Some r ->
                      (range_width r < max_width)%Q)).
Proof.
  intros bound dim Hdim.
  destruct (widest_run bound dim Hdim) as (mw & sd & E & Hinv).
  exists mw, sd. split; [exact E | exact Hinv].
Qed.

(** X20: in every tree that [Build] returns for a data set of at least one
    point, the bound of every node is the bounding box of the points of the
    node: it has [dim_] ranges, contains the points at the indices of the
    node, and each end of each range is the coordinate of one of them. *)
Theorem Build_bounds_are_bounding_boxes :
  forall (uninit : Z -> bool) (fuel : nat) (b b' : Builder Param PointInfo Stat),
    build_input b ->
    Build BIG_BAD_NUMBER range_width range_mid uninit fuel b = Ret b' ->
    forall nd : Node Stat,
      In nd (nodes_ b') ->
      tight (dim_ b') (points_ b') (begin_ nd) (count_ nd) (bound_ nd).
Proof.
  intros uninit fuel b b' Hin E nd Hnd.
  destruct (Build_Ret uninit fuel b b' Hin E)
    as (root & root' & extra & _ & _ & _ & (G & _) & En).
  rewrite En in Hnd. apply (nd_tight _ _ (G nd ltac:(destruct Hnd as [<- | Hx]; auto))).
Qed.

(** X21: in every tree that [Build] returns for a data set of at least one
    point, a node has two children exactly when it has more than
    [leaf_size_] points and the loop over the dimensions of its bound ends
    with a [max_width] other than zero: every node with two children has more
    than [leaf_size_] points and such a [max_width]; every node without has
    at most [leaf_size_] points, or a [max_width] of zero. *)
Theorem Build_splits_until_leaf_size :
  forall (uninit : Z -> bool) (fuel : nat) (b b' : Builder Param PointInfo Stat),
    build_input b ->
    Build BIG_BAD_NUMBER range_width range_mid uninit fuel b = Ret b' ->
    forall nd : Node Stat,
      In nd (nodes_ b') ->
      (internal nd = true ->
       leaf_size_ b < count_ nd /\
       exists mw, max_width (dim_ b) (bound_ nd) mw /\ ~ (mw == 0)%Q) /\
      (internal nd = false ->
       count_ nd <= leaf_size_ b \/
       exists mw, max_width (dim_ b) (bound_ nd) mw /\ (mw == 0)%Q).
Proof.
  intros uninit fuel b b' Hin E nd Hnd.
  destruct (Build_Ret uninit fuel b b' Hin E)
    as (root & root' & extra & _ & _ & B & (G & _) & En).
  rewrite En in Hnd.
  destruct (G nd ltac:(destruct Hnd as [<- | Hx]; auto)) as [_ S U].
  pose proof (bt_leaf_size _ _ _ _ _ _ B) as El. cbn [leaf_size_ set_nodes] in El.
  pose proof (bt_dim _ _ _ _ _ _ B) as Ed. cbn [dim_ set_nodes] in Ed.
  rewrite El, Ed in S, U. split; assumption.
Qed.

Lemma leaf_count_le_leaf_points (ns : list (Node Stat)) :
  (forall nd, In nd ns -> 1 <= count_ nd) ->
  Z.of_nat (leaf_count ns) <= leaf_points ns.
Proof.
  induction ns as [|nd ns IH]; intros Hc; [reflexivity|].
  rewrite leaf_count_cons. cbn [leaf_points fold_right]. fold (leaf_points ns).
  pose proof (Hc nd (or_introl eq_refl)) as H1.
  specialize (IH (fun x Hx => Hc x (or_intror Hx))).
  unfold leaf_weight. destruct (internal nd); lia.
Qed.

(** X22: every node array that [Build] returns for a data set of [n >= 1]
    points has one node less than twice the number of its nodes without
    children, and so at most [2 n - 1] nodes. *)
Theorem Build_node_count :
  forall (uninit : Z -> bool) (fuel : nat) (b b' : Builder Param PointInfo Stat),
    build_input b ->
    Build BIG_BAD_NUMBER range_width range_mid uninit fuel b = Ret b' ->
    (length (nodes_ b') + 1 = 2 * leaf_count (nodes_ b'))%nat /\
    Z.of_nat (length (nodes_ b')) <= 2 * Z.of_nat (length (points_ b)) - 1.
Proof.
  intros uninit fuel b b' Hin E.
  destruct (Build_Ret uninit fuel b b' Hin E)
    as (root & root' & extra & Eb & Ec & B & (_ & C & _) & En).
  assert (Hle : Z.of_nat (leaf_count (nodes_ b')) <= leaf_points (nodes_ b')).
  { apply leaf_count_le_leaf_points. intros nd Hnd. rewrite En in Hnd.
    assert (Hnk : node_ok b' (begin_ root) (count_ root) nd).
    { apply (bt_ok _ _ _ _ _ _ B). destruct Hnd as [<- | Hx]; auto. }
    apply (nk_range _ _ _ _ Hnk). }
  pose proof (bt_leaves _ _ _ _ _ _ B) as Hl.
  rewrite En in Hle |- *. cbn [leaf_points fold_right] in Hle. unfold leaf_points in Hl.
  rewrite Ec in Hl. cbn [length]. lia.
Qed.

(** X23: in every tree that [Build] returns for a data set of at least one
    point, the node at an index [j] that has no two children has both its
    links as the unassigned local [leaf] of the call [Build_(j)] left them:
    absent where it read as true, never written where it read as false.  So
    where [leaf] reads as true in every call, every node has two children or
    is marked as a leaf; where it reads as false in every call, no node is
    marked as a leaf. *)
Theorem Build_leaf_marks :
  forall (uninit : Z -> bool) (fuel : nat) (b b' : Builder Param PointInfo Stat),
    build_input b ->
    Build BIG_BAD_NUMBER range_width range_mid uninit fuel b = Ret b' ->
    (forall (j : Z) (nd : Node Stat),
        zth (nodes_ b') j = Some nd -> internal nd = false ->
        child0_ nd = (if uninit j then NoChild else Unset) /\
        child1_ nd = (if uninit j then NoChild else Unset)) /\
    ((forall j, uninit j = true) ->
     forall nd : Node Stat,
       In nd (nodes_ b') ->
       internal nd = true \/ (child0_ nd = NoChild /\ child1_ nd = NoChild)) /\
    ((forall j, uninit j = false) ->
     forall nd : Node Stat,
       In nd (nodes_ b') ->
       internal nd = true \/ (child0_ nd = Unset /\ child1_ nd = Unset)).
Proof.
  intros uninit fuel b b' Hin E.
  destruct (Build_Ret uninit fuel b b' Hin E)
    as (root & root' & extra & _ & _ & _ & (_ & _ & M0 & MX) & En).
  cbn [nodes_ set_nodes length] in MX.
  assert (Hl : forall (j : Z) (nd : Node Stat),
             zth (nodes_ b') j = Some nd -> internal nd = false ->
             child0_ nd = (if uninit j then NoChild else Unset) /\
             child1_ nd = (if uninit j then NoChild else Unset)).
  { intros j nd Zj. rewrite En in Zj.
    destruct (zth_nth_error _ _ _ Zj) as [Nj Hj].
    destruct (Z.to_nat j) as [|k] eqn:Ek.
    - assert (j = 0) by lia. subst j. cbn [nth_error] in Nj. inversion Nj; subst nd.
      exact M0.
    - cbn [nth_error] in Nj. specialize (MX k nd Nj).
      replace (Z.of_nat 1 + Z.of_nat k) with j in MX by lia. exact MX. }
  split; [exact Hl|]. split; intros Hu nd Hnd.
  - destruct (internal nd) eqn:Hi; [left; reflexivity | right].
    destruct (In_zth _ _ Hnd) as (j & Zj).
    destruct (Hl j nd Zj Hi) as (E0 & E1). rewrite Hu in E0, E1. split; assumption.
  - destruct (internal nd) eqn:Hi; [left; reflexivity | right].
    destruct (In_zth _ _ Hnd) as (j & Zj).
    destruct (Hl j nd Zj Hi) as (E0 & E1). rewrite Hu in E0, E1. split; assumption.
Qed.

(** X25: a call [Build_(node_i)] that returns, on a node with both links
    unwritten, whose range of at least one point lies inside the array and
    whose bound is the bounding box of its points, has worked on its own part
    of the builder only: the points at the indices outside the range of the
    node and the nodes at the other indices are the ones that were there, the
    node keeps its range and its bound, and the nodes it allocated come after
    the nodes that were there. *)
Theorem Build__frame :
  forall (uninit : Z -> bool) (fuel : nat) (b b' : Builder Param PointInfo Stat)
    (node_i : Z) (node : Node Stat),
    builder_ok b -> zth (nodes_ b) node_i = Some node ->
    0 <= begin_ node -> 1 <= count_ node -> end_ node <= Z.of_nat (length (points_ b)) ->
    tight (dim_ b) (points_ b) (begin_ node) (count_ node) (bound_ node) ->
    child0_ node = Unset -> child1_ node = Unset ->
    Build_ BIG_BAD_NUMBER range_width range_mid uninit fuel b node_i = Ret b' ->
    (forall k, ~ (begin_ node <= k < end_ node) ->
               zth (points_ b') k = zth (points_ b) k) /\
    (forall j, j <> node_i -> j < Z.of_nat (length (nodes_ b)) ->
               zth (nodes_ b') j = zth (nodes_ b) j) /\
    (exists node', zth (nodes_ b') node_i = Some node' /\
                   begin_ node' = begin_ node /\ count_ node' = count_ node /\
                   bound_ node' = bound_ node) /\
    (length (nodes_ b) <= length (nodes_ b'))%nat.
Proof.
  intros uninit fuel b b' node_i node Hok Znd Hb Hc He Ht Hc0 Hc1 E.
  destruct (Build__Ret uninit fuel b node_i node b' Hok Znd Hb Hc He Ht Hc0 Hc1 E)
    as (node' & extra & B & _).
  destruct (bt_points _ _ _ _ _ _ B) as (_ & Hout & _).
  pose proof (bt_nodes _ _ _ _ _ _ B) as En.
  pose proof (zth_Some_range _ _ _ Znd) as Hi.
  split; [exact Hout|]. split; [|split].
  - intros j Hj Hlen. rewrite En.
    rewrite zth_app_l by (rewrite zupd_length; exact Hlen).
    apply zth_zupd_other. congruence.
  - exists node'. split; [|exact (bt_same _ _ _ _ _ _ B)].
    rewrite En. rewrite zth_app_l by (rewrite zupd_length; lia).
    apply zth_zupd_same, Hi.
  - rewrite En, length_app, zupd_length. lia.
Qed.

(** The two children of every node that has them hold at least one point
    each: the assertion of [Build_] held at every split. *)
Definition children_not_empty (b' : Builder Param PointInfo Stat) : Prop :=
  forall (nd : Node Stat) (l r : Z),
    In nd (nodes_ b') -> child0_ nd = Child l -> child1_ nd = Child r ->
    exists lnode rnode : Node Stat,
      zth (nodes_ b') l = Some lnode /\ zth (nodes_ b') r = Some rnode /\
      count_ lnode <> 0 /\ count_ rnode <> 0.

(** X30: on a data set of at least one point that width and midpoint
    separate, as the exact ones do, no run of [Build] ends in a failed
    assertion, whatever the fuel; and in every tree that [Build] returns,
    both children of every node that has them have a count other than
    zero. *)
Theorem Build_assertion_holds_when_separate :
  forall (uninit : Z -> bool) (b : Builder Param PointInfo Stat),
    build_input b -> separate (points_ b) ->
    (forall fuel, Build BIG_BAD_NUMBER range_width range_mid uninit fuel b <> AssertFail) /\
    (forall fuel b',
        Build BIG_BAD_NUMBER range_width range_mid uninit fuel b = Ret b' ->
        children_not_empty b').
Proof.
  intros uninit b Hin Hsep. split.
  - intros fuel Hfail.
    set (big := Nat.max fuel (Z.to_nat (Z.of_nat (length (points_ b)) + 1))).
    destruct (Build_returns uninit big b Hin Hsep ltac:(unfold big; lia)) as (b' & E).
    destruct (Build_stable uninit fuel big b ltac:(unfold big; lia)) as [Ht | Es].
    + rewrite Hfail in Ht. discriminate.
    + rewrite Hfail in Es. rewrite E in Es. discriminate.
  - intros fuel b' E.
    destruct (Build_Ret uninit fuel b b' Hin E)
      as (root & root' & extra & Eb & Ec & B & _ & En).
    intros nd l r Hnd El Er. rewrite En in Hnd.
    assert (Hnk : node_ok b' (begin_ root) (count_ root) nd).
    { apply (bt_ok _ _ _ _ _ _ B). destruct Hnd as [<- | Hx]; auto. }
    destruct (nk_children _ _ _ _ Hnk l r El Er)
      as (ln & rn & split & Zl & Zr & Hs & H1 & H2 & H3 & H4).
    exists ln, rn. unfold end_ in *. repeat split; try assumption; lia.
Qed.

End BuilderFacts.
(** * Concrete runs *)

(** A statistic that records nothing, payloads that are numbers. *)
#[export] Instance no_statistic : Statistic unit nat unit := {|
  stat_default := tt;
  stat_Init := fun _ s => s;
  stat_Accumulate_node := fun _ _ _ _ s => s;
  stat_Accumulate_point := fun _ _ _ s => s;
  stat_Postprocess := fun _ _ _ s => s
|}.

(** A builder over one-dimensional points, one payload per point, no node
    yet. *)
Definition line_builder (xs : list double) (leaf_size : Z) : Builder unit nat unit :=
  mkBuilder tt (map (fun x => [x]) xs) (seq 10 (length xs)) [] leaf_size 1.

Ltac decide_Q := unfold Qle, Qlt; vm_compute; solve [discriminate | reflexivity].

Lemma finite_small (z : Z) : -100 <= z <= 100 -> finite (inject_Z z).
Proof.
  intros Hz. unfold finite, Qle, DBL_MAX. simpl. rewrite !Z.mul_1_r.
  assert (Hbig : 100 <= 2 ^ 1024 - 2 ^ 971) by (vm_compute; discriminate).
  change (Z.pow_pos 2 1024) with (2 ^ 1024). change (Z.pow_pos 2 971) with (2 ^ 971).
  lia.
Qed.

Lemma line_builder_input (zs : list Z) (leaf_size : Z) :
  zs <> [] -> Forall (fun z => -100 <= z <= 100) zs ->
  build_input (line_builder (map inject_Z zs) leaf_size).
Proof.
  intros Hne Hall. constructor.
  - constructor; cbn [line_builder dim_ points_ point_infos_].
    + lia.
    + rewrite Forall_forall. intros v Hv. apply in_map_iff in Hv.
      destruct Hv as (x & <- & Hx). apply in_map_iff in Hx. destruct Hx as (z & <- & Hz).
      split; [reflexivity|]. constructor; [|constructor].
      apply finite_small. rewrite Forall_forall in Hall. apply Hall. exact Hz.
    + rewrite length_seq, !length_map. reflexivity.
  - reflexivity.
  - cbn [line_builder points_]. rewrite !length_map.
    destruct zs; [contradiction | simpl; lia].
Qed.

(** Four points on a line. *)
Definition four_points : Builder unit nat unit :=
  line_builder (map inject_Z [5; 1; 4; 2]) 1.

Lemma four_points_input : build_input four_points.
Proof.
  apply line_builder_input; [discriminate|].
  repeat constructor; lia.
Qed.

Lemma four_points_call : partition_call four_points 0 3%Q 0 4.
Proof.
  constructor; cbn [four_points line_builder points_ point_infos_ map length seq].
  - lia.
  - repeat constructor; unfold has_dim; simpl; lia.
  - reflexivity.
  - right. exists 0. split; [lia|]. exists 5%Q. split; [reflexivity | decide_Q].
  - right. exists 1. split; [lia|]. exists 1%Q. split; [reflexivity | decide_Q].
Qed.

Lemma Partition__terminates_witness :
  partition_call four_points 0 3%Q 0 4 /\ scan_crosses 5 four_points 0 3%Q 0 4 [] [].
Proof.
  split; [exact four_points_call|].
  apply (Partition__terminates four_points 0 3%Q 0 4 [] [] 5%nat four_points_call).
  simpl. lia.
Defined.

Lemma Partition__partitions_witness :
  partition_call four_points 0 3%Q 0 4 /\ partitions_range 5 four_points 0 3%Q 0 4 [] [].
Proof.
  split; [exact four_points_call|].
  apply (Partition__partitions four_points 0 3%Q 0 4 [] [] 5%nat four_points_call).
  simpl. lia.
Defined.

(** ** The exact and the binary64 width and midpoint *)

(** The exact width and midpoint separate every data set. *)
Lemma exact_separates (points : list Vector) : separate width mid points.
Proof.
  intros d r _ _ Hle. split.
  - unfold width. lra.
  - intros Hne. apply mid_between; assumption.
Qed.

(** The binary64 operations do not tell two fractions of the same value
    apart. *)
Lemma SF_of_double_Qeq (a b : double) : (a == b)%Q -> SF_of_double a = SF_of_double b.
Proof.
  intros E. unfold SF_of_double. rewrite (Qred_complete _ _ E). reflexivity.
Qed.

Lemma width64_Qeq (r : DRange) (x y : double) :
  (x == lo r)%Q -> (y == hi r)%Q -> width64 r = width64 (mkRange x y).
Proof.
  intros Ex Ey. unfold width64, sub64. cbn [lo hi].
  rewrite (SF_of_double_Qeq _ _ Ex), (SF_of_double_Qeq _ _ Ey). reflexivity.
Qed.

Lemma mid64_Qeq (r : DRange) (x y : double) :
  (x == lo r)%Q -> (y == hi r)%Q -> mid64 r = mid64 (mkRange x y).
Proof.
  intros Ex Ey. unfold mid64. cbn [lo hi].
  rewrite (SF_of_double_Qeq _ _ Ex), (SF_of_double_Qeq _ _ Ey). reflexivity.
Qed.

(** The binary64 width and midpoint separate the four points. *)
Lemma four_points_separate : separate width64 mid64 (points_ four_points).
Proof.
  intros d r (v & x & Hv & Hx & Ex) (w & y & Hw & Hy & Ey) Hle.
  rewrite (width64_Qeq r x y Ex Ey), (mid64_Qeq r x y Ex Ey).
  rewrite <- Ex, <- Ey. rewrite <- Ex, <- Ey in Hle. clear Ex Ey r.
  cbn [four_points line_builder points_ map In] in Hv, Hw.
  destruct d as [|d].
  2:{ exfalso. destruct Hv as [<- | [<- | [<- | [<- | []]]]]; destruct d; discriminate Hx. }
  destruct Hv as [<- | [<- | [<- | [<- | []]]]]; cbn [nth_error] in Hx;
    inversion Hx; subst x; clear Hx;
    (destruct Hw as [<- | [<- | [<- | [<- | []]]]]; cbn [nth_error] in Hy;
     inversion Hy; subst y; clear Hy;
     first
       [ exfalso; unfold Qle in Hle; simpl in Hle; lia
       | split;
         [ decide_Q
         | intros Hn;
           first [ exfalso; apply Hn; vm_compute; reflexivity | split; decide_Q ] ] ]).
Qed.

(** The tree that [Build] returns for the four points in binary64. *)
Definition four_points_built : Builder unit nat unit :=
  match Build 2146666666 width64 mid64 (fun _ => true) 5 four_points with
  | Ret b' => b'
  | _ => four_points
  end.

Lemma four_points_run :
  Build 2146666666 width64 mid64 (fun _ => true) 5 four_points = Ret four_points_built.
Proof.
  vm_compute. reflexivity.
Qed.

Lemma Build_bounds_contain_points_witness :
  build_input four_points /\
  separate width64 mid64 (points_ four_points) /\
  exists b', Build 2146666666 width64 mid64 (fun _ => true) 5 four_points = Ret b' /\
             bounds_contain_points b'.
Proof.
  split; [exact four_points_input|]. split; [exact four_points_separate|].
  destruct (Build_bounds_contain_points 2146666666 width64 mid64 (fun _ => true)
              four_points four_points_input) as [Hpart Hret].
  destruct (Hret four_points_separate 5%nat) as (b' & E); [simpl; lia|].
  exists b'. split; [exact E | exact (Hpart 5%nat b' E)].
Defined.

Lemma Build_partition_conservation_witness :
  build_input four_points /\
  separate width64 mid64 (points_ four_points) /\
  exists b', Build 2146666666 width64 mid64 (fun _ => true) 5 four_points = Ret b' /\
             partition_conserved 4 b'.
Proof.
  split; [exact four_points_input|]. split; [exact four_points_separate|].
  destruct (Build_partition_conservation 2146666666 width64 mid64 (fun _ => true)
              four_points four_points_input) as [Hpart Hret].
  destruct (Hret four_points_separate 5%nat) as (b' & E); [simpl; lia|].
  exists b'. split; [exact E | exact (Hpart 5%nat b' E)].
Defined.

(** [Build] itself makes such calls of [Partition_] in binary64.  On two
    large doubles the sum [hi + lo] of the midpoint overflows, every point is
    below the split value and the left cursor leaves the array at its end; on
    1 and the double that follows it the midpoint is 1, every point is at or
    above the split value and the right cursor leaves the array at its
    beginning. *)
Definition after_one : double := (4503599627370497 # 4503599627370496)%Q.

Definition two_large : Builder unit nat unit :=
  line_builder [inject_Z (2 ^ 1023); inject_Z (3 * 2 ^ 1022)] 1.

Definition two_neighbours : Builder unit nat unit := line_builder [1%Q; after_one] 1.

Lemma Build_leaves_the_array :
  build_input two_large /\ build_input two_neighbours /\
  (forall k, 0 <= k < 2 ->
     below (points_ two_large) 0 (mid64 (mkRange (inject_Z (2 ^ 1023))
                                                  (inject_Z (3 * 2 ^ 1022)))) k) /\
  (forall k, 0 <= k < 2 ->
     at_or_above (points_ two_neighbours) 0 (mid64 (mkRange 1 after_one)) k) /\
  Build 2146666666 width64 mid64 (fun _ => true) 3 two_large = OutOfRange /\
  Build 2146666666 width64 mid64 (fun _ => true) 3 two_neighbours = OutOfRange.
Proof.
  assert (Hin : forall xs, length xs = 2%nat ->
            Forall finite xs -> build_input (line_builder xs 1)).
  { intros xs Hl Hf. constructor.
    - constructor; cbn [line_builder dim_ points_ point_infos_].
      + lia.
      + rewrite Forall_forall. intros v Hv. apply in_map_iff in Hv.
        destruct Hv as (x & <- & Hx). split; [reflexivity|].
        constructor; [|constructor]. rewrite Forall_forall in Hf. apply Hf, Hx.
      + rewrite length_seq, length_map. reflexivity.
    - reflexivity.
    - cbn [line_builder points_]. rewrite length_map, Hl. simpl. lia. }
  split; [apply Hin; [reflexivity|]; repeat constructor; unfold Qle; vm_compute;
          discriminate|].
  split; [apply Hin; [reflexivity|]; repeat constructor; unfold Qle; vm_compute;
          discriminate|].
  split.
  { intros k Hk. assert (Hc : k = 0 \/ k = 1) by lia.
    destruct Hc as [-> | ->]; eexists; (split; [reflexivity | decide_Q]). }
  split.
  { intros k Hk. assert (Hc : k = 0 \/ k = 1) by lia.
    destruct Hc as [-> | ->]; eexists; (split; [reflexivity | decide_Q]). }
  split; vm_compute; reflexivity.
Qed.

(** One point below the split value, at the end of the array. *)
Definition one_below : Builder unit nat unit := line_builder [0%Q] 1.

(** C3 (the code at the failing input): [first = 0], [count = 1],
    [split_dim = 0] on the array of the one point 0 with split value 1 is a
    valid input.  The first test of the left scan lets the cursor advance to
    index 1, which is the size of the array, with the right cursor at 0; the
    scan then reads [points_[1]], outside the array, before it tests
    [left > right]. *)
Theorem Partition__reads_past_the_end :
  Forall (has_dim 0) (points_ one_below) /\
  Z.of_nat (length (points_ one_below)) = 1 /\
  left_scan 2 0 1%Q (mkScan (points_ one_below) (point_infos_ one_below) 0 0 [] [])
  = left_scan 1 0 1%Q
      (mkScan (points_ one_below) (point_infos_ one_below) 1 0 (Bound_add [] [0%Q]) []) /\
  zth (points_ one_below) 1 = None /\
  Partition_ 3 one_below 0 1%Q 0 1 [] [] = OutOfRange.
Proof.
  split; [repeat constructor; unfold has_dim; simpl; lia|].
  repeat split; reflexivity.
Qed.

(** One point at or above the split value, at the beginning of the array. *)
Definition one_above : Builder unit nat unit := line_builder [3%Q] 1.

(** C4 (the code at the failing input): [first = 0], [count = 1],
    [split_dim = 0] on the array of the one point 3 with split value 1 is a
    valid call.  The left scan stops at index 0; the first test of the right
    scan lets the cursor retreat to index -1, and the scan then reads
    [points_[-1]], outside the array, before it tests [left > right]. *)
Theorem Partition__reads_before_the_beginning :
  Forall (has_dim 0) (points_ one_above) /\
  left_scan 2 0 1%Q (mkScan (points_ one_above) (point_infos_ one_above) 0 0 [] [])
  = Ret (mkScan (points_ one_above) (point_infos_ one_above) 0 0 [] []) /\
  right_scan 2 0 1%Q (mkScan (points_ one_above) (point_infos_ one_above) 0 0 [] [])
  = right_scan 1 0 1%Q
      (mkScan (points_ one_above) (point_infos_ one_above) 0 (-1) []
         (Bound_add [] [3%Q])) /\
  zth (points_ one_above) (-1) = None /\
  Partition_ 3 one_above 0 1%Q 0 1 [] [] = OutOfRange.
Proof.
  split; [repeat constructor; unfold has_dim; simpl; lia|].
  repeat split; reflexivity.
Qed.

(** Three identical points and a leaf threshold of one. *)
Definition three_identical : Builder unit nat unit :=
  line_builder (map inject_Z [5; 5; 5]) 1.

(** C5 (the code at the failing input): on three identical points with
    [leaf_size_ = 1] the build returns a single node and does not recurse, but
    whether the node is made a leaf depends on the unassigned local [leaf]:
    when it reads as false [set_leaf] is not called and the links of the node
    stay [Unset]; when it reads as true they are [NoChild]. *)
Theorem Build_identical_points_leaf_unset :
  Build 2146666666 width64 mid64 (fun _ => false) 2 three_identical
  = Ret (mkBuilder tt [[5%Q]; [5%Q]; [5%Q]] [10; 11; 12]%nat
           [mkNode 0 3 [mkRange 5 5] Unset Unset tt] 1 1) /\
  Build 2146666666 width64 mid64 (fun _ => true) 2 three_identical
  = Ret (mkBuilder tt [[5%Q]; [5%Q]; [5%Q]] [10; 11; 12]%nat
           [mkNode 0 3 [mkRange 5 5] NoChild NoChild tt] 1 1).
Proof.
  split; vm_compute; reflexivity.
Qed.

(** Three points on a line of which two are neighbouring doubles. *)
Definition neighbours : Builder unit nat unit := line_builder [0%Q; 1%Q; after_one] 1.

Lemma neighbours_input : build_input neighbours.
Proof.
  constructor.
  - constructor; cbn [neighbours line_builder dim_ points_ point_infos_].
    + lia.
    + repeat constructor; unfold Qle; vm_compute; discriminate.
    + reflexivity.
  - reflexivity.
  - simpl. lia.
Qed.

(** C9 (the code at the failing input): the points 0, 1 and the double that
    follows 1, with [leaf_size_ = 1], are a data set of finite doubles.  The
    root is split between 0 and 1.  The right child holds 1 and its
    neighbour: the width of its bound in binary64 is [2 ^ -52], which is not
    zero, and the midpoint [(hi + lo) / 2] in binary64 is 1, the lower end.
    [Partition_] stays inside the array and returns the beginning of the
    range, the left child has no point, and the assertion
    [left->count() != 0 && right->count() != 0] fails, whatever the
    unassigned [leaf] reads as and for every fuel of four or more. *)
Theorem Build_assertion_fails_on_neighbours :
  build_input neighbours /\
  (0 < width64 (mkRange 1 after_one))%Q /\
  mid64 (mkRange 1 after_one) = 1%Q /\
  forall (leaf : bool) (fuel : nat),
    Build 2146666666 width64 mid64 (fun _ => leaf) (4 + fuel) neighbours = AssertFail.
Proof.
  split; [exact neighbours_input|]. split; [decide_Q|]. split; [vm_compute; reflexivity|].
  intros leaf fuel.
  assert (E4 : Build 2146666666 width64 mid64 (fun _ => leaf) 4 neighbours = AssertFail).
  { destruct leaf; vm_compute; reflexivity. }
  destruct (Build_stable 2146666666 width64 mid64 (fun _ => leaf) 4 (4 + fuel) neighbours
              ltac:(lia)) as [Hs | Hs].
  - rewrite E4 in Hs. discriminate Hs.
  - rewrite Hs. exact E4.
Qed.

(** * Further properties of the n-body classes *)

(** Two ranges with equal ends, and two Postponed or Summary values with
    equal fields, for the equality of [double]. *)
Definition DRange_eq (r o : DRange) : Prop := (lo r == lo o)%Q /\ (hi r == hi o)%Q.

Definition Postponed_eq (p q : NbodySimulatorPostponed.t) : Prop :=
  DRange_eq (NbodySimulatorPostponed.negative_potential_ p)
            (NbodySimulatorPostponed.negative_potential_ q) /\
  DRange_eq (NbodySimulatorPostponed.positive_potential_ p)
            (NbodySimulatorPostponed.positive_potential_ q) /\
  (NbodySimulatorPostponed.pruned_ p == NbodySimulatorPostponed.pruned_ q)%Q /\
  (NbodySimulatorPostponed.used_error_ p == NbodySimulatorPostponed.used_error_ q)%Q.

Definition Summary_eq (p q : NbodySimulatorSummary.t) : Prop :=
  DRange_eq (NbodySimulatorSummary.negative_potential_ p)
            (NbodySimulatorSummary.negative_potential_ q) /\
  DRange_eq (NbodySimulatorSummary.positive_potential_ p)
            (NbodySimulatorSummary.positive_potential_ q) /\
  (NbodySimulatorSummary.pruned_ p == NbodySimulatorSummary.pruned_ q)%Q /\
  (NbodySimulatorSummary.used_error_ p == NbodySimulatorSummary.used_error_ q)%Q.

Lemma read_out_of_range {A : Type} (l : list A) (i : Z) :
  i < 0 \/ Z.of_nat (length l) <= i -> read l i = OutOfRange.
Proof.
  intros Hi. unfold read. rewrite (zth_None l i Hi). reflexivity.
Qed.

Lemma read_cases {A : Type} (l : list A) (i : Z) :
  (exists x, read l i = Ret x /\ zth l i = Some x /\ 0 <= i < Z.of_nat (length l)) \/
  (read l i = OutOfRange /\ (i < 0 \/ Z.of_nat (length l) <= i)).
Proof.
  destruct (Z.lt_ge_cases i 0) as [Hneg | Hpos].
  { right. split; [apply read_out_of_range|]; lia. }
  destruct (Z.lt_ge_cases i (Z.of_nat (length l))) as [Hin | Hout].
  - left. destruct (read_in_range l i ltac:(lia)) as (x & Rx & Zx). exists x. auto.
  - right. split; [apply read_out_of_range|]; lia.
Qed.

(** X1: [NbodySimulatorGlobal::ApplyContribution] overwrites every Postponed
    of the vector with the exact contribution of the point triple: both
    ranges are single values, the negative one at or below zero and the
    positive one at or above it, their sum is the potential, and the two
    counters are zero; the vector keeps its size. *)
Theorem ApplyContribution_exact :
  forall (Table TripleDistanceSq : Type)
    (global : NbodySimulatorGlobal.t Table TripleDistanceSq) (range_in : TripleDistanceSq)
    (postponeds : list NbodySimulatorPostponed.t),
    length (NbodySimulatorGlobal.ApplyContribution global range_in postponeds)
    = length postponeds /\
    forall p, In p (NbodySimulatorGlobal.ApplyContribution global range_in postponeds) ->
      lo (NbodySimulatorPostponed.negative_potential_ p)
      = hi (NbodySimulatorPostponed.negative_potential_ p) /\
      lo (NbodySimulatorPostponed.positive_potential_ p)
      = hi (NbodySimulatorPostponed.positive_potential_ p) /\
      (lo (NbodySimulatorPostponed.negative_potential_ p) <= 0)%Q /\
      (0 <= lo (NbodySimulatorPostponed.positive_potential_ p))%Q /\
      (lo (NbodySimulatorPostponed.negative_potential_ p)
       + lo (NbodySimulatorPostponed.positive_potential_ p)
       == NbodySimulatorGlobal.potential_ global range_in)%Q /\
      in_range (DRange_plus (NbodySimulatorPostponed.negative_potential_ p)
                  (NbodySimulatorPostponed.positive_potential_ p))
        (NbodySimulatorGlobal.potential_ global range_in) /\
      NbodySimulatorPostponed.pruned_ p = 0%Q /\
      NbodySimulatorPostponed.used_error_ p = 0%Q.
Proof.
  intros Table TDS global range_in postponeds.
  unfold NbodySimulatorGlobal.ApplyContribution. split; [apply length_map|].
  intros p Hp. apply in_map_iff in Hp. destruct Hp as (p0 & <- & _).
  destruct (Qlt_b (NbodySimulatorGlobal.potential_ global range_in) 0) eqn:E.
  - apply Qlt_b_true in E. unfold in_range. simpl. repeat split; try lra.
  - apply Qlt_b_false in E. unfold in_range. simpl. repeat split; try lra.
Qed.

(** The four vectors that [NbodySimulatorResult::ApplyPostponed] indexes
    hold an entry for the query point. *)
Definition Result_has (self : NbodySimulatorResult.t) (q_index : Z) : Prop :=
  0 <= q_index < Z.of_nat (length (NbodySimulatorResult.negative_potential_ self)) /\
  0 <= q_index < Z.of_nat (length (NbodySimulatorResult.positive_potential_ self)) /\
  0 <= q_index < Z.of_nat (length (NbodySimulatorResult.pruned_ self)) /\
  0 <= q_index < Z.of_nat (length (NbodySimulatorResult.used_error_ self)).

(** What flushing a Postponed into the entry of a query point leaves, with
    [double_add] for the sum of two doubles. *)
Definition flushed (double_add : double -> double -> double) (q_index : Z)
    (postponed_in : NbodySimulatorPostponed.t) (self after : NbodySimulatorResult.t)
  : Prop :=
  exists (n p : DRange) (pr ue : double),
    zth (NbodySimulatorResult.negative_potential_ self) q_index = Some n /\
    zth (NbodySimulatorResult.positive_potential_ self) q_index = Some p /\
    zth (NbodySimulatorResult.pruned_ self) q_index = Some pr /\
    zth (NbodySimulatorResult.used_error_ self) q_index = Some ue /\
    NbodySimulatorResult.negative_potential_ after
    = zupd (NbodySimulatorResult.negative_potential_ self) q_index
        (DRange_plus_with double_add n
           (NbodySimulatorPostponed.negative_potential_ postponed_in)) /\
    NbodySimulatorResult.positive_potential_ after
    = zupd (NbodySimulatorResult.positive_potential_ self) q_index
        (DRange_plus_with double_add p
           (NbodySimulatorPostponed.positive_potential_ postponed_in)) /\
    NbodySimulatorResult.pruned_ after
    = zupd (NbodySimulatorResult.pruned_ self) q_index
        (double_add pr (NbodySimulatorPostponed.pruned_ postponed_in)) /\
    NbodySimulatorResult.used_error_ after
    = zupd (NbodySimulatorResult.used_error_ self) q_index
        (double_add ue (NbodySimulatorPostponed.used_error_ postponed_in)) /\
    NbodySimulatorResult.potential_e_ after = NbodySimulatorResult.potential_e_ self.

(** X3: for a query index inside the four vectors,
    [NbodySimulatorResult::ApplyPostponed] returns.  Whatever the sum of two
    doubles computes, the entry of the query point in each of the two ranges
    and the two counters is that sum of the old entry and the Postponed's,
    end by end for a range; every other entry and the whole of
    [potential_e_] are untouched, and no vector changes its size. *)
Theorem Result_ApplyPostponed_entry :
  forall (double_add : double -> double -> double) (q_index : Z)
    (postponed_in : NbodySimulatorPostponed.t) (self : NbodySimulatorResult.t),
    Result_has self q_index ->
    exists after,
      NbodySimulatorResult.ApplyPostponed double_add q_index postponed_in self
      = Ret after /\
      flushed double_add q_index postponed_in self after /\
      Result_has after q_index /\
      (forall j, j <> q_index ->
         zth (NbodySimulatorResult.negative_potential_ after) j
         = zth (NbodySimulatorResult.negative_potential_ self) j /\
         zth (NbodySimulatorResult.positive_potential_ after) j
         = zth (NbodySimulatorResult.positive_potential_ self) j /\
         zth (NbodySimulatorResult.pruned_ after) j
         = zth (NbodySimulatorResult.pruned_ self) j /\
         zth (NbodySimulatorResult.used_error_ after) j
         = zth (NbodySimulatorResult.used_error_ self) j).
Proof.
  intros double_add q post self Hhas.
  pose proof Hhas as (Hn & Hp & Hpr & Hue).
  destruct (read_in_range _ _ Hn) as (n & Rn & Zn).
  destruct (read_in_range _ _ Hp) as (p & Rp & Zp).
  destruct (read_in_range _ _ Hpr) as (pr & Rpr & Zpr).
  destruct (read_in_range _ _ Hue) as (ue & Rue & Zue).
  unfold NbodySimulatorResult.ApplyPostponed, write.
  rewrite Rn, Rp, Rpr, Rue. cbn [bind]. eexists. split; [reflexivity|].
  split; [exists n, p, pr, ue; cbn; repeat split; assumption|].
  cbn [NbodySimulatorResult.negative_potential_ NbodySimulatorResult.positive_potential_
       NbodySimulatorResult.pruned_ NbodySimulatorResult.used_error_]. split.
  - unfold Result_has.
    cbn [NbodySimulatorResult.negative_potential_ NbodySimulatorResult.positive_potential_
         NbodySimulatorResult.pruned_ NbodySimulatorResult.used_error_].
    rewrite !zupd_length. auto.
  - intros j Hj. rewrite !zth_zupd_other by congruence. auto.
Qed.

(** X4: for a query index outside one of the four vectors, the run of
    [NbodySimulatorResult::ApplyPostponed] indexes a vector outside its
    range, an access to which the source gives no meaning. *)
Theorem Result_ApplyPostponed_out_of_range :
  forall (double_add : double -> double -> double) (q_index : Z)
    (postponed_in : NbodySimulatorPostponed.t) (self : NbodySimulatorResult.t),
    ~ Result_has self q_index ->
    NbodySimulatorResult.ApplyPostponed double_add q_index postponed_in self
    = OutOfRange.
Proof.
  intros double_add q post self Hnot. unfold NbodySimulatorResult.ApplyPostponed, write.
  destruct (read_cases (NbodySimulatorResult.negative_potential_ self) q)
    as [(n & Rn & _ & Hn) | [Rn _]]; rewrite Rn; cbn [bind]; [|reflexivity].
  destruct (read_cases (NbodySimulatorResult.positive_potential_ self) q)
    as [(p & Rp & _ & Hp) | [Rp _]]; rewrite Rp; cbn [bind]; [|reflexivity].
  destruct (read_cases (NbodySimulatorResult.pruned_ self) q)
    as [(pr & Rpr & _ & Hpr) | [Rpr _]]; rewrite Rpr; cbn [bind]; [|reflexivity].
  destruct (read_cases (NbodySimulatorResult.used_error_ self) q)
    as [(ue & Rue & _ & Hue) | [Rue _]]; rewrite Rue; cbn [bind]; [|reflexivity].
  exfalso. apply Hnot. unfold Result_has. auto.
Qed.




Lemma DRange_union_widens (r o : DRange) (x : double) :
  in_range r x \/ in_range o x -> in_range (DRange_union r o) x.
Proof.
  unfold in_range, DRange_union. simpl. intros Hx. split.
  - destruct (Qlt_b (lo o) (lo r)) eqn:E;
      [apply Qlt_b_true in E | apply Qlt_b_false in E]; destruct Hx as [[? ?] | [? ?]]; lra.
  - destruct (Qlt_b (hi r) (hi o)) eqn:E;
      [apply Qlt_b_true in E | apply Qlt_b_false in E]; destruct Hx as [[? ?] | [? ?]]; lra.
Qed.

(** X7: [Accumulate(summary_in)] only widens: each range of the result
    contains what either range contained, the pruned count is at most either
    count and the used error at least either error. *)
Theorem Accumulate_summary_widens :
  forall self summary_in : NbodySimulatorSummary.t,
    let after := NbodySimulatorSummary.Accumulate_summary summary_in self in
    (forall x,
        in_range (NbodySimulatorSummary.negative_potential_ self) x \/
        in_range (NbodySimulatorSummary.negative_potential_ summary_in) x ->
        in_range (NbodySimulatorSummary.negative_potential_ after) x) /\
    (forall x,
        in_range (NbodySimulatorSummary.positive_potential_ self) x \/
        in_range (NbodySimulatorSummary.positive_potential_ summary_in) x ->
        in_range (NbodySimulatorSummary.positive_potential_ after) x) /\
    (NbodySimulatorSummary.pruned_ after <= NbodySimulatorSummary.pruned_ self)%Q /\
    (NbodySimulatorSummary.pruned_ after <= NbodySimulatorSummary.pruned_ summary_in)%Q /\
    (NbodySimulatorSummary.used_error_ self <= NbodySimulatorSummary.used_error_ after)%Q /\
    (NbodySimulatorSummary.used_error_ summary_in
     <= NbodySimulatorSummary.used_error_ after)%Q.
Proof.
  intros self s after. subst after.
  unfold NbodySimulatorSummary.Accumulate_summary, NbodySimulatorSummary.std_min,
    NbodySimulatorSummary.std_max.
  cbn [NbodySimulatorSummary.negative_potential_ NbodySimulatorSummary.positive_potential_
       NbodySimulatorSummary.pruned_ NbodySimulatorSummary.used_error_].
  split; [intros x; apply DRange_union_widens|].
  split; [intros x; apply DRange_union_widens|].
  destruct (Qlt_b (NbodySimulatorSummary.pruned_ s) (NbodySimulatorSummary.pruned_ self))
    eqn:E1; [apply Qlt_b_true in E1 | apply Qlt_b_false in E1];
  destruct (Qlt_b (NbodySimulatorSummary.used_error_ self)
              (NbodySimulatorSummary.used_error_ s))
    eqn:E2; [apply Qlt_b_true in E2 | apply Qlt_b_false in E2
            | apply Qlt_b_true in E2 | apply Qlt_b_false in E2];
  repeat split; lra.
Qed.

(** The entries of [l] at the indices [i .. i + n - 1] are [z], the others
    are those of [l0]. *)
Definition zeroed {A : Type} (z : A) (i : Z) (n : nat) (l0 l : list A) : Prop :=
  length l = length l0 /\
  forall k, zth l k = if (i <=? k) && (k <? i + Z.of_nat n) then
                        (if k <? Z.of_nat (length l0) then Some z else None)
                      else zth l0 k.

Lemma zeroed_nil {A : Type} (z : A) (i : Z) (l : list A) : zeroed z i 0 l l.
Proof.
  split; [reflexivity|]. intros k.
  destruct (Z.leb_spec i k); destruct (Z.ltb_spec k (i + Z.of_nat 0)); simpl; auto; lia.
Qed.

Lemma zeroed_step {A : Type} (z : A) (i : Z) (n : nat) (l0 l : list A) :
  0 <= i < Z.of_nat (length l0) ->
  zeroed z (i + 1) n (zupd l0 i z) l -> zeroed z i (S n) l0 l.
Proof.
  intros Hi [Hlen Hz]. rewrite zupd_length in Hlen, Hz. split; [exact Hlen|].
  intros k. rewrite Hz.
  destruct (Z.eq_dec k i) as [-> | Hne].
  - destruct (Z.leb_spec (i + 1) i); [lia|]. cbn [andb].
    rewrite zth_zupd_same by exact Hi.
    destruct (Z.leb_spec i i); [|lia]. destruct (Z.ltb_spec i (i + Z.of_nat (S n))); [|lia].
    cbn [andb]. destruct (Z.ltb_spec i (Z.of_nat (length l0))); [reflexivity | lia].
  - rewrite zth_zupd_other by congruence.
    destruct (Z.leb_spec (i + 1) k); destruct (Z.leb_spec i k); try lia;
      destruct (Z.ltb_spec k (i + 1 + Z.of_nat n));
      destruct (Z.ltb_spec k (i + Z.of_nat (S n))); try lia; reflexivity.
Qed.

Lemma SetZero_loop_spec (n : nat) :
  forall (i : Z) (d : NbodySimulatorDelta.t),
    0 <= i ->
    i + Z.of_nat n <= Z.of_nat (length (NbodySimulatorDelta.negative_potential_ d)) ->
    i + Z.of_nat n <= Z.of_nat (length (NbodySimulatorDelta.positive_potential_ d)) ->
    i + Z.of_nat n <= Z.of_nat (length (NbodySimulatorDelta.pruned_ d)) ->
    i + Z.of_nat n <= Z.of_nat (length (NbodySimulatorDelta.used_error_ d)) ->
    exists d',
      NbodySimulatorDelta.SetZero_loop n i d = Ret d' /\
      zeroed (DRange_Init 0 0) i n (NbodySimulatorDelta.negative_potential_ d)
        (NbodySimulatorDelta.negative_potential_ d') /\
      zeroed (DRange_Init 0 0) i n (NbodySimulatorDelta.positive_potential_ d)
        (NbodySimulatorDelta.positive_potential_ d') /\
      zeroed 0%Q i n (NbodySimulatorDelta.pruned_ d) (NbodySimulatorDelta.pruned_ d') /\
      zeroed 0%Q i n (NbodySimulatorDelta.used_error_ d)
        (NbodySimulatorDelta.used_error_ d').
Proof.
  induction n as [|n IH]; intros i d Hi Hn Hp Hpr Hue.
  - exists d. split; [reflexivity|].
    split; [apply zeroed_nil|]. split; [apply zeroed_nil|].
    split; apply zeroed_nil.
  - destruct (read_in_range (NbodySimulatorDelta.negative_potential_ d) i ltac:(lia))
      as (x1 & R1 & _).
    destruct (read_in_range (NbodySimulatorDelta.positive_potential_ d) i ltac:(lia))
      as (x2 & R2 & _).
    destruct (read_in_range (NbodySimulatorDelta.pruned_ d) i ltac:(lia)) as (x3 & R3 & _).
    destruct (read_in_range (NbodySimulatorDelta.used_error_ d) i ltac:(lia))
      as (x4 & R4 & _).
    cbn [NbodySimulatorDelta.SetZero_loop]. unfold write. rewrite R1, R2, R3, R4. cbn [bind].
    set (d1 := NbodySimulatorDelta.mk
                 (zupd (NbodySimulatorDelta.negative_potential_ d) i (DRange_Init 0 0))
                 (zupd (NbodySimulatorDelta.positive_potential_ d) i (DRange_Init 0 0))
                 (zupd (NbodySimulatorDelta.pruned_ d) i 0%Q)
                 (zupd (NbodySimulatorDelta.used_error_ d) i 0%Q)).
    assert (Hlens :
        i + 1 + Z.of_nat n <= Z.of_nat (length (NbodySimulatorDelta.negative_potential_ d1)) /\
        i + 1 + Z.of_nat n <= Z.of_nat (length (NbodySimulatorDelta.positive_potential_ d1)) /\
        i + 1 + Z.of_nat n <= Z.of_nat (length (NbodySimulatorDelta.pruned_ d1)) /\
        i + 1 + Z.of_nat n <= Z.of_nat (length (NbodySimulatorDelta.used_error_ d1))).
    { unfold d1. cbn. rewrite !zupd_length. lia. }
    destruct Hlens as (L1 & L2 & L3 & L4).
    destruct (IH (i + 1) d1 ltac:(lia) L1 L2 L3 L4) as (d' & E & Z1 & Z2 & Z3 & Z4).
    exists d'. split; [exact E|]. unfold d1 in Z1, Z2, Z3, Z4.
    cbn [NbodySimulatorDelta.negative_potential_ NbodySimulatorDelta.positive_potential_
         NbodySimulatorDelta.pruned_ NbodySimulatorDelta.used_error_] in Z1, Z2, Z3, Z4.
    split; [apply zeroed_step; [lia | exact Z1]|].
    split; [apply zeroed_step; [lia | exact Z2]|].
    split; (apply zeroed_step; [unfold double in *; lia | assumption]).
Qed.

(** X8: when the other three vectors of a Delta are at least as long as
    [negative_potential_], [SetZero] returns; the entries of the four vectors
    at the indices of [negative_potential_] are zero, the entries beyond them
    are untouched and no vector changes its size. *)
Theorem Delta_SetZero_zeroes :
  forall d : NbodySimulatorDelta.t,
    (length (NbodySimulatorDelta.negative_potential_ d)
     <= length (NbodySimulatorDelta.positive_potential_ d))%nat ->
    (length (NbodySimulatorDelta.negative_potential_ d)
     <= length (NbodySimulatorDelta.pruned_ d))%nat ->
    (length (NbodySimulatorDelta.negative_potential_ d)
     <= length (NbodySimulatorDelta.used_error_ d))%nat ->
    exists d',
      NbodySimulatorDelta.SetZero d = Ret d' /\
      zeroed (DRange_Init 0 0) 0 (length (NbodySimulatorDelta.negative_potential_ d))
        (NbodySimulatorDelta.negative_potential_ d)
        (NbodySimulatorDelta.negative_potential_ d') /\
      zeroed (DRange_Init 0 0) 0 (length (NbodySimulatorDelta.negative_potential_ d))
        (NbodySimulatorDelta.positive_potential_ d)
        (NbodySimulatorDelta.positive_potential_ d') /\
      zeroed 0%Q 0 (length (NbodySimulatorDelta.negative_potential_ d))
        (NbodySimulatorDelta.pruned_ d) (NbodySimulatorDelta.pruned_ d') /\
      zeroed 0%Q 0 (length (NbodySimulatorDelta.negative_potential_ d))
        (NbodySimulatorDelta.used_error_ d) (NbodySimulatorDelta.used_error_ d').
Proof.
  intros d H1 H2 H3. unfold NbodySimulatorDelta.SetZero.
  apply SetZero_loop_spec; unfold double in *; lia.
Qed.

(** X9: the Delta that [DeterministicCompute] leaves on a newly constructed
    Delta merges as nothing: for each of the three node indices,
    [NbodySimulatorPostponed::ApplyDelta] and [NbodySimulatorSummary::ApplyDelta]
    return the Postponed and the Summary they were given, field for field. *)
Theorem ApplyDelta_of_computed_delta :
  forall (Metric GlobalType TripleRangeDistanceSq ResultType : Type) (metric : Metric)
    (global : GlobalType) (triple_range_distance_sq : TripleRangeDistanceSq)
    (query_results : ResultType) (node_index : Z)
    (postponed : NbodySimulatorPostponed.t) (summary : NbodySimulatorSummary.t),
    0 <= node_index < 3 ->
    let delta := NbodySimulatorDelta.DeterministicCompute metric global
                   triple_range_distance_sq NbodySimulatorDelta.new in
    (exists p', Postponed_ApplyDelta delta node_index query_results postponed = Ret p' /\
                Postponed_eq p' postponed) /\
    (exists s', NbodySimulatorSummary.ApplyDelta delta node_index summary = Ret s' /\
                Summary_eq s' summary).
Proof.
  intros Metric G TRD R metric global trd results i p s Hi delta. subst delta.
  unfold NbodySimulatorDelta.DeterministicCompute, Postponed_ApplyDelta,
    NbodySimulatorSummary.ApplyDelta, NbodySimulatorDelta.new.
  cbn [NbodySimulatorDelta.negative_potential_ NbodySimulatorDelta.positive_potential_
       NbodySimulatorDelta.pruned_ NbodySimulatorDelta.used_error_].
  assert (Hc : i = 0 \/ i = 1 \/ i = 2) by lia.
  destruct Hc as [-> | [-> | ->]]; cbn; (split; eexists; (split; [reflexivity|]));
    unfold Postponed_eq, Summary_eq, DRange_eq; cbn; repeat split; lra.
Qed.

(** ** Concrete runs of the n-body classes *)

(** A Postponed with something in every field, a Summary and a Delta whose
    vectors differ in size. *)
Definition some_postponed : NbodySimulatorPostponed.t :=
  NbodySimulatorPostponed.mk (DRange_Init (-1) 0) (DRange_Init 0 2) 1%Q (1 # 2)%Q.

Definition some_summary : NbodySimulatorSummary.t :=
  NbodySimulatorSummary.mk (DRange_Init (-3) (-1)) (DRange_Init 0 2) 5%Q (1 # 4)%Q.

Definition uneven_delta : NbodySimulatorDelta.t :=
  NbodySimulatorDelta.mk [DRange_Init 1 2] [DRange_Init 0 0; DRange_Init 3 4]
    [1%Q; 2%Q] [5%Q].

Lemma two_results_has_1 : Result_has two_results 1.
Proof.
  unfold Result_has, two_results. simpl. lia.
Qed.

Lemma Result_ApplyPostponed_entry_witness :
  Result_has two_results 1 /\
  exists after,
    NbodySimulatorResult.ApplyPostponed add64 1 some_postponed two_results = Ret after /\
    flushed add64 1 some_postponed two_results after.
Proof.
  split; [exact two_results_has_1|].
  destruct (Result_ApplyPostponed_entry add64 1 some_postponed two_results
              two_results_has_1) as (after & E & F & _).
  exists after. split; [exact E | exact F].
Defined.

Lemma Result_ApplyPostponed_out_of_range_witness :
  NbodySimulatorResult.ApplyPostponed add64 2 some_postponed two_results = OutOfRange.
Proof.
  apply (Result_ApplyPostponed_out_of_range add64 2 some_postponed two_results).
  unfold Result_has, two_results. simpl. lia.
Defined.


Lemma Delta_SetZero_zeroes_witness :
  exists d',
    NbodySimulatorDelta.SetZero uneven_delta = Ret d' /\
    zeroed (DRange_Init 0 0) 0 1 [DRange_Init 1 2]
      (NbodySimulatorDelta.negative_potential_ d') /\
    zeroed (DRange_Init 0 0) 0 1 [DRange_Init 0 0; DRange_Init 3 4]
      (NbodySimulatorDelta.positive_potential_ d') /\
    zeroed 0%Q 0 1 [1%Q; 2%Q] (NbodySimulatorDelta.pruned_ d') /\
    zeroed 0%Q 0 1 [5%Q] (NbodySimulatorDelta.used_error_ d').
Proof.
  apply (Delta_SetZero_zeroes uneven_delta); simpl; lia.
Defined.

Lemma ApplyDelta_of_computed_delta_witness :
  (exists p',
      Postponed_ApplyDelta
        (NbodySimulatorDelta.DeterministicCompute tt tt tt NbodySimulatorDelta.new)
        1 tt some_postponed = Ret p' /\
      Postponed_eq p' some_postponed) /\
  (exists s',
      NbodySimulatorSummary.ApplyDelta
        (NbodySimulatorDelta.DeterministicCompute tt tt tt NbodySimulatorDelta.new)
        1 some_summary = Ret s' /\
      Summary_eq s' some_summary).
Proof.
  apply (ApplyDelta_of_computed_delta unit unit unit unit tt tt tt tt 1 some_postponed
           some_summary).
  lia.
Defined.

(** * Further properties of the kd-tree builder *)

Section BoundingBox.

Context {Param PointInfo Stat : Type}.

(** X10: over a range of at least one point that lies inside the array,
    started from the empty bound of [dim_] dimensions, [FindBoundingBox_]
    returns the bounding box of the points of the range: it has [dim_]
    ranges, contains every point of the range, and each end of each of its
    ranges is the coordinate of one of them. *)
Theorem FindBoundingBox__bounding_box :
  forall (b : Builder Param PointInfo Stat) (first count : Z),
    0 <= first -> 1 <= count -> first + count <= Z.of_nat (length (points_ b)) ->
    0 <= dim_ b ->
    (forall v, in_node (points_ b) first count v -> valid_point (dim_ b) v) ->
    exists bd : Bound,
      FindBoundingBox_ b first count (Bound_Init (dim_ b)) = Ret bd /\
      tight (dim_ b) (points_ b) first count bd.
Proof.
  intros b first count Hf Hc Hn Hd Hv.
  destruct (FindBoundingBox_loop_spec (points_ b) (Z.to_nat count) first
              (Bound_Init (dim_ b)) Hf ltac:(lia)) as (bd & E & Hacc & Hcov).
  rewrite Z2Nat.id in Hacc, Hcov by lia.
  exists bd. split; [exact E|].
  apply tight_of_generated.
  - rewrite (accumulated_length _ _ _ Hacc). apply Bound_Init_length, Hd.
  - exact Hv.
  - destruct (zth_in_range (points_ b) first ltac:(lia)) as (v & Zv).
    exists v, first. split; [lia | exact Zv].
  - exact Hcov.
  - eapply generated_accumulated; [exact Hacc | apply generated_Init].
Qed.

(** X11: over any range inside the array and from any bound,
    [FindBoundingBox_] returns a bound with as many ranges as the one it was
    given, that contains every point of the range and every point that the
    given bound contained: it only widens. *)
Theorem FindBoundingBox__widens :
  forall (b : Builder Param PointInfo Stat) (first count : Z) (bound : Bound),
    0 <= first -> 0 <= count -> first + count <= Z.of_nat (length (points_ b)) ->
    exists bd : Bound,
      FindBoundingBox_ b first count bound = Ret bd /\
      length bd = length bound /\
      (forall v, in_node (points_ b) first count v -> Bound_contains bd v) /\
      (forall u, Bound_contains bound u -> Bound_contains bd u).
Proof.
  intros b first count bound Hf Hc Hn.
  destruct (FindBoundingBox_loop_spec (points_ b) (Z.to_nat count) first bound Hf
              ltac:(lia)) as (bd & E & Hacc & Hcov).
  rewrite Z2Nat.id in Hacc, Hcov by lia.
  exists bd. split; [exact E|]. split; [exact (accumulated_length _ _ _ Hacc)|].
  split; [exact Hcov|]. intros u Hu. eapply accumulated_mono; [exact Hacc | exact Hu].
Qed.

End BoundingBox.

Section PartitionMore.

Context {Param PointInfo Stat : Type}.

(** X13: a call of [Partition_] that stays inside the arrays leaves the
    points and the payloads outside its range alone: the parameters, the leaf
    size and the dimension of the builder are as they were, the two arrays
    keep their sizes, and the point and the payload at every index outside
    [first, first + count) are the ones that were there. *)
Theorem Partition__frame :
  forall (b : Builder Param PointInfo Stat) (split_dim : Z) (splitvalue : double)
    (first count : Z) (left_bound right_bound : Bound) (fuel : nat),
    partition_call b split_dim splitvalue first count ->
    (Z.to_nat (count + 1) <= fuel)%nat ->
    exists p : Partitioned Param PointInfo Stat,
      Partition_ fuel b split_dim splitvalue first count left_bound right_bound = Ret p /\
      param_ (p_builder p) = param_ b /\
      leaf_size_ (p_builder p) = leaf_size_ b /\ dim_ (p_builder p) = dim_ b /\
      length (points_ (p_builder p)) = length (points_ b) /\
      length (point_infos_ (p_builder p)) = length (point_infos_ b) /\
      forall k, ~ (first <= k < first + count) ->
        zth (points_ (p_builder p)) k = zth (points_ b) k /\
        zth (point_infos_ (p_builder p)) k = zth (point_infos_ b) k.
Proof.
  intros b sd sv first count lb rb fuel Hcall Hfuel.
  destruct (Partition__spec b sd sv first count lb rb fuel Hcall Hfuel)
    as (s & _ & I & _ & EP).
  eexists. split; [exact EP|].
  cbn [p_builder param_ nodes_ leaf_size_ dim_ points_ point_infos_ set_points].
  destruct (inv_shuffled _ _ _ _ _ _ _ _ _ I) as (L & Hout & _).
  pose proof (inv_infos_length _ _ _ _ _ _ _ _ _ I) as Li.
  pose proof (call_infos _ _ _ _ _ Hcall) as Li0.
  split; [reflexivity|]. split; [reflexivity|].
  split; [reflexivity|]. split; [exact L|]. split; [congruence|].
  intros k Hk. split; [apply Hout, Hk|].
  apply (inv_infos_outside _ _ _ _ _ _ _ _ _ I), Hk.
Qed.

(** X14: the two bounds that such a call of [Partition_] leaves have as
    many ranges as the ones it was given; the left one contains every point
    it left before the returned index, the right one every point from that
    index on, and each still contains what it contained before the call. *)
Theorem Partition__bounds :
  forall (b : Builder Param PointInfo Stat) (split_dim : Z) (splitvalue : double)
    (first count : Z) (left_bound right_bound : Bound) (fuel : nat),
    partition_call b split_dim splitvalue first count ->
    (Z.to_nat (count + 1) <= fuel)%nat ->
    exists p : Partitioned Param PointInfo Stat,
      Partition_ fuel b split_dim splitvalue first count left_bound right_bound = Ret p /\
      length (p_left_bound p) = length left_bound /\
      length (p_right_bound p) = length right_bound /\
      (forall v, in_node (points_ (p_builder p)) first (split_col p - first) v ->
                 Bound_contains (p_left_bound p) v) /\
      (forall v, in_node (points_ (p_builder p)) (split_col p)
                   (first + count - split_col p) v ->
                 Bound_contains (p_right_bound p) v) /\
      (forall u, Bound_contains left_bound u -> Bound_contains (p_left_bound p) u) /\
      (forall u, Bound_contains right_bound u -> Bound_contains (p_right_bound p) u).
Proof.
  intros b sd sv first count lb rb fuel Hcall Hfuel.
  destruct (Partition__spec b sd sv first count lb rb fuel Hcall Hfuel)
    as (s & _ & I & Hcross & EP).
  eexists. split; [exact EP|].
  cbn [p_builder p_left_bound p_right_bound split_col points_ set_points].
  pose proof (inv_left_acc _ _ _ _ _ _ _ _ _ I) as Hl.
  pose proof (inv_right_acc _ _ _ _ _ _ _ _ _ I) as Hr.
  split; [exact (accumulated_length _ _ _ Hl)|].
  split; [exact (accumulated_length _ _ _ Hr)|].
  split.
  { intros v (k & Hk & Zv).
    eapply (inv_left_cover _ _ _ _ _ _ _ _ _ I); [|exact Zv]. lia. }
  split.
  { intros v (k & Hk & Zv).
    eapply (inv_right_cover _ _ _ _ _ _ _ _ _ I); [|exact Zv]. lia. }
  split; intros u Hu; eapply accumulated_mono; eauto.
Qed.

(** X15: when the two bounds given to such a call are the empty bound of
    [dim] dimensions and the points of the range have [dim] finite
    coordinates, each bound that [Partition_] leaves is the bounding box of
    its side, for each side that holds a point. *)
Theorem Partition__bounding_boxes :
  forall (b : Builder Param PointInfo Stat) (split_dim : Z) (splitvalue : double)
    (first count dim : Z) (fuel : nat),
    partition_call b split_dim splitvalue first count ->
    (Z.to_nat (count + 1) <= fuel)%nat ->
    0 <= dim ->
    (forall v, in_node (points_ b) first count v -> valid_point dim v) ->
    exists p : Partitioned Param PointInfo Stat,
      Partition_ fuel b split_dim splitvalue first count (Bound_Init dim) (Bound_Init dim)
      = Ret p /\
      (first < split_col p ->
       tight dim (points_ (p_builder p)) first (split_col p - first) (p_left_bound p)) /\
      (split_col p < first + count ->
       tight dim (points_ (p_builder p)) (split_col p) (first + count - split_col p)
         (p_right_bound p)).
Proof.
  intros b sd sv first count dim fuel Hcall Hfuel Hdim Hval.
  destruct (Partition__spec b sd sv first count (Bound_Init dim) (Bound_Init dim) fuel
              Hcall Hfuel) as (s & _ & I & Hcross & EP).
  eexists. split; [exact EP|].
  cbn [p_builder p_left_bound p_right_bound split_col points_ set_points].
  pose proof (inv_cursors _ _ _ _ _ _ _ _ _ I) as Hcur.
  pose proof (inv_shuffled _ _ _ _ _ _ _ _ _ I) as Hsh.
  pose proof (call_range _ _ _ _ _ Hcall) as Hrange.
  assert (Hvalid : forall f c v, first <= f -> f + c <= first + count ->
                     in_node (s_points s) f c v -> valid_point dim v).
  { intros f c v Hf Hfc (k & Hk & Zv).
    destruct (shuffled_in_node _ _ _ _ k v Hsh ltac:(lia) Zv) as (k' & Hk' & Zv').
    apply Hval. exists k'. split; [exact Hk' | exact Zv']. }
  split; intros Hne.
  - apply tight_of_generated.
    + rewrite (accumulated_length _ _ _ (inv_left_acc _ _ _ _ _ _ _ _ _ I)).
      apply Bound_Init_length, Hdim.
    + intros v Hv. apply (Hvalid first (s_left s - first) v); [lia | lia | exact Hv].
    + destruct (zth_in_range (s_points s) first) as (v & Zv).
      { destruct Hsh as (L & _). rewrite L. lia. }
      exists v, first. split; [lia | exact Zv].
    + intros v (k & Hk & Zv). eapply inv_left_cover; [exact I| |exact Zv]. lia.
    + eapply generated_weaken;
        [|eapply generated_accumulated;
          [exact (inv_left_acc _ _ _ _ _ _ _ _ _ I) | apply generated_Init]].
      intros v [(k0 & Hk0 & Zv0) (x & Zx & Hlt)].
      destruct (shuffled_in_node_back _ _ _ _ k0 v Hsh Hk0 Zv0) as (j & Hj & Zj).
      exists j. split; [|exact Zj].
      destruct (Z.lt_ge_cases j (s_left s)) as [Hl | Hg]; [lia|]. exfalso.
      destruct (inv_above _ _ _ _ _ _ _ _ _ I j ltac:(lia)) as (y & Hy & Hyle).
      unfold coord in Hy. rewrite Zj, Zx in Hy. inversion Hy; subst. lra.
  - apply tight_of_generated.
    + rewrite (accumulated_length _ _ _ (inv_right_acc _ _ _ _ _ _ _ _ _ I)).
      apply Bound_Init_length, Hdim.
    + intros v Hv.
      apply (Hvalid (s_left s) (first + count - s_left s) v); [lia | lia | exact Hv].
    + destruct (zth_in_range (s_points s) (s_left s)) as (v & Zv).
      { destruct Hsh as (L & _). rewrite L. lia. }
      exists v, (s_left s). split; [lia | exact Zv].
    + intros v (k & Hk & Zv). eapply inv_right_cover; [exact I| |exact Zv]. lia.
    + eapply generated_weaken;
        [|eapply generated_accumulated;
          [exact (inv_right_acc _ _ _ _ _ _ _ _ _ I) | apply generated_Init]].
      intros v [(k0 & Hk0 & Zv0) (x & Zx & Hge)].
      destruct (shuffled_in_node_back _ _ _ _ k0 v Hsh Hk0 Zv0) as (j & Hj & Zj).
      exists j. split; [|exact Zj].
      destruct (Z.lt_ge_cases j (s_left s)) as [Hl | Hg]; [|lia]. exfalso.
      destruct (inv_below _ _ _ _ _ _ _ _ _ I j ltac:(lia)) as (y & Hy & Hylt).
      unfold coord in Hy. rewrite Zj, Zx in Hy. inversion Hy; subst. lra.
Qed.

End PartitionMore.

Section PartitionEdges.

Context {Param PointInfo Stat : Type}.

(** A range that is already partitioned at the index [m]: the scans cross
    at [m] without an exchange. *)
Lemma Partition__of_partitioned (b : Builder Param PointInfo Stat) (split_dim : Z)
    (splitvalue : double) (first count m : Z) (left_bound right_bound : Bound)
    (fuel : nat) :
  partition_call b split_dim splitvalue first count ->
  first <= m <= first + count ->
  (forall k, first <= k < m -> below (points_ b) split_dim splitvalue k) ->
  (forall k, m <= k < first + count -> at_or_above (points_ b) split_dim splitvalue k) ->
  (Z.to_nat (count + 1) <= fuel)%nat ->
  exists lb' rb' : Bound,
    Partition_ fuel b split_dim splitvalue first count left_bound right_bound
    = Ret (mkPartitioned m b lb' rb').
Proof.
  revert b split_dim splitvalue first count m left_bound right_bound fuel.
  intros b sd sv first count m lb rb fuel [Hr Hd Hi Hhi Hlo] Hm Hbelow Habove Hfuel.
  destruct fuel as [|fuel]; [lia|].
  destruct (left_scan_spec sd sv (points_ b) (point_infos_ b) Hd (S fuel)
              first (first + count - 1) lb rb) as (l' & lb' & El & Hl & Hlb & Hla & _).
  { lia. }
  { lia. }
  { destruct Hhi as [Hhi | (k & Hk & Ha)]; [left; lia | right].
    exists k. split; [lia | exact Ha]. }
  { lia. }
  assert (l' = m) as ->.
  { destruct (Z.lt_trichotomy l' m) as [Hlt | [Heq | Hgt]]; [|exact Heq|]; exfalso.
    - apply (below_not_above (points_ b) sd sv l');
        [apply Hbelow; lia | apply Hla; lia].
    - apply (below_not_above (points_ b) sd sv m);
        [apply Hlb; lia | apply Habove; lia]. }
  destruct (right_scan_spec sd sv (points_ b) (point_infos_ b) Hd (S fuel)
              m (first + count - 1) lb' rb) as (r' & rb' & Er & Hrr & _ & Hrb & _).
  { lia. }
  { lia. }
  { destruct Hlo as [Hlo | (k & Hk & Hb)]; [left; lia | left].
    destruct (Z.lt_ge_cases k m) as [Hlt | Hge]; [lia|]. exfalso.
    apply (below_not_above (points_ b) sd sv k); [exact Hb | apply Habove; lia]. }
  { lia. }
  assert (r' = m - 1) as ->.
  { destruct (Z.lt_ge_cases r' m) as [Hlt | Hge]; [lia|]. exfalso.
    apply (below_not_above (points_ b) sd sv r'); [apply Hrb; lia | apply Habove; lia]. }
  exists lb', rb'.
  unfold Partition_. rewrite partition_loop_S, El. cbn [bind]. rewrite Er. cbn [bind].
  cbn [s_left s_right s_points s_infos s_left_bound s_right_bound].
  destruct (Z.gtb_spec m (m - 1)) as [_ | Hle]; [|lia].
  cbn [bind s_left s_right s_points s_infos s_left_bound s_right_bound].
  replace (m - 1 + 1) with m by lia. rewrite Z.eqb_refl. cbn [DEBUG_ASSERT bind].
  destruct b; reflexivity.
Qed.

(** X16: on a range that is already partitioned at the index [m], the
    points before [m] below the split value and the points from [m] on at or
    above it, such a call of [Partition_] returns [m] and exchanges nothing:
    the points and the payloads it leaves are the ones it was given, each at
    its index. *)
Theorem Partition__already_partitioned :
  forall (b : Builder Param PointInfo Stat) (split_dim : Z) (splitvalue : double)
    (first count m : Z) (left_bound right_bound : Bound) (fuel : nat),
    partition_call b split_dim splitvalue first count ->
    first <= m <= first + count ->
    (forall k, first <= k < m -> below (points_ b) split_dim splitvalue k) ->
    (forall k, m <= k < first + count -> at_or_above (points_ b) split_dim splitvalue k) ->
    (Z.to_nat (count + 1) <= fuel)%nat ->
    exists p : Partitioned Param PointInfo Stat,
      Partition_ fuel b split_dim splitvalue first count left_bound right_bound = Ret p /\
      split_col p = m /\
      points_ (p_builder p) = points_ b /\ point_infos_ (p_builder p) = point_infos_ b.
Proof.
  intros b sd sv first count m lb rb fuel Hcall Hm Hbelow Habove Hfuel.
  destruct (Partition__of_partitioned b sd sv first count m lb rb fuel Hcall Hm Hbelow
              Habove Hfuel) as (lb' & rb' & E).
  exists (mkPartitioned m b lb' rb'). split; [exact E|]. repeat split; reflexivity.
Qed.

(** X17: [Partition_] is idempotent.  After a call that stays inside the
    arrays, a second call with the same split and range, whatever the two
    bounds it is given, returns the same index and leaves the points and the
    payloads where the first call put them. *)
Theorem Partition__idempotent :
  forall (b : Builder Param PointInfo Stat) (split_dim : Z) (splitvalue : double)
    (first count : Z) (left_bound right_bound left_bound' right_bound' : Bound)
    (fuel : nat),
    partition_call b split_dim splitvalue first count ->
    (Z.to_nat (count + 1) <= fuel)%nat ->
    exists p p' : Partitioned Param PointInfo Stat,
      Partition_ fuel b split_dim splitvalue first count left_bound right_bound = Ret p /\
      Partition_ fuel (p_builder p) split_dim splitvalue first count
        left_bound' right_bound' = Ret p' /\
      split_col p' = split_col p /\ p_builder p' = p_builder p.
Proof.
  intros b sd sv first count lb rb lb2 rb2 fuel Hcall Hfuel.
  destruct (Partition__spec b sd sv first count lb rb fuel Hcall Hfuel)
    as (s & _ & I & Hcross & EP).
  destruct Hcall as [Hr Hd Hi Hhi Hlo].
  pose proof (inv_shuffled _ _ _ _ _ _ _ _ _ I) as Hsh.
  pose proof (inv_cursors _ _ _ _ _ _ _ _ _ I) as Hcur.
  destruct Hsh as (L & _ & _ & Hback).
  set (b1 := set_points (s_points s) (s_infos s) b).
  assert (Hcall1 : partition_call b1 sd sv first count).
  { constructor; cbn [b1 points_ point_infos_ set_points].
    - rewrite L. exact Hr.
    - exact (inv_dim _ _ _ _ _ _ _ _ _ I).
    - exact (inv_infos_length _ _ _ _ _ _ _ _ _ I).
    - rewrite L. destruct Hhi as [Hhi | (k & Hk & Ha)]; [left; exact Hhi | right].
      destruct (Hback k Hk) as (k' & Hk' & Ek). exists k'. split; [exact Hk'|].
      apply (at_or_above_ext (points_ b) (s_points s) sd sv k k'); [congruence | exact Ha].
    - destruct Hlo as [Hlo | (k & Hk & Hb)]; [left; exact Hlo | right].
      destruct (Hback k Hk) as (k' & Hk' & Ek). exists k'. split; [exact Hk'|].
      apply (below_ext (points_ b) (s_points s) sd sv k k'); [congruence | exact Hb]. }
  destruct (Partition__of_partitioned b1 sd sv first count (s_left s) lb2 rb2 fuel Hcall1)
    as (lb' & rb' & E2).
  - lia.
  - intros k Hk. apply (inv_below _ _ _ _ _ _ _ _ _ I k Hk).
  - intros k Hk. apply (inv_above _ _ _ _ _ _ _ _ _ I k). lia.
  - exact Hfuel.
  - eexists. eexists. split; [exact EP|]. cbn [p_builder split_col].
    split; [exact E2|]. split; reflexivity.
Qed.

(** X18: the two conditions on the ends of the array cannot be dropped.
    When the range ends at the end of the array and all its points are below
    the split value, the left cursor of [Partition_] reaches the size of the
    array and the scan reads the point array there; when the range begins at
    index 0 and all its points are at or above the split value, the right
    cursor reaches -1 and the scan reads the point array there.  With
    [count + 1] units of fuel or more the run makes that access outside the
    array. *)
Theorem Partition__leaves_the_array :
  forall (b : Builder Param PointInfo Stat) (split_dim : Z) (splitvalue : double)
    (first count : Z) (left_bound right_bound : Bound) (fuel : nat),
    0 <= first -> 1 <= count -> first + count <= Z.of_nat (length (points_ b)) ->
    Forall (has_dim split_dim) (points_ b) ->
    (first + count = Z.of_nat (length (points_ b)) /\
     forall k, first <= k < first + count -> below (points_ b) split_dim splitvalue k) \/
    (first = 0 /\
     forall k, first <= k < first + count ->
               at_or_above (points_ b) split_dim splitvalue k) ->
    (Z.to_nat (count + 1) <= fuel)%nat ->
    Partition_ fuel b split_dim splitvalue first count left_bound right_bound
    = OutOfRange.
Proof.
  intros b sd sv first count lb rb fuel Hf Hc Hn Hd Hside Hfuel.
  unfold Partition_.
  rewrite (partition_loop_runs_off sd sv (points_ b) (point_infos_ b) first count lb rb fuel
             Hf Hc Hn Hd Hside Hfuel).
  reflexivity.
Qed.

End PartitionEdges.

(** ** The points and their payloads *)

Lemma upd_same {A : Type} (l : list A) (n : nat) (a : A) :
  nth_error l n = Some a -> upd l n a = l.
Proof.
  revert n; induction l as [|x l IH]; intros [|n] E; simpl in *; try discriminate.
  - inversion E; reflexivity.
  - f_equal. apply IH, E.
Qed.

Lemma zupd_same {A : Type} (l : list A) (i : Z) (a : A) :
  zth l i = Some a -> zupd l i a = l.
Proof.
  unfold zth, zupd. destruct (i <? 0); [reflexivity | apply upd_same].
Qed.

Lemma swap_Permutation_le {A : Type} (l l' : list A) (i j : Z) :
  i <= j -> swap l i j = Ret l' -> Permutation l l'.
Proof.
  intros Hij E. destruct (Z.eq_dec i j) as [-> | Hne].
  - unfold swap in E. apply bind_Ret in E as (a & Ra & E).
    rewrite Ra in E. cbn [bind] in E. inversion E; subst l'.
    apply read_Ret in Ra. rewrite zupd_zupd, (zupd_same _ _ _ Ra). apply Permutation_refl.
  - apply (swap_Permutation l l' i j); [lia | exact E].
Qed.

Section PairsKept.

Context {Param PointInfo Stat : Type} `{Statistic Param PointInfo Stat}.
Variable BIG_BAD_NUMBER : Z.
Variable range_width : DRange -> double.
Variable range_mid : DRange -> double.

(** The pairs of a point and its payload in [b'] are those of [b] in another
    order, and the parameters of the builder are the same. *)
Definition kept (b b' : Builder Param PointInfo Stat) : Prop :=
  Permutation (combine (points_ b) (point_infos_ b))
              (combine (points_ b') (point_infos_ b')) /\
  param_ b' = param_ b /\ leaf_size_ b' = leaf_size_ b /\ dim_ b' = dim_ b.

Lemma kept_refl (b : Builder Param PointInfo Stat) : kept b b.
Proof.
  split; [apply Permutation_refl | repeat split].
Qed.

Lemma kept_trans (b1 b2 b3 : Builder Param PointInfo Stat) :
  kept b1 b2 -> kept b2 b3 -> kept b1 b3.
Proof.
  intros (P1 & A1 & B1 & C1) (P2 & A2 & B2 & C2).
  split; [eapply Permutation_trans; eassumption|]. repeat split; congruence.
Qed.

Lemma kept_set_nodes (b : Builder Param PointInfo Stat) (ns : list (Node Stat)) :
  kept b (set_nodes ns b).
Proof.
  split; [apply Permutation_refl | repeat split].
Qed.

Lemma modify_node_kept (b b' : Builder Param PointInfo Stat) (i : Z)
    (f : Node Stat -> Node Stat) :
  modify_node i f b = Ret b' -> kept b b'.
Proof.
  unfold modify_node. intros E. apply bind_Ret in E as (n & _ & E).
  inversion E; subst b'. apply kept_set_nodes.
Qed.

Lemma left_scan_arrays (fuel : nat) (sd : Z) (sv : double) :
  forall s s' : Scan PointInfo,
    left_scan fuel sd sv s = Ret s' ->
    s_points s' = s_points s /\ s_infos s' = s_infos s.
Proof.
  induction fuel as [|fuel IH]; intros s s' E; [discriminate|].
  cbn [left_scan] in E. apply bind_Ret in E as (v & _ & E).
  apply bind_Ret in E as (x & _ & E).
  destruct (Qle_bool sv x || (s_left s >? s_right s)).
  - inversion E; subst s'. split; reflexivity.
  - apply IH in E. exact E.
Qed.

Lemma right_scan_arrays (fuel : nat) (sd : Z) (sv : double) :
  forall s s' : Scan PointInfo,
    right_scan fuel sd sv s = Ret s' ->
    s_points s' = s_points s /\ s_infos s' = s_infos s.
Proof.
  induction fuel as [|fuel IH]; intros s s' E; [discriminate|].
  cbn [right_scan] in E. apply bind_Ret in E as (v & _ & E).
  apply bind_Ret in E as (x & _ & E).
  destruct (Qlt_b x sv || (s_left s >? s_right s)).
  - inversion E; subst s'. split; reflexivity.
  - apply IH in E. exact E.
Qed.

Lemma exchange_pairs (s s' : Scan PointInfo) :
  exchange s = Ret s' ->
  Permutation (combine (s_points s) (s_infos s)) (combine (s_points s') (s_infos s')).
Proof.
  unfold exchange. intros E.
  apply bind_Ret in E as (pts & Ep & E). apply bind_Ret in E as (infs & Ei & E).
  apply bind_Ret in E as (lv & _ & E). apply bind_Ret in E as (rv & _ & E).
  apply bind_Ret in E as (u & Ea & E). inversion E; subst s'.
  cbn [s_points s_infos].
  unfold DEBUG_ASSERT in Ea. destruct (Z.leb_spec (s_left s) (s_right s)); [|discriminate].
  eapply swap_Permutation_le; [eassumption|]. apply swap_combine; eassumption.
Qed.

Lemma partition_loop_pairs (fuel : nat) (sd : Z) (sv : double) :
  forall s s' : Scan PointInfo,
    partition_loop fuel sd sv s = Ret s' ->
    Permutation (combine (s_points s) (s_infos s)) (combine (s_points s') (s_infos s')).
Proof.
  induction fuel as [|fuel IH]; intros s s' E; [discriminate|].
  rewrite partition_loop_S in E.
  apply bind_Ret in E as (s1 & E1 & E). apply bind_Ret in E as (s2 & E2 & E).
  apply left_scan_arrays in E1 as (P1 & I1). apply right_scan_arrays in E2 as (P2 & I2).
  rewrite <- P1, <- I1, <- P2, <- I2.
  destruct (s_left s2 >? s_right s2).
  - inversion E; subst s'. apply Permutation_refl.
  - apply bind_Ret in E as (s3 & E3 & E). apply exchange_pairs in E3. apply IH in E.
    eapply Permutation_trans; eassumption.
Qed.

Lemma Partition__kept (fuel : nat) (b : Builder Param PointInfo Stat) (sd : Z) (sv : double)
    (first count : Z) (lb rb : Bound) (p : Partitioned Param PointInfo Stat) :
  Partition_ fuel b sd sv first count lb rb = Ret p -> kept b (p_builder p).
Proof.
  unfold Partition_. intros E. apply bind_Ret in E as (s & Es & E).
  apply bind_Ret in E as (u & _ & E). inversion E; subst p. cbn [p_builder].
  apply partition_loop_pairs in Es. cbn [s_points s_infos] in Es.
  split; [exact Es | repeat split].
Qed.

Lemma split_node_kept (fuel : nat) (b : Builder Param PointInfo Stat) (node : Node Stat)
    (sd : Z) (sv : double) (left_i right_i : Z) (b' : Builder Param PointInfo Stat) :
  split_node fuel b node sd sv = Ret (left_i, right_i, b') -> kept b b'.
Proof.
  unfold split_node, Alloc. cbv beta iota zeta. intros E.
  apply bind_Ret in E as (b1 & E1 & E). apply bind_Ret in E as (b2 & E2 & E).
  apply bind_Ret in E as (ln & _ & E). apply bind_Ret in E as (rn & _ & E).
  apply bind_Ret in E as (p & Ep & E).
  apply bind_Ret in E as (b3 & E3 & E). apply bind_Ret in E as (b4 & E4 & E).
  apply bind_Ret in E as (b5 & E5 & E). apply bind_Ret in E as (b6 & E6 & E).
  apply bind_Ret in E as (ln' & _ & E). apply bind_Ret in E as (rn' & _ & E).
  apply bind_Ret in E as (u & _ & E). inversion E; subst.
  apply modify_node_kept in E1, E2, E3, E4, E5, E6. apply Partition__kept in Ep.
  eapply kept_trans; [apply kept_set_nodes|].
  eapply kept_trans; [apply (kept_set_nodes _ (nodes_ b ++ [fresh_node] ++ [fresh_node]))|].
  cbn [set_nodes param_ points_ point_infos_ nodes_ leaf_size_ dim_] in *.
  rewrite <- app_assoc in E1.
  repeat (eapply kept_trans; [eassumption|]). apply kept_refl.
Qed.

Lemma join_node_kept (b b' : Builder Param PointInfo Stat) (node_i left_i right_i : Z) :
  join_node b node_i left_i right_i = Ret b' -> kept b b'.
Proof.
  unfold join_node. intros E.
  apply bind_Ret in E as (b1 & E1 & E). apply bind_Ret in E as (b2 & E2 & E).
  apply bind_Ret in E as (ln & _ & E). apply bind_Ret in E as (rn & _ & E).
  apply bind_Ret in E as (b3 & E3 & E). apply bind_Ret in E as (b4 & E4 & E).
  apply modify_node_kept in E1, E2, E3, E4, E.
  repeat (eapply kept_trans; [eassumption|]). apply kept_refl.
Qed.

Lemma make_leaf_kept (b b' : Builder Param PointInfo Stat) (node_i : Z) :
  make_leaf b node_i = Ret b' -> kept b b'.
Proof.
  unfold make_leaf. intros E.
  apply bind_Ret in E as (b1 & E1 & E). apply bind_Ret in E as (nd & _ & E).
  apply bind_Ret in E as (st & _ & E). apply bind_Ret in E as (b2 & E2 & E).
  apply modify_node_kept in E1, E2, E.
  repeat (eapply kept_trans; [eassumption|]). apply kept_refl.
Qed.

Lemma Build__kept (uninit : Z -> bool) (fuel : nat) :
  forall (b b' : Builder Param PointInfo Stat) (node_i : Z),
    Build_ BIG_BAD_NUMBER range_width range_mid uninit fuel b node_i = Ret b' -> kept b b'.
Proof.
  induction fuel as [|fuel IH]; intros b b' node_i E; [discriminate|].
  rewrite Build__S in E.
  apply bind_Ret in E as (node & _ & E). apply bind_Ret in E as (b1 & E1 & E).
  apply bind_Ret in E as ([br leaf] & Er & E). cbn [fst snd] in E.
  apply modify_node_kept in E1.
  assert (Hr : kept b1 br).
  { destruct (count_ node >? leaf_size_ b1).
    - apply bind_Ret in Er as (ms & _ & Er). apply bind_Ret in Er as (rg & _ & Er).
      destruct (Qneq_b (fst ms) 0).
      + apply bind_Ret in Er as ([[l r] b2] & E2 & Er). cbn [fst snd] in Er.
        apply bind_Ret in Er as (b3 & E3 & Er). apply bind_Ret in Er as (b4 & E4 & Er).
        apply bind_Ret in Er as (b5 & E5 & Er). inversion Er; subst.
        apply split_node_kept in E2. apply IH in E3, E4. apply join_node_kept in E5.
        repeat (eapply kept_trans; [eassumption|]). apply kept_refl.
      + inversion Er; subst. apply kept_refl.
    - inversion Er; subst. apply kept_refl. }
  eapply kept_trans; [exact E1|]. eapply kept_trans; [exact Hr|].
  destruct leaf.
  - apply make_leaf_kept in E. exact E.
  - inversion E; subst. apply kept_refl.
Qed.

Lemma Build_kept (uninit : Z -> bool) (fuel : nat) (b b' : Builder Param PointInfo Stat) :
  Build BIG_BAD_NUMBER range_width range_mid uninit fuel b = Ret b' -> kept b b'.
Proof.
  unfold Build, Alloc. cbv beta iota zeta. intros E.
  apply bind_Ret in E as (b1 & E1 & E). apply bind_Ret in E as (b2 & E2 & E).
  apply bind_Ret in E as (nd & _ & E). apply bind_Ret in E as (bd & _ & E).
  apply bind_Ret in E as (b3 & E3 & E).
  apply modify_node_kept in E1, E2, E3. apply Build__kept in E.
  eapply kept_trans; [apply (kept_set_nodes _ (nodes_ b ++ [fresh_node]))|].
  repeat (eapply kept_trans; [eassumption|]). apply kept_refl.
Qed.

(** X24: [Build] loses no point and no payload and keeps each point with
    its payload.  Whenever it returns for a data set of at least one point,
    the pairs of a point and its payload that it leaves are the pairs it was
    given, in another order, the two arrays keep their sizes, and the
    parameters, the leaf size and the dimension of the builder are as they
    were. *)
Theorem Build_keeps_points_with_payloads :
  forall (uninit : Z -> bool) (fuel : nat) (b b' : Builder Param PointInfo Stat),
    build_input b ->
    Build BIG_BAD_NUMBER range_width range_mid uninit fuel b = Ret b' ->
    Permutation (combine (points_ b) (point_infos_ b))
                (combine (points_ b') (point_infos_ b')) /\
    length (points_ b') = length (points_ b) /\
    length (point_infos_ b') = length (point_infos_ b) /\
    param_ b' = param_ b /\ leaf_size_ b' = leaf_size_ b /\ dim_ b' = dim_ b.
Proof.
  intros uninit fuel b b' Hin E.
  destruct (Build_Ret BIG_BAD_NUMBER range_width range_mid uninit fuel b b' Hin E)
    as (root & root' & extra & _ & _ & B & _).
  destruct (Build_kept uninit fuel b b' E) as (P & Ep & El & Ed).
  split; [exact P|].
  pose proof (bt_points _ _ _ _ _ _ B) as Hsh. cbn [points_ set_nodes] in Hsh.
  pose proof (bt_infos _ _ _ _ _ _ B) as Hi.
  assert (L : length (points_ b') = length (points_ b)) by apply Hsh.
  split; [exact L|]. split; [|repeat split; assumption].
  rewrite Hi, L. symmetry. apply Hin.
Qed.

End PairsKept.

(** ** Data sets that [Build] does not split *)

Section BuildFrame.

Context {Param PointInfo Stat : Type} `{Statistic Param PointInfo Stat}.
Variable BIG_BAD_NUMBER : Z.
Variable range_width : DRange -> double.
Variable range_mid : DRange -> double.

(** X26: on a data set of at least one and at most [leaf_size_] points,
    [Build] needs one unit of fuel and returns a tree of a single node: the
    points and the payloads are where they were, the node covers them all,
    its bound is their bounding box, and its links are absent or unwritten as
    the unassigned [leaf] reads. *)
Theorem Build_small_data_set :
  forall (uninit : Z -> bool) (fuel : nat) (b : Builder Param PointInfo Stat),
    build_input b ->
    Z.of_nat (length (points_ b)) <= leaf_size_ b ->
    exists (b' : Builder Param PointInfo Stat) (root' : Node Stat),
      Build BIG_BAD_NUMBER range_width range_mid uninit (S fuel) b = Ret b' /\
      nodes_ b' = [root'] /\
      points_ b' = points_ b /\ point_infos_ b' = point_infos_ b /\
      begin_ root' = 0 /\ count_ root' = Z.of_nat (length (points_ b)) /\
      tight (dim_ b) (points_ b) 0 (Z.of_nat (length (points_ b))) (bound_ root') /\
      child0_ root' = (if uninit 0 then NoChild else Unset) /\
      child1_ root' = (if uninit 0 then NoChild else Unset).
Proof.
  intros uninit fuel b [Hok Hnodes HN] Hsmall.
  set (N := Z.of_nat (length (points_ b))) in *.
  destruct (FindBoundingBox_loop_spec (points_ b) (Z.to_nat N) 0 (Bound_Init (dim_ b))
              ltac:(lia) ltac:(unfold N; lia)) as (bd & Ebd & Hacc & Hcov).
  rewrite Z2Nat.id in Hacc, Hcov by lia.
  set (root := mkNode 0 N bd Unset Unset (@stat_default _ _ _ H)).
  assert (Ht : tight (dim_ b) (points_ b) 0 N bd).
  { apply tight_of_generated.
    - rewrite (accumulated_length _ _ _ Hacc). apply Bound_Init_length.
      pose proof (ok_dim _ Hok). lia.
    - intros v Hv. eapply builder_ok_in_node; eauto.
    - destruct (zth_in_range (points_ b) 0 ltac:(unfold N in HN; lia)) as (v & Zv).
      exists v, 0. split; [lia | exact Zv].
    - exact Hcov.
    - eapply generated_accumulated; [exact Hacc | apply generated_Init]. }
  set (b0 := set_nodes [root] b).
  assert (Hok0 : builder_ok b0) by (destruct Hok; constructor; assumption).
  assert (Z0 : zth (nodes_ b0) 0 = Some root) by reflexivity.
  destruct (finish_unsplit b0 0 root (uninit 0) (stat_Init (param_ b0) (stat_ root))
              Hok0 Z0) as (b' & root' & E & B & En & Ep & Ei & E0 & E1);
    cbn [b0 nodes_ set_nodes points_ dim_ root begin_ count_ bound_]; unfold end_;
    cbn [begin_ count_]; try lia; try reflexivity; auto.
  exists b', root'.
  destruct (bt_same _ _ _ _ _ _ B) as (Eb & Ec & Ebd').
  split.
  { unfold Build, Alloc. cbv beta iota zeta. rewrite Hnodes. cbn [app nodes_ set_nodes].
    unfold modify_node at 1 2 3, read.
    cbn [zth Z.ltb Z.compare Z.to_nat nth_error bind nodes_ set_nodes zupd upd points_ dim_].
    unfold Node_Init, set_bound, fresh_node. cbn [begin_ count_ bound_ child0_ child1_ stat_].
    unfold FindBoundingBox_. cbn [points_ set_nodes]. fold N. rewrite Ebd.
    cbn [bind nodes_ set_nodes].
    change (Build_ BIG_BAD_NUMBER range_width range_mid uninit (S fuel) b0 0 = Ret b').
    rewrite Build__S.
    assert (Rnd : read (nodes_ b0) 0 = Ret root) by reflexivity.
    rewrite Rnd. cbn [bind]. rewrite (modify_node_Ret b0 0 _ root Z0). cbn [bind].
    cbn [leaf_size_ set_nodes b0 count_ root].
    destruct (Z.gtb_spec N (leaf_size_ b)) as [Hgt | _]; [lia|].
    cbn [bind fst snd]. exact E. }
  split; [exact En|]. split; [exact Ep|]. split; [exact Ei|].
  split; [exact Eb|]. split; [exact Ec|]. split; [rewrite Ebd'; exact Ht|].
  split; [exact E0 | exact E1].
Qed.

(** X27: on an empty data set and with a leaf size that is not negative,
    [Build] reads no point: it returns a single node with the range [(0, 0)],
    the empty bound of [dim_] dimensions and links as the unassigned [leaf]
    reads, and leaves the rest of the builder as it was. *)
Theorem Build_empty_data_set :
  forall (uninit : Z -> bool) (fuel : nat) (b : Builder Param PointInfo Stat),
    points_ b = [] -> nodes_ b = [] -> 0 <= leaf_size_ b ->
    exists root' : Node Stat,
      Build BIG_BAD_NUMBER range_width range_mid uninit (S fuel) b = Ret (set_nodes [root'] b) /\
      begin_ root' = 0 /\ count_ root' = 0 /\ bound_ root' = Bound_Init (dim_ b) /\
      child0_ root' = (if uninit 0 then NoChild else Unset) /\
      child1_ root' = (if uninit 0 then NoChild else Unset).
Proof.
  intros uninit fuel b Hp Hn Hl.
  destruct b as [param points infos nodes leaf_size dim].
  cbn [points_ nodes_ leaf_size_ dim_] in *. subst points nodes.
  unfold Build, Alloc. cbv beta iota zeta. cbn [app nodes_ set_nodes].
  unfold modify_node at 1 2 3, read.
  cbn [zth Z.ltb Z.compare Z.to_nat nth_error bind nodes_ set_nodes zupd upd points_ dim_
       length Z.of_nat].
  unfold Node_Init, set_bound, fresh_node. cbn [begin_ count_ bound_ child0_ child1_ stat_].
  unfold FindBoundingBox_. cbn [points_ set_nodes Z.to_nat FindBoundingBox_loop bind].
  rewrite Build__S. unfold modify_node, read.
  cbn [zth Z.ltb Z.compare Z.to_nat nth_error bind nodes_ set_nodes zupd upd points_ dim_
       leaf_size_ param_ count_ set_stat begin_ bound_ child0_ child1_ stat_].
  destruct (Z.gtb_spec 0 leaf_size) as [Hgt | _]; [lia|].
  cbn [bind fst snd]. destruct (uninit 0).
  - unfold make_leaf, modify_node, read.
    cbn [zth Z.ltb Z.compare Z.to_nat nth_error bind nodes_ set_nodes zupd upd points_ dim_
         leaf_size_ param_ count_ set_stat set_leaf begin_ bound_ child0_ child1_ stat_].
    unfold end_. cbn [begin_ count_ Z.add Z.sub Z.opp Z.to_nat leaf_stat_loop bind].
    cbn [zth Z.ltb Z.compare Z.to_nat nth_error bind nodes_ set_nodes zupd upd points_ dim_
         leaf_size_ param_ count_ set_stat set_leaf begin_ bound_ child0_ child1_ stat_].
    eexists. split; [reflexivity|]. repeat split.
  - eexists. split; [reflexivity|]. repeat split.
Qed.

End BuildFrame.

(** ** Concrete runs of the builder *)

Lemma four_points_valid (first count : Z) (v : Vector) :
  in_node (points_ four_points) first count v -> valid_point (dim_ four_points) v.
Proof.
  apply builder_ok_in_node, four_points_input.
Qed.

Lemma FindBoundingBox__bounding_box_witness :
  exists bd : Bound,
    FindBoundingBox_ four_points 0 4 (Bound_Init (dim_ four_points)) = Ret bd /\
    tight (dim_ four_points) (points_ four_points) 0 4 bd.
Proof.
  apply (FindBoundingBox__bounding_box four_points 0 4).
  - lia.
  - lia.
  - simpl. lia.
  - simpl. lia.
  - apply four_points_valid.
Defined.

Lemma FindBoundingBox__widens_witness :
  exists bd : Bound,
    FindBoundingBox_ four_points 1 2 [mkRange 0 1] = Ret bd /\
    length bd = length [mkRange 0 1] /\
    (forall v, in_node (points_ four_points) 1 2 v -> Bound_contains bd v) /\
    (forall u, Bound_contains [mkRange 0 1] u -> Bound_contains bd u).
Proof.
  apply (FindBoundingBox__widens four_points 1 2 [mkRange 0 1]); simpl; lia.
Defined.

Lemma Partition__frame_witness :
  exists p : Partitioned unit nat unit,
    Partition_ 5 four_points 0 3%Q 0 4 [] [] = Ret p /\
    param_ (p_builder p) = param_ four_points /\
    leaf_size_ (p_builder p) = leaf_size_ four_points /\
    dim_ (p_builder p) = dim_ four_points /\
    length (points_ (p_builder p)) = length (points_ four_points) /\
    length (point_infos_ (p_builder p)) = length (point_infos_ four_points) /\
    forall k, ~ (0 <= k < 0 + 4) ->
      zth (points_ (p_builder p)) k = zth (points_ four_points) k /\
      zth (point_infos_ (p_builder p)) k = zth (point_infos_ four_points) k.
Proof.
  apply (Partition__frame four_points 0 3%Q 0 4 [] [] 5%nat four_points_call).
  simpl. lia.
Defined.

Lemma Partition__bounds_witness :
  exists p : Partitioned unit nat unit,
    Partition_ 5 four_points 0 3%Q 0 4 [mkRange 0 1] [mkRange 0 1] = Ret p /\
    length (p_left_bound p) = length [mkRange 0 1] /\
    length (p_right_bound p) = length [mkRange 0 1] /\
    (forall v, in_node (points_ (p_builder p)) 0 (split_col p - 0) v ->
               Bound_contains (p_left_bound p) v) /\
    (forall v, in_node (points_ (p_builder p)) (split_col p) (0 + 4 - split_col p) v ->
               Bound_contains (p_right_bound p) v) /\
    (forall u, Bound_contains [mkRange 0 1] u -> Bound_contains (p_left_bound p) u) /\
    (forall u, Bound_contains [mkRange 0 1] u -> Bound_contains (p_right_bound p) u).
Proof.
  apply (Partition__bounds four_points 0 3%Q 0 4 [mkRange 0 1] [mkRange 0 1] 5%nat
           four_points_call).
  simpl. lia.
Defined.

Lemma Partition__bounding_boxes_witness :
  exists p : Partitioned unit nat unit,
    Partition_ 5 four_points 0 3%Q 0 4 (Bound_Init 1) (Bound_Init 1) = Ret p /\
    (0 < split_col p ->
     tight 1 (points_ (p_builder p)) 0 (split_col p - 0) (p_left_bound p)) /\
    (split_col p < 0 + 4 ->
     tight 1 (points_ (p_builder p)) (split_col p) (0 + 4 - split_col p)
       (p_right_bound p)).
Proof.
  apply (Partition__bounding_boxes four_points 0 3%Q 0 4 1 5%nat four_points_call).
  - simpl. lia.
  - lia.
  - apply four_points_valid.
Defined.

(** Four points on a line in increasing order, and two points below 3. *)
Definition sorted_points : Builder unit nat unit :=
  line_builder (map inject_Z [1; 2; 4; 5]) 1.

Definition low_points : Builder unit nat unit :=
  line_builder (map inject_Z [1; 2]) 1.

Lemma sorted_points_call : partition_call sorted_points 0 3%Q 0 4.
Proof.
  constructor; cbn [sorted_points line_builder points_ point_infos_ map length seq].
  - lia.
  - repeat constructor; unfold has_dim; simpl; lia.
  - reflexivity.
  - right. exists 2. split; [lia|]. exists 4%Q. split; [reflexivity | decide_Q].
  - right. exists 0. split; [lia|]. exists 1%Q. split; [reflexivity | decide_Q].
Qed.

Lemma sorted_points_below (k : Z) :
  0 <= k < 2 -> below (points_ sorted_points) 0 3%Q k.
Proof.
  intros Hk. assert (Hc : k = 0 \/ k = 1) by lia.
  destruct Hc as [-> | ->]; eexists; (split; [reflexivity | decide_Q]).
Qed.

Lemma sorted_points_above (k : Z) :
  2 <= k < 0 + 4 -> at_or_above (points_ sorted_points) 0 3%Q k.
Proof.
  intros Hk. assert (Hc : k = 2 \/ k = 3) by lia.
  destruct Hc as [-> | ->]; eexists; (split; [reflexivity | decide_Q]).
Qed.

Lemma Partition__already_partitioned_witness :
  exists p : Partitioned unit nat unit,
    Partition_ 5 sorted_points 0 3%Q 0 4 [] [] = Ret p /\
    split_col p = 2 /\
    points_ (p_builder p) = points_ sorted_points /\
    point_infos_ (p_builder p) = point_infos_ sorted_points.
Proof.
  apply (Partition__already_partitioned sorted_points 0 3%Q 0 4 2 [] [] 5%nat
           sorted_points_call).
  - lia.
  - exact sorted_points_below.
  - exact sorted_points_above.
  - simpl. lia.
Defined.

Lemma Partition__idempotent_witness :
  exists p p' : Partitioned unit nat unit,
    Partition_ 5 four_points 0 3%Q 0 4 [] [] = Ret p /\
    Partition_ 5 (p_builder p) 0 3%Q 0 4 [mkRange 0 1] [] = Ret p' /\
    split_col p' = split_col p /\ p_builder p' = p_builder p.
Proof.
  apply (Partition__idempotent four_points 0 3%Q 0 4 [] [] [mkRange 0 1] [] 5%nat
           four_points_call).
  simpl. lia.
Defined.

Lemma low_points_below (k : Z) :
  0 <= k < 0 + 2 -> below (points_ low_points) 0 3%Q k.
Proof.
  intros Hk. assert (Hc : k = 0 \/ k = 1) by lia.
  destruct Hc as [-> | ->]; eexists; (split; [reflexivity | decide_Q]).
Qed.

Lemma Partition__leaves_the_array_witness :
  Partition_ 3 low_points 0 3%Q 0 2 [] [] = OutOfRange.
Proof.
  apply (Partition__leaves_the_array low_points 0 3%Q 0 2 [] [] 3%nat).
  - lia.
  - lia.
  - simpl. lia.
  - repeat constructor; unfold has_dim; simpl; lia.
  - left. split; [reflexivity | exact low_points_below].
  - simpl. lia.
Defined.

Lemma Build_bounds_are_bounding_boxes_witness :
  build_input four_points /\
  forall nd : Node unit,
    In nd (nodes_ four_points_built) ->
    tight (dim_ four_points_built) (points_ four_points_built) (begin_ nd) (count_ nd)
      (bound_ nd).
Proof.
  split; [exact four_points_input|].
  apply (Build_bounds_are_bounding_boxes 2146666666 width64 mid64 (fun _ => true) 5%nat
           four_points four_points_built four_points_input four_points_run).
Defined.

Lemma Build_splits_until_leaf_size_witness :
  build_input four_points /\
  forall nd : Node unit,
    In nd (nodes_ four_points_built) ->
    (internal nd = true ->
     leaf_size_ four_points < count_ nd /\
     exists mw, max_width 2146666666 width64 (dim_ four_points) (bound_ nd) mw /\
                ~ (mw == 0)%Q) /\
    (internal nd = false ->
     count_ nd <= leaf_size_ four_points \/
     exists mw, max_width 2146666666 width64 (dim_ four_points) (bound_ nd) mw /\
                (mw == 0)%Q).
Proof.
  split; [exact four_points_input|].
  apply (Build_splits_until_leaf_size 2146666666 width64 mid64 (fun _ => true) 5%nat
           four_points four_points_built four_points_input four_points_run).
Defined.

Lemma Build_node_count_witness :
  build_input four_points /\
  (length (nodes_ four_points_built) + 1 = 2 * leaf_count (nodes_ four_points_built))%nat /\
  Z.of_nat (length (nodes_ four_points_built))
  <= 2 * Z.of_nat (length (points_ four_points)) - 1.
Proof.
  split; [exact four_points_input|].
  apply (Build_node_count 2146666666 width64 mid64 (fun _ => true) 5%nat four_points
           four_points_built four_points_input four_points_run).
Defined.

Lemma Build_leaf_marks_witness :
  build_input four_points /\
  forall nd : Node unit,
    In nd (nodes_ four_points_built) ->
    internal nd = true \/ (child0_ nd = NoChild /\ child1_ nd = NoChild).
Proof.
  split; [exact four_points_input|].
  destruct (Build_leaf_marks 2146666666 width64 mid64 (fun _ => true) 5%nat four_points
              four_points_built four_points_input four_points_run) as (_ & Hmarked & _).
  apply Hmarked. reflexivity.
Defined.

Lemma Build_keeps_points_with_payloads_witness :
  build_input four_points /\
  Permutation (combine (points_ four_points) (point_infos_ four_points))
              (combine (points_ four_points_built) (point_infos_ four_points_built)) /\
  length (points_ four_points_built) = length (points_ four_points) /\
  length (point_infos_ four_points_built) = length (point_infos_ four_points) /\
  param_ four_points_built = param_ four_points /\
  leaf_size_ four_points_built = leaf_size_ four_points /\
  dim_ four_points_built = dim_ four_points.
Proof.
  split; [exact four_points_input|].
  apply (Build_keeps_points_with_payloads 2146666666 width64 mid64 (fun _ => true) 5%nat
           four_points four_points_built four_points_input four_points_run).
Defined.

(** The four points with the root node that [Build] gives them. *)
Definition four_points_root : Node unit := mkNode 0 4 [mkRange 1 5] Unset Unset tt.

Definition four_points_rooted : Builder unit nat unit :=
  set_nodes [four_points_root] four_points.

Lemma four_points_rooted_ok : builder_ok four_points_rooted.
Proof.
  destruct four_points_input as [[Hd Hp Hi] _ _]. constructor; assumption.
Qed.

Lemma four_points_rooted_tight :
  tight (dim_ four_points_rooted) (points_ four_points_rooted)
    (begin_ four_points_root) (count_ four_points_root) (bound_ four_points_root).
Proof.
  destruct (FindBoundingBox_loop_spec (points_ four_points) 4 0 (Bound_Init 1))
    as (bd & E & Hacc & Hcov).
  - lia.
  - simpl. lia.
  - vm_compute in E. inversion E; subst bd. clear E.
    apply tight_of_generated.
    + reflexivity.
    + intros v Hv. eapply four_points_valid, Hv.
    + exists [5%Q], 0. split; [simpl; lia | reflexivity].
    + exact Hcov.
    + eapply generated_accumulated; [exact Hacc | apply generated_Init].
Qed.

Lemma four_points_rooted_run :
  Build_ 2146666666 width64 mid64 (fun _ => true) 5 four_points_rooted 0
  = Ret four_points_built.
Proof.
  vm_compute. reflexivity.
Qed.

Lemma Build__frame_witness :
  builder_ok four_points_rooted /\
  (forall k, ~ (begin_ four_points_root <= k < end_ four_points_root) ->
             zth (points_ four_points_built) k = zth (points_ four_points_rooted) k) /\
  (forall j, j <> 0 -> j < Z.of_nat (length (nodes_ four_points_rooted)) ->
             zth (nodes_ four_points_built) j = zth (nodes_ four_points_rooted) j) /\
  (exists node', zth (nodes_ four_points_built) 0 = Some node' /\
                 begin_ node' = begin_ four_points_root /\
                 count_ node' = count_ four_points_root /\
                 bound_ node' = bound_ four_points_root) /\
  (length (nodes_ four_points_rooted) <= length (nodes_ four_points_built))%nat.
Proof.
  split; [exact four_points_rooted_ok|].
  apply (Build__frame 2146666666 width64 mid64 (fun _ => true) 5%nat four_points_rooted
           four_points_built 0 four_points_root four_points_rooted_ok).
  - reflexivity.
  - simpl. lia.
  - simpl. lia.
  - unfold end_. simpl. lia.
  - exact four_points_rooted_tight.
  - reflexivity.
  - reflexivity.
  - exact four_points_rooted_run.
Defined.

Lemma Build_assertion_holds_when_separate_witness :
  build_input four_points /\
  separate width64 mid64 (points_ four_points) /\
  (forall fuel,
      Build 2146666666 width64 mid64 (fun _ => false) fuel four_points <> AssertFail) /\
  (forall fuel b',
      Build 2146666666 width64 mid64 (fun _ => false) fuel four_points = Ret b' ->
      children_not_empty b').
Proof.
  split; [exact four_points_input|]. split; [exact four_points_separate|].
  apply (Build_assertion_holds_when_separate 2146666666 width64 mid64 (fun _ => false)
           four_points four_points_input four_points_separate).
Defined.

(** The four points with a leaf size that takes them all, and no point. *)
Definition four_points_one_leaf : Builder unit nat unit :=
  line_builder (map inject_Z [5; 1; 4; 2]) 20.

Definition no_points : Builder unit nat unit := line_builder [] 20.

Lemma four_points_one_leaf_input : build_input four_points_one_leaf.
Proof.
  apply line_builder_input; [discriminate|].
  repeat constructor; lia.
Qed.

Lemma Build_small_data_set_witness :
  exists (b' : Builder unit nat unit) (root' : Node unit),
    Build 2146666666 width64 mid64 (fun _ => false) 1 four_points_one_leaf = Ret b' /\
    nodes_ b' = [root'] /\
    points_ b' = points_ four_points_one_leaf /\
    point_infos_ b' = point_infos_ four_points_one_leaf /\
    begin_ root' = 0 /\ count_ root' = Z.of_nat (length (points_ four_points_one_leaf)) /\
    tight (dim_ four_points_one_leaf) (points_ four_points_one_leaf) 0
      (Z.of_nat (length (points_ four_points_one_leaf))) (bound_ root') /\
    child0_ root' = Unset /\ child1_ root' = Unset.
Proof.
  apply (Build_small_data_set 2146666666 width64 mid64 (fun _ => false) 0%nat
           four_points_one_leaf four_points_one_leaf_input).
  simpl. lia.
Defined.

Lemma Build_empty_data_set_witness :
  exists root' : Node unit,
    Build 2146666666 width64 mid64 (fun _ => true) 1 no_points
    = Ret (set_nodes [root'] no_points) /\
    begin_ root' = 0 /\ count_ root' = 0 /\ bound_ root' = Bound_Init (dim_ no_points) /\
    child0_ root' = NoChild /\ child1_ root' = NoChild.
Proof.
  apply (Build_empty_data_set 2146666666 width64 mid64 (fun _ => true) 0%nat no_points).
  - reflexivity.
  - reflexivity.
  - simpl. lia.
Defined.

Lemma widest_first_widest_witness :
  exists (max_width : double) (split_dim : Z),
    widest width64 (Z.to_nat 3) 0 [mkRange 0 1; mkRange 0 3; mkRange 2 5] (-1)%Q 2146666666
    = Ret (max_width, split_dim) /\
    (forall d r, 0 <= d < 3 ->
       zth [mkRange 0 1; mkRange 0 3; mkRange 2 5] d = Some r ->
       (width64 r <= max_width)%Q) /\
    ((split_dim = 2146666666 /\ max_width = (-1)%Q) \/
     (0 <= split_dim < 3 /\
      exists rg, zth [mkRange 0 1; mkRange 0 3; mkRange 2 5] split_dim = Some rg /\
        max_width = width64 rg /\ (-1 < max_width)%Q /\
        forall d r, 0 <= d < split_dim ->
          zth [mkRange 0 1; mkRange 0 3; mkRange 2 5] d = Some r ->
          (width64 r < max_width)%Q)).
Proof.
  apply (widest_first_widest 2146666666 width64 [mkRange 0 1; mkRange 0 3; mkRange 2 5] 3).
  simpl. lia.
Defined.
